(** * ResourceFlow: the allocation grid, its store and its aggregates

    A shallow embedding of the allocation-grid logic of ResourceFlow
    ([App.tsx], [components/ProjectList.tsx], [components/Dashboard.tsx],
    [services/geminiService.ts], [utils.ts]) and the properties of its
    specification that concern it.

    Conventions of the embedding.
    - JavaScript numbers that the program only ever builds from integer
      literals, [parseInt] and integer sums (percentages, day counts, years)
      are values of [Z]; [NaN] is [None] where a function can produce it.
    - Numbers that take part in the cost arithmetic (hourly rates, costs) are
      values of an arbitrary type with the four operations the code uses
      (class [Arith]); no law of arithmetic is assumed of them.
    - React state is passed explicitly.  A handler reads the [allocations]
      array of the render it was created in and queues updater functions
      ([setAllocations (prev => ...)]); React applies the queue, in order, to
      the current array.  One render happens between two events.
    - [crypto.randomUUID ()] is an input of the handler that calls it.

    In the source tree the text of [ProjectList.tsx] follows that of
    [geminiService.ts], the text of [utils.ts] follows that of
    [Dashboard.tsx], and the text of [App.tsx] follows that of
    [types.ts]. *)

From Stdlib Require Import ZArith QArith Lia Ascii String.
From Stdlib Require Import DecimalString DecimalZ DecimalPos.
From stdpp Require Import base decidable option gmap strings sorting numbers.
From stdpp Require Import list.

Local Open Scope string_scope.
Local Open Scope Z_scope.
Local Open Scope list_scope.

(** ** The JavaScript primitives the program relies on *)

Module Js.

(** [Array.prototype.find]: the first element that satisfies the predicate. *)
Fixpoint find {A : Type} (P : A → Prop) `{∀ x, Decision (P x)}
    (l : list A) : option A :=
  match l with
  | [] => None
  | x :: l' => if decide (P x) then Some x else find P l'
  end.

(** White space skipped by [parseInt] and [Number], for the one-byte
    characters: TAB, LF, VT, FF, CR and SPACE. *)
Definition isWhiteSpace (c : ascii) : bool :=
  match N_of_ascii c with
  | 9%N | 10%N | 11%N | 12%N | 13%N | 32%N => true
  | _ => false
  end.

Fixpoint trimStart (s : string) : string :=
  match s with
  | String c s' => if isWhiteSpace c then trimStart s' else s
  | EmptyString => s
  end.

(** The value of a character as a digit: [0-9], then [a-z] or [A-Z] for
    ten to thirty-five. *)
Definition digitValue (c : ascii) : option Z :=
  let n := Z.of_N (N_of_ascii c) in
  if (48 <=? n) && (n <=? 57) then Some (n - 48)
  else if (97 <=? n) && (n <=? 122) then Some (n - 87)
  else if (65 <=? n) && (n <=? 90) then Some (n - 55)
  else None.

(** The value of the longest prefix of radix-[radix] digits; [acc] is
    [None] as long as no digit was read. *)
Fixpoint parseDigits (radix : Z) (s : string) (acc : option Z) : option Z :=
  match s with
  | String c s' =>
      match digitValue c with
      | Some d =>
          if d <? radix
          then parseDigits radix s' (Some (default 0 acc * radix + d))
          else acc
      | None => acc
      end
  | EmptyString => acc
  end.

(** [parseInt (s)] with no radix argument: leading white space, an
    optional sign, an optional [0x] or [0X] prefix that selects radix 16,
    then the longest prefix of digits; [None] is [NaN]. *)
Definition parseInt (s : string) : option Z :=
  let s1 := trimStart s in
  let '(sign, s2) :=
    match s1 with
    | String "-"%char r => (-1, r)
    | String "+"%char r => (1, r)
    | _ => (1, s1)
    end in
  let '(radix, s3) :=
    match s2 with
    | String "0"%char (String "x"%char r) => (16, r)
    | String "0"%char (String "X"%char r) => (16, r)
    | _ => (10, s2)
    end in
  Z.mul sign <$> parseDigits radix s3 None.

(** [Number.prototype.toString] and template-literal interpolation of an
    integer. *)
Definition toString (z : Z) : string := NilZero.string_of_int (Z.to_int z).

(** [String.prototype.split ('-')]. *)
Fixpoint split (s : string) : list string :=
  match s with
  | EmptyString => [EmptyString]
  | String c s' =>
      match split s' with
      | h :: t => if decide (c = "-"%char) then EmptyString :: h :: t
                  else String c h :: t
      | [] => []
      end
  end.

(** [Number (s)] on the strings made of decimal digits only: their value,
    and [0] for the empty string.  Every other string is mapped to [None]:
    that is [NaN] for the strings that are no numeric literal; the literals
    with a sign, a fraction, an exponent, a radix prefix or white space
    occur in no month identifier and are not modelled. *)
Definition Number (s : string) : option Z :=
  Z.of_uint <$> NilEmpty.uint_of_string s.

(** [String (n).padStart (2, '0')] for a non-negative integer. *)
Definition padStart2 (s : string) : string :=
  match s with
  | String c EmptyString => String "0"%char s
  | EmptyString => "00"
  | _ => s
  end.

(** The comparison of [Array.prototype.sort ()] without comparator, on
    strings: the order of the code units. *)
Definition str_le (a b : string) : Prop := String.compare a b ≠ Gt.

#[global] Instance str_le_dec : RelDecision str_le.
Proof. intros a b. unfold str_le. apply _. Defined.

(** [Array.from (new Set (l))]: the distinct elements of [l], each at its
    first position. *)
Fixpoint distinct (seen : gset string) (l : list string) : list string :=
  match l with
  | [] => []
  | x :: l' =>
      if decide (x ∈ seen) then distinct seen l'
      else x :: distinct ({[ x ]} ∪ seen) l'
  end.

(** [Array.from (new Set (l)).sort ()]. *)
Definition sortedDistinct (l : list string) : list string :=
  merge_sort str_le (distinct ∅ l).

End Js.

(** ** The [Date] objects of the host

    The dates the program builds are local midnights, and it reads and
    writes only their calendar fields.  For a host whose local time is at a
    fixed offset from UTC those fields do not depend on the offset, so a
    [Date] is represented by its day number (days since 1 January 1970), or
    [None] for an invalid [Date], whose time value is [NaN].  The functions
    are the abstract operations of ECMAScript (section "Date Objects") on
    day numbers. *)

Module JsDate.

Definition t : Type := option Z.

Definition DaysInYear (y : Z) : Z :=
  if negb (y mod 4 =? 0) then 365
  else if negb (y mod 100 =? 0) then 366
  else if negb (y mod 400 =? 0) then 365
  else 366.

Definition DayFromYear (y : Z) : Z :=
  365 * (y - 1970) + (y - 1969) / 4 - (y - 1901) / 100 + (y - 1601) / 400.

(** The year [y] with [DayFromYear y <= d < DayFromYear (y + 1)]: the
    four-hundred-year average locates it within one year
    ([YearFromDay_spec] and [YearFromDay_unique] below). *)
Definition YearFromDay (d : Z) : Z :=
  let y := 1970 + (400 * d) / 146097 in
  if d <? DayFromYear y then y - 1
  else if DayFromYear (y + 1) <=? d then y + 1
  else y.

Definition InLeapYear (d : Z) : Z :=
  if DaysInYear (YearFromDay d) =? 366 then 1 else 0.

Definition DayWithinYear (d : Z) : Z := d - DayFromYear (YearFromDay d).

Definition MonthFromDay (d : Z) : Z :=
  let dy := DayWithinYear d in
  let leap := InLeapYear d in
  if dy <? 31 then 0
  else if dy <? 59 + leap then 1
  else if dy <? 90 + leap then 2
  else if dy <? 120 + leap then 3
  else if dy <? 151 + leap then 4
  else if dy <? 181 + leap then 5
  else if dy <? 212 + leap then 6
  else if dy <? 243 + leap then 7
  else if dy <? 273 + leap then 8
  else if dy <? 304 + leap then 9
  else if dy <? 334 + leap then 10
  else 11.

Definition DateFromDay (d : Z) : Z :=
  let dy := DayWithinYear d in
  let leap := InLeapYear d in
  match MonthFromDay d with
  | 0 => dy + 1
  | 1 => dy - 30
  | 2 => dy - 58 - leap
  | 3 => dy - 89 - leap
  | 4 => dy - 119 - leap
  | 5 => dy - 150 - leap
  | 6 => dy - 180 - leap
  | 7 => dy - 211 - leap
  | 8 => dy - 242 - leap
  | 9 => dy - 272 - leap
  | 10 => dy - 303 - leap
  | _ => dy - 333 - leap
  end.

(** 0 is Sunday, 6 is Saturday; day 0 was a Thursday. *)
Definition WeekDay (d : Z) : Z := (d + 4) mod 7.

(** The day within a year on which month [mn] (0 to 11) starts. *)
Definition monthStart (leap mn : Z) : Z :=
  match mn with
  | 0 => 0
  | 1 => 31
  | 2 => 59 + leap
  | 3 => 90 + leap
  | 4 => 120 + leap
  | 5 => 151 + leap
  | 6 => 181 + leap
  | 7 => 212 + leap
  | 8 => 243 + leap
  | 9 => 273 + leap
  | 10 => 304 + leap
  | _ => 334 + leap
  end.

(** [MakeDay (year, month, date)]: months outside 0 to 11 carry into the
    year, dates outside the month carry into the day number. *)
Definition MakeDay (year month date : Z) : Z :=
  let ym := year + month / 12 in
  let mn := month mod 12 in
  let leap := if DaysInYear ym =? 366 then 1 else 0 in
  DayFromYear ym + monthStart leap mn + date - 1.

(** [TimeClip]: a time value is at most 8.64e15 ms from the epoch, that
    is, 100,000,000 days. *)
Definition TimeClip (d : Z) : t :=
  if Z.abs d <=? 100000000 then Some d else None.

(** [new Date (year, month, date)]: a year from 0 to 99 stands for
    1900 + year. *)
Definition make (year month date : Z) : t :=
  let yr := if (0 <=? year) && (year <=? 99) then 1900 + year else year in
  TimeClip (MakeDay yr month date).

Definition getFullYear (d : t) : option Z := YearFromDay <$> d.
Definition getMonth (d : t) : option Z := MonthFromDay <$> d.
Definition getDate (d : t) : option Z := DateFromDay <$> d.
Definition getDay (d : t) : option Z := WeekDay <$> d.

(** [d.setDate (dt)], where [dt] may be [NaN]. *)
Definition setDate (d : t) (dt : option Z) : t :=
  day ← d; n ← dt;
  TimeClip (MakeDay (YearFromDay day) (MonthFromDay day) n).

End JsDate.

(** ** [utils.ts] *)

Module Utils.

(** The [while] loop of [getBusinessDaysInMonth]; [None] when [fuel]
    iterations do not reach its end. *)
Fixpoint businessDaysLoop (fuel : nat) (month : Z) (date : JsDate.t)
    (days : list JsDate.t) : option (list JsDate.t) :=
  match fuel with
  | O => None
  | S fuel' =>
      if decide (JsDate.getMonth date = Some month) then
        let day := JsDate.getDay date in
        let days' :=
          if decide (day ≠ Some 0 ∧ day ≠ Some 6) then days ++ [date]
          else days in
        businessDaysLoop fuel' month
          (JsDate.setDate date (Z.add 1 <$> JsDate.getDate date)) days'
      else Some days
  end.

Definition getBusinessDaysInMonth_fuel (fuel : nat) (year month : Z)
    : option Z :=
  (λ days, Z.of_nat (length days)) <$>
    businessDaysLoop fuel month (JsDate.make year month 1) [].

(** No month has more than 31 days: 32 iterations reach the end of the
    loop on every input ([getBusinessDaysInMonth_total] below). *)
Definition getBusinessDaysInMonth (year month : Z) : Z :=
  default 0 (getBusinessDaysInMonth_fuel 32 year month).

(** [monthStr.split ('-').map (Number)], destructured into its first two
    elements; a missing element is [undefined], which behaves as [NaN] in
    the arithmetic that follows, and so does a [NaN] element: the [Date]
    is invalid, the loop body never runs and the day count is 0. *)
Definition getBusinessHoursInMonth (monthStr : string) : Z :=
  let parts := Js.Number <$> Js.split monthStr in
  let businessDays :=
    match mjoin (parts !! 0%nat), mjoin (parts !! 1%nat) with
    | Some year, Some month => getBusinessDaysInMonth year (month - 1)
    | _, _ => 0
    end in
  businessDays * 8.

(** The month identifier that [getNextMonths] builds from a year and a
    month number (1 to 12): [`${yyyy}-${mm}`]. *)
Definition monthId (yyyy mm : Z) : string :=
  Js.toString yyyy +:+ "-" +:+ Js.padStart2 (Js.toString mm).

(** [getNextMonths (count)], with the current date as an argument. *)
Definition getNextMonths (today : JsDate.t) (count : nat) : list string :=
  omap (λ i : nat,
          year ← JsDate.getFullYear today;
          month ← JsDate.getMonth today;
          let d := JsDate.make year (month + Z.of_nat i) 1 in
          yyyy ← JsDate.getFullYear d;
          m ← JsDate.getMonth d;
          Some (monthId yyyy (m + 1)))
       (seq 0 count).

End Utils.

(** ** [types.ts] *)

(** The arithmetic of the cost figures: JavaScript's [+], [*], [/] and the
    conversion of an integer.  Nothing is assumed of the operations. *)
Class Arith (F : Type) : Type := {
  add : F → F → F;
  mul : F → F → F;
  div : F → F → F;
  of_Z : Z → F
}.

(** Exact arithmetic on the rationals, to run the cost functions on. *)
#[global] Instance Q_Arith : Arith Q := {|
  add := Qplus;
  mul := Qmult;
  div := Qdiv;
  of_Z := inject_Z
|}.

Module Role.
Record t {F : Type} : Type := mk {
  id : string;
  title : string;
  defaultHourlyRate : F
}.
Arguments t : clear implicits.
End Role.

Module MemberType.
Inductive t : Type := FULL_TIME | CONTRACTOR | CONSULTANT.
End MemberType.

Module TeamMember.
Record t : Type := mk {
  id : string;
  name : string;
  roleId : string;
  avatarUrl : option string;
  type : MemberType.t
}.
End TeamMember.

Module Status.
Inductive t : Type := Planning | Active | Completed.
End Status.

Module Project.
Record t : Type := mk {
  id : string;
  name : string;
  client : string;
  status : Status.t;
  color : string
}.
End Project.

Module Allocation.
Record t : Type := mk {
  id : string;
  projectId : string;
  memberId : string;
  month : string;
  percentage : Z
}.

#[global] Instance eq_dec : EqDecision t.
Proof. solve_decision. Defined.

(** [{ ...alloc, percentage: newValue }]. *)
Definition withPercentage (alloc : t) (newValue : Z) : t :=
  mk (id alloc) (projectId alloc) (memberId alloc) (month alloc) newValue.
End Allocation.

(** ** [App.tsx]: the allocation store *)

Module App.

Definition addAllocation (alloc : Allocation.t) (prev : list Allocation.t)
    : list Allocation.t :=
  prev ++ [alloc].

Definition updateAllocation (alloc : Allocation.t)
    (prev : list Allocation.t) : list Allocation.t :=
  (λ a, if decide (Allocation.id a = Allocation.id alloc) then alloc else a)
    <$> prev.

Definition deleteAllocation (id : string) (prev : list Allocation.t)
    : list Allocation.t :=
  filter (λ a, Allocation.id a ≠ id) prev.

Definition deleteMember (id : string) (prev : list TeamMember.t)
    : list TeamMember.t :=
  filter (λ m, TeamMember.id m ≠ id) prev.

Definition deleteRole {F : Type} (id : string) (prev : list (Role.t F))
    : list (Role.t F) :=
  filter (λ r, Role.id r ≠ id) prev.

(** The calls a child component makes on the callbacks it was given
    ([onAddAllocation], [onUpdateAllocation], [onDeleteAllocation]). *)
Inductive call : Type :=
  | onAddAllocation (alloc : Allocation.t)
  | onUpdateAllocation (alloc : Allocation.t)
  | onDeleteAllocation (id : string).

Definition updater (c : call) : list Allocation.t → list Allocation.t :=
  match c with
  | onAddAllocation alloc => addAllocation alloc
  | onUpdateAllocation alloc => updateAllocation alloc
  | onDeleteAllocation id => deleteAllocation id
  end.

(** React runs the queued updaters in the order of the calls. *)
Definition commit (queue : list call) (prev : list Allocation.t)
    : list Allocation.t :=
  foldl (λ st c, updater c st) prev queue.

End App.

(** ** [components/ProjectList.tsx]: the allocation grid *)

Module Cell.
Record t : Type := mk {
  projectId : string;
  memberId : string;
  month : string
}.

#[global] Instance eq_dec : EqDecision t.
Proof. solve_decision. Defined.
End Cell.

Module Drag.
(** [dragState.current]. *)
Record t : Type := mk {
  active : bool;
  projectId : string;
  memberId : string;
  startMonth : string;
  startValue : Z;
  paintValue : Z;
  hasMoved : bool;
  paintedCells : gset string
}.

Definition initial : t := mk false "" "" "" 0 0 false ∅.

Definition setActive (b : bool) (d : t) : t :=
  mk b (projectId d) (memberId d) (startMonth d) (startValue d)
     (paintValue d) (hasMoved d) (paintedCells d).

Definition setHasMoved (b : bool) (d : t) : t :=
  mk (active d) (projectId d) (memberId d) (startMonth d) (startValue d)
     (paintValue d) b (paintedCells d).

Definition setPaintedCells (s : gset string) (d : t) : t :=
  mk (active d) (projectId d) (memberId d) (startMonth d) (startValue d)
     (paintValue d) (hasMoved d) s.
End Drag.

Module ProjectList.

(** The state the handlers read and write: the [allocations] prop (held
    by [App]), the component's own state and the [dragState] ref. *)
Record State : Type := mkState {
  allocations : list Allocation.t;
  addedMembers : gmap string (list string);
  editingCell : option Cell.t;
  editValue : string;
  dragState : Drag.t
}.

Definition initial : State := mkState [] ∅ None "" Drag.initial.

Definition setAllocations (f : list Allocation.t → list Allocation.t)
    (st : State) : State :=
  mkState (f (allocations st)) (addedMembers st) (editingCell st)
          (editValue st) (dragState st).

Definition setAddedMembers
    (f : gmap string (list string) → gmap string (list string))
    (st : State) : State :=
  mkState (allocations st) (f (addedMembers st)) (editingCell st)
          (editValue st) (dragState st).

Definition setEditingCell (c : option Cell.t) (st : State) : State :=
  mkState (allocations st) (addedMembers st) c (editValue st)
          (dragState st).

Definition setEditValue (v : string) (st : State) : State :=
  mkState (allocations st) (addedMembers st) (editingCell st) v
          (dragState st).

Definition setDragState (d : Drag.t) (st : State) : State :=
  mkState (allocations st) (addedMembers st) (editingCell st)
          (editValue st) d.

(** [allocations.find (a => a.projectId === projectId &&
    a.memberId === memberId && a.month === month)]. *)
Definition findAllocation (allocations : list Allocation.t)
    (projectId memberId month : string) : option Allocation.t :=
  Js.find (λ a, Allocation.projectId a = projectId
                ∧ Allocation.memberId a = memberId
                ∧ Allocation.month a = month) allocations.

(** The value a cell shows and passes to its handlers:
    [alloc?.percentage || 0]. *)
Definition cellPercentage (allocations : list Allocation.t)
    (projectId memberId month : string) : Z :=
  match findAllocation allocations projectId memberId month with
  | Some alloc => Allocation.percentage alloc
  | None => 0
  end.

Definition handleAddMemberToProject (projectId memberId : string)
    (st : State) : State :=
  setAddedMembers
    (λ prev, <[projectId := default [] (prev !! projectId) ++ [memberId]]> prev)
    st.

Definition handleRemoveMemberFromProject (projectId memberId : string)
    (st : State) : State :=
  let st1 :=
    setAddedMembers
      (λ prev, <[projectId :=
                   filter (λ id, id ≠ memberId) (default [] (prev !! projectId))]> prev)
      st in
  let projectMemberAllocations :=
    filter (λ a, Allocation.projectId a = projectId
                 ∧ Allocation.memberId a = memberId) (allocations st) in
  setAllocations
    (App.commit ((λ a, App.onDeleteAllocation (Allocation.id a))
                   <$> projectMemberAllocations))
    st1.

(** [updateAllocationValue]: the calls it makes, given the [allocations]
    of the current render and the identifier [crypto.randomUUID ()]
    returns if it is called. *)
Definition updateAllocationValue (allocations : list Allocation.t)
    (uuid : string) (projectId memberId month : string) (newValue : Z)
    : list App.call :=
  let existingAllocation :=
    findAllocation allocations projectId memberId month in
  if 0 <? newValue then
    match existingAllocation with
    | Some existing =>
        if decide (Allocation.percentage existing ≠ newValue)
        then [App.onUpdateAllocation
                (Allocation.withPercentage existing newValue)]
        else []
    | None =>
        [App.onAddAllocation
           (Allocation.mk uuid projectId memberId month newValue)]
    end
  else
    match existingAllocation with
    | Some existing => [App.onDeleteAllocation (Allocation.id existing)]
    | None => []
    end.

Definition handleCellMouseDown (projectId memberId month : string)
    (currentVal : Z) (st : State) : State :=
  let paintValue := if decide (currentVal = 0) then 100 else 0 in
  setDragState
    (Drag.mk true projectId memberId month currentVal paintValue false ∅)
    st.

(** The key of a cell in [paintedCells]:
    [`${projectId}-${memberId}-${month}`]. *)
Definition cellKey (projectId memberId month : string) : string :=
  projectId +:+ "-" +:+ memberId +:+ "-" +:+ month.

(** [uuid1] and [uuid2] are the identifiers drawn by the first and the
    second call of [updateAllocationValue]. *)
Definition handleCellMouseEnter (uuid1 uuid2 : string)
    (projectId memberId month : string) (st : State) : State :=
  let d := dragState st in
  if negb (Drag.active d) then st
  else if decide (Drag.projectId d ≠ projectId ∨ Drag.memberId d ≠ memberId)
  then st
  else
    let '(d1, queue1) :=
      if decide (Drag.hasMoved d = false ∧ month ≠ Drag.startMonth d) then
        let d' := Drag.setHasMoved true d in
        let startKey := cellKey projectId memberId (Drag.startMonth d') in
        if decide (startKey ∉ Drag.paintedCells d') then
          (Drag.setPaintedCells ({[ startKey ]} ∪ Drag.paintedCells d') d',
           updateAllocationValue (allocations st) uuid1 projectId memberId
             (Drag.startMonth d') (Drag.paintValue d'))
        else (d', [])
      else (d, []) in
    let '(d2, queue2) :=
      if Drag.hasMoved d1 then
        let currentKey := cellKey projectId memberId month in
        if decide (currentKey ∉ Drag.paintedCells d1) then
          (Drag.setPaintedCells ({[ currentKey ]} ∪ Drag.paintedCells d1) d1,
           updateAllocationValue (allocations st) uuid2 projectId memberId
             month (Drag.paintValue d1))
        else (d1, [])
      else (d1, []) in
    setAllocations (App.commit (queue1 ++ queue2)) (setDragState d2 st).

(** [uuid]: the identifier drawn if the click adds a record. *)
Definition handleCellMouseUp (uuid : string)
    (projectId memberId month : string) (currentVal : Z) (st : State)
    : State :=
  let d := dragState st in
  if negb (Drag.active d) then st
  else
    let queue :=
      if negb (Drag.hasMoved d) then
        let nextVal :=
          if decide (currentVal = 0) then 100
          else if decide (currentVal = 100) then 50
          else 0 in
        updateAllocationValue (allocations st) uuid projectId memberId
          month nextVal
      else [] in
    setAllocations (App.commit queue)
      (setDragState
         (Drag.setPaintedCells ∅ (Drag.setActive false d)) st).

(** The [mouseup] listener on [window]. *)
Definition handleGlobalMouseUp (st : State) : State :=
  let d := dragState st in
  if Drag.active d
  then setDragState (Drag.setPaintedCells ∅ (Drag.setActive false d)) st
  else st.

Definition startEditing (projectId memberId month : string)
    (currentVal : Z) (st : State) : State :=
  setDragState (Drag.setActive false (dragState st))
    (setEditValue (if 0 <? currentVal then Js.toString currentVal else "")
       (setEditingCell (Some (Cell.mk projectId memberId month)) st)).

(** [uuid]: the identifier drawn if the entry adds a record. *)
Definition saveEditing (uuid : string) (st : State) : State :=
  match editingCell st with
  | None => st
  | Some (Cell.mk projectId memberId month) =>
      let newValue := Js.parseInt (editValue st) in
      let queue :=
        match newValue with (* [if (!isNaN (newValue))] *)
        | Some n =>
            updateAllocationValue (allocations st) uuid projectId memberId
              month n
        | None => []
        end in
      setEditValue ""
        (setEditingCell None (setAllocations (App.commit queue) st))
  end.

Section Totals.
Context {F : Type} `{Arith F}.

(** The reducer of [calculateProjectTotal]. *)
Definition addCost (members : list TeamMember.t) (roles : list (Role.t F))
    (sum : F) (alloc : Allocation.t) : F :=
  let member :=
    Js.find (λ m, TeamMember.id m = Allocation.memberId alloc) members in
  (* [member?.roleId] is [undefined] when [member] is *)
  let role :=
    Js.find (λ r, Some (Role.id r) = TeamMember.roleId <$> member) roles in
  match member, role with
  | Some _, Some role =>
      let hours :=
        mul (of_Z (Utils.getBusinessHoursInMonth (Allocation.month alloc)))
            (div (of_Z (Allocation.percentage alloc)) (of_Z 100)) in
      add sum (mul hours (Role.defaultHourlyRate role))
  | _, _ => sum
  end.

Definition calculateProjectTotal (allocations : list Allocation.t)
    (members : list TeamMember.t) (roles : list (Role.t F))
    (projId : string) : F :=
  foldl (addCost members roles) (of_Z 0)
    (filter (λ a, Allocation.projectId a = projId) allocations).
End Totals.

(** *** Events

    The handlers as the rendered grid wires them: a cell passes its shown
    percentage; a release over a cell runs the cell's [onMouseUp] and then
    the listener on [window]. *)
Inductive Event : Type :=
  | MouseDown (c : Cell.t)
  | MouseEnter (c : Cell.t)
  | MouseUp (c : Cell.t)
  | MouseUpOutside
  | DoubleClick (c : Cell.t)
  | Change (text : string)
  | Commit
  | AddMember (projectId memberId : string)
  | RemoveMember (projectId memberId : string).

(** [uuid1] and [uuid2]: what the calls of [crypto.randomUUID ()] return
    while the event is handled. *)
Definition dispatch (uuid1 uuid2 : string) (e : Event) (st : State)
    : State :=
  match e with
  | MouseDown (Cell.mk p m mo) =>
      handleCellMouseDown p m mo (cellPercentage (allocations st) p m mo) st
  | MouseEnter (Cell.mk p m mo) => handleCellMouseEnter uuid1 uuid2 p m mo st
  | MouseUp (Cell.mk p m mo) =>
      handleGlobalMouseUp
        (handleCellMouseUp uuid1 p m mo
           (cellPercentage (allocations st) p m mo) st)
  | MouseUpOutside => handleGlobalMouseUp st
  | DoubleClick (Cell.mk p m mo) =>
      startEditing p m mo (cellPercentage (allocations st) p m mo) st
  | Change text => setEditValue text st
  | Commit => saveEditing uuid1 st
  | AddMember p m => handleAddMemberToProject p m st
  | RemoveMember p m => handleRemoveMemberFromProject p m st
  end.

(** An event with the identifiers drawn while it is handled. *)
Definition Input : Type := Event * (string * string).

Definition step (st : State) (i : Input) : State :=
  dispatch (i.2.1) (i.2.2) (i.1) st.

Definition run (inputs : list Input) (st : State) : State :=
  foldl step st inputs.

End ProjectList.

(** ** [components/Dashboard.tsx] *)

Module Dashboard.
Section Financial.
Context {F : Type} `{Arith F}.
(** [getMonthName], a locale-dependent label. *)
Variable getMonthName : string → string.

Record MonthlyFinancial : Type := mkMonthly {
  month : string;
  cost : F;
  revenue : F;
  hours : Z
}.

(** The body of the [forEach] that accumulates [totalCost]. *)
Definition addCost (members : list TeamMember.t) (roles : list (Role.t F))
    (hoursInMonth : Z) (totalCost : F) (alloc : Allocation.t) : F :=
  let member :=
    Js.find (λ m, TeamMember.id m = Allocation.memberId alloc) members in
  let role :=
    match member with
    | Some m => Js.find (λ r, Role.id r = TeamMember.roleId m) roles
    | None => None
    end in
  match member, role with
  | Some _, Some role =>
      let hours :=
        mul (of_Z hoursInMonth)
            (div (of_Z (Allocation.percentage alloc)) (of_Z 100)) in
      add totalCost (mul hours (Role.defaultHourlyRate role))
  | _, _ => totalCost
  end.

Definition monthCost (allocations : list Allocation.t)
    (members : list TeamMember.t) (roles : list (Role.t F))
    (month : string) : F :=
  foldl (addCost members roles (Utils.getBusinessHoursInMonth month))
    (of_Z 0)
    (filter (λ a, Allocation.month a = month) allocations).

(** The literal [1.3] is the quotient of 13 by 10. *)
Definition financialData (allocations : list Allocation.t)
    (members : list TeamMember.t) (roles : list (Role.t F))
    : list MonthlyFinancial :=
  let months := Js.sortedDistinct (Allocation.month <$> allocations) in
  (λ month,
     let totalCost := monthCost allocations members roles month in
     mkMonthly (getMonthName month) totalCost
       (mul totalCost (div (of_Z 13) (of_Z 10)))
       (Utils.getBusinessHoursInMonth month))
    <$> months.
End Financial.
End Dashboard.

(** ** [services/geminiService.ts]

    The summary that [analyzeResourceForecast] computes before it builds the
    prompt; the prompt text and the call of the language model are outside
    the embedding. *)

Module GeminiService.

Record AnalysisContext {F : Type} : Type := mkContext {
  projects : list Project.t;
  members : list TeamMember.t;
  roles : list (Role.t F);
  allocations : list Allocation.t
}.
Arguments AnalysisContext : clear implicits.

Section Summary.
Context {F : Type}.

Definition uniqueMonths (context : AnalysisContext F) : list string :=
  Js.sortedDistinct (Allocation.month <$> allocations context).

(** [context.allocations.filter (...).reduce ((sum, a) =>
    sum + a.percentage, 0)]. *)
Definition totalAlloc (context : AnalysisContext F)
    (member : TeamMember.t) (month : string) : Z :=
  foldl (λ sum a, sum + Allocation.percentage a) 0
    (filter (λ a, Allocation.memberId a = TeamMember.id member
                  ∧ Allocation.month a = month)
       (allocations context)).

(** [summary.overAllocations] after the two nested [forEach]. *)
Definition overAllocations (context : AnalysisContext F) : list string :=
  member ← members context;
  month ← uniqueMonths context;
  if 100 <? totalAlloc context member month
  then [TeamMember.name member +:+ " is at "
          +:+ Js.toString (totalAlloc context member month)
          +:+ "% in " +:+ month]
  else [].
End Summary.

End GeminiService.

(** ** Reference definitions, written from the specification *)

Module Spec.

(** The click cycle 0, 100, 50, 0, ... *)
Definition clickCycle (v : Z) : Z :=
  if decide (v = 0) then 100 else if decide (v = 100) then 50 else 0.

(** The paint value of a drag that starts on a cell of value [v]. *)
Definition paint (v : Z) : Z := if decide (v = 0) then 100 else 0.

(** The Gregorian calendar. *)
Definition isLeapYear (y : Z) : bool :=
  (y mod 4 =? 0) && (negb (y mod 100 =? 0) || (y mod 400 =? 0)).

Definition daysInMonth (y m : Z) : Z :=
  match m with
  | 1 | 3 | 5 | 7 | 8 | 10 | 12 => 31
  | 4 | 6 | 9 | 11 => 30
  | 2 => if isLeapYear y then 29 else 28
  | _ => 0
  end.

(** Zeller's congruence: 0 is Saturday, 1 is Sunday, 2 is Monday, ...,
    6 is Friday. *)
Definition zeller (y m d : Z) : Z :=
  let y' := if m <? 3 then y - 1 else y in
  let m' := if m <? 3 then m + 12 else m in
  let k := y' mod 100 in
  let j := y' / 100 in
  (d + (13 * (m' + 1)) / 5 + k + k / 4 + j / 4 + 5 * j) mod 7.

Definition isWeekday (y m d : Z) : bool := 2 <=? zeller y m d.

(** Whether the loop of [getBusinessDaysInMonth] keeps a day: it is
    neither a Sunday (0) nor a Saturday (6). *)
Definition kept (d : Z) : Prop :=
  JsDate.WeekDay d ≠ 0 ∧ JsDate.WeekDay d ≠ 6.

(** The number of days of the month from Monday to Friday. *)
Definition weekdaysInMonth (y m : Z) : Z :=
  Z.of_nat (length (filter (λ d, isWeekday y m d = true)
                      (seqZ 1 (daysInMonth y m)))).

(** The allocation of a cell, if any: the store is keyed by the triple. *)
Definition onCell (c : Cell.t) (a : Allocation.t) : Prop :=
  Allocation.projectId a = Cell.projectId c
  ∧ Allocation.memberId a = Cell.memberId c
  ∧ Allocation.month a = Cell.month c.

Definition onRow (projectId memberId : string) (a : Allocation.t) : Prop :=
  Allocation.projectId a = projectId ∧ Allocation.memberId a = memberId.

(** The sum of a person's percentages in a month. *)
Definition personMonthTotal (allocations : list Allocation.t)
    (memberId month : string) : Z :=
  foldr Z.add 0
    (Allocation.percentage <$>
       filter (λ a, Allocation.memberId a = memberId
                    ∧ Allocation.month a = month) allocations).

(** The cost of an allocation whose member and role resolve: hours of the
    month, times the fraction of the month, times the hourly rate. *)
Definition contribution {F : Type} `{Arith F} (members : list TeamMember.t)
    (roles : list (Role.t F)) (a : Allocation.t) : option F :=
  member ← Js.find (λ m, TeamMember.id m = Allocation.memberId a) members;
  role ← Js.find (λ r, Role.id r = TeamMember.roleId member) roles;
  Some (mul (mul (of_Z (Utils.getBusinessHoursInMonth (Allocation.month a)))
                 (div (of_Z (Allocation.percentage a)) (of_Z 100)))
            (Role.defaultHourlyRate role)).


(** The over-allocation findings: for every member and every month of the
    allocation set, the total of the pair if it exceeds 100. *)
Definition overAllocated {F : Type}
    (context : GeminiService.AnalysisContext F)
    : list (TeamMember.t * string * Z) :=
  member ← GeminiService.members context;
  month ← Js.sortedDistinct
             (Allocation.month <$> GeminiService.allocations context);
  let total :=
    personMonthTotal (GeminiService.allocations context)
      (TeamMember.id member) month in
  if 100 <? total then [(member, month, total)] else [].

(** The invariants of the store: identifiers are distinct, and so are the
    (project, member, month) keys. *)
Definition uniqueIds (allocations : list Allocation.t) : Prop :=
  NoDup (Allocation.id <$> allocations).

Definition keyOf (a : Allocation.t) : Cell.t :=
  Cell.mk (Allocation.projectId a) (Allocation.memberId a)
          (Allocation.month a).

Definition uniqueKeys (allocations : list Allocation.t) : Prop :=
  NoDup (keyOf <$> allocations).

Definition wellFormed (allocations : list Allocation.t) : Prop :=
  uniqueIds allocations ∧ uniqueKeys allocations.

(** The store's [upsert], as the grid performs it: the calls of
    [updateAllocationValue], committed. *)
Definition upsert (allocations : list Allocation.t) (uuid : string)
    (c : Cell.t) (percentage : Z) : list Allocation.t :=
  App.commit
    (ProjectList.updateAllocationValue allocations uuid (Cell.projectId c)
       (Cell.memberId c) (Cell.month c) percentage)
    allocations.

(** The identifiers an input can consume. *)
Definition drawsOf (i : ProjectList.Input) : list string :=
  match i.1 with
  | ProjectList.MouseEnter _ => [i.2.1; i.2.2]
  | ProjectList.MouseUp _ | ProjectList.Commit => [i.2.1]
  | _ => []
  end.

Definition draws (inputs : list ProjectList.Input) : list string :=
  inputs ≫= drawsOf.

(** [crypto.randomUUID ()] returns identifiers that are new: distinct from
    one another and from those in the store. *)
Definition fresh (allocations : list Allocation.t)
    (inputs : list ProjectList.Input) : Prop :=
  NoDup ((Allocation.id <$> allocations) ++ draws inputs).

(** What one event can do to the store. *)
Inductive storeStep (us : list string) (s : list Allocation.t)
    : list Allocation.t → Prop :=
  | step_skip : storeStep us s s
  | step_write u c v : u ∈ us → storeStep us s (upsert s u c v)
  | step_write2 u1 u2 c1 c2 v1 v2 :
      us = [u1; u2] →
      storeStep us s (upsert (upsert s u1 c1 v1) u2 c2 v2)
  | step_remove (P : Allocation.t → Prop) `{∀ a, Decision (P a)} :
      storeStep us s (filter P s).

(** The calls that write a positive percentage, or delete. *)
Definition positiveCall (c : App.call) : Prop :=
  match c with
  | App.onAddAllocation a | App.onUpdateAllocation a =>
      0 < Allocation.percentage a
  | App.onDeleteAllocation _ => True
  end.

(** A drag gesture: the pointer goes down on a cell and enters cells. *)
Definition enters (moves : list (Cell.t * (string * string)))
    : list ProjectList.Input :=
  (λ x, (ProjectList.MouseEnter x.1, x.2)) <$> moves.

Definition gesture (start : Cell.t)
    (moves : list (Cell.t * (string * string))) : list ProjectList.Input :=
  (ProjectList.MouseDown start, ("", "")) :: enters moves.

(** The state of a gesture that started on [start] in store [s0], after
    the pointer has entered the cells [entered]: the drag state is that of
    the gesture; before any movement in the row nothing is painted or
    written; after it the start cell and the entered cells of the row are
    painted; the painted cells show the paint value; the other rows are as
    they were. *)
Definition gestureInv (s0 : list Allocation.t) (start : Cell.t)
    (entered : list Cell.t) (st : ProjectList.State) : Prop :=
  let d := ProjectList.dragState st in
  let s := ProjectList.allocations st in
  let p := Cell.projectId start in
  let m := Cell.memberId start in
  let mo0 := Cell.month start in
  let P := paint (ProjectList.cellPercentage s0 p m mo0) in
  (Drag.active d = true ∧ Drag.projectId d = p ∧ Drag.memberId d = m
   ∧ Drag.startMonth d = mo0 ∧ Drag.paintValue d = P)
  ∧ (Drag.hasMoved d = false →
     Drag.paintedCells d = ∅ ∧ s = s0
     ∧ ∀ mo, Cell.mk p m mo ∈ entered → mo = mo0)
  ∧ (Drag.hasMoved d = true →
     (∃ mo, Cell.mk p m mo ∈ entered ∧ mo ≠ mo0)
     ∧ ∀ mo, mo = mo0 ∨ Cell.mk p m mo ∈ entered →
             ProjectList.cellKey p m mo ∈ Drag.paintedCells d)
  ∧ (∀ mo, ProjectList.cellKey p m mo ∈ Drag.paintedCells d →
           ProjectList.cellPercentage s p m mo = P)
  ∧ filter (λ a, ¬ onRow p m a) s = filter (λ a, ¬ onRow p m a) s0.

(** A click: the pointer goes down and up on a cell. *)
Definition click (c : Cell.t) (uuid : string) : list ProjectList.Input :=
  [(ProjectList.MouseDown c, ("", "")); (ProjectList.MouseUp c, (uuid, ""))].

Definition clicks (c : Cell.t) (uuids : list string)
    : list ProjectList.Input :=
  uuids ≫= click c.

End Spec.

(** ** A store and states to run the handlers on *)

Module Example.

Definition allocations : list Allocation.t :=
  [ Allocation.mk "a1" "1" "1" "2025-01" 100;
    Allocation.mk "a2" "1" "2" "2025-01" 50;
    Allocation.mk "a3" "2" "2" "2025-01" 80;
    Allocation.mk "a4" "1" "2" "2025-02" 50 ].

Definition state : ProjectList.State :=
  ProjectList.mkState allocations ∅ None "" Drag.initial.

(** The cell of member 2 on project 1 in January 2025, open for entry
    with [text] typed into it. *)
Definition editing (text : string) : ProjectList.State :=
  ProjectList.mkState allocations ∅ (Some (Cell.mk "1" "2" "2025-01")) text
    Drag.initial.

(** The team of the demonstration data; the role of member 4 has been
    deleted, and member 5 has left the team. *)
Definition roles : list (Role.t Q) :=
  [ Role.mk Q "1" "Senior Developer" (inject_Z 150);
    Role.mk Q "3" "Project Manager" (inject_Z 160) ].

Definition members : list TeamMember.t :=
  [ TeamMember.mk "1" "Sarah Jenkins" "1" None MemberType.FULL_TIME;
    TeamMember.mk "2" "Mike Ross" "3" None MemberType.CONTRACTOR;
    TeamMember.mk "4" "David Kim" "9" None MemberType.CONSULTANT ].

Definition staffing : list Allocation.t :=
  [ Allocation.mk "a1" "1" "1" "2024-04" 100;
    Allocation.mk "a2" "1" "2" "2024-04" 50;
    Allocation.mk "a3" "1" "4" "2024-04" 80;
    Allocation.mk "a4" "1" "5" "2024-02" 100;
    Allocation.mk "a5" "2" "2" "2024-04" 100;
    Allocation.mk "a6" "2" "2" "2024-02" 30 ].

Definition context : GeminiService.AnalysisContext Q :=
  GeminiService.mkContext Q [] members roles staffing.


(** A drag along the row of member 1 on project 2, which is empty: down
    on January, over February and March, with a detour over the row
    below. *)
Definition dragStart : Cell.t := Cell.mk "2" "1" "2025-01".

Definition dragMoves : list (Cell.t * (string * string)) :=
  [ (Cell.mk "2" "1" "2025-02", ("u1", "u2"));
    (Cell.mk "2" "2" "2025-02", ("u3", "u4"));
    (Cell.mk "2" "1" "2025-03", ("u5", "u6"));
    (Cell.mk "2" "1" "2025-02", ("u7", "u8")) ].

(** The pointer goes down on the cell of member 1 on project 1, moves
    straight down to the cell of member 2 and is released there. *)
Definition releaseBelow : list ProjectList.Input :=
  [ (ProjectList.MouseDown (Cell.mk "1" "1" "2025-01"), ("", ""));
    (ProjectList.MouseEnter (Cell.mk "1" "2" "2025-01"), ("u1", "u2"));
    (ProjectList.MouseUp (Cell.mk "1" "2" "2025-01"), ("u3", "")) ].

End Example.

(** ** [App.tsx]: the team, the projects and the demonstration data *)

Module AppData.

Section Roles.
Context {F : Type} `{Arith F}.

Definition INITIAL_ROLES : list (Role.t F) :=
  [ Role.mk F "1" "Senior Developer" (of_Z 150);
    Role.mk F "2" "UI/UX Designer" (of_Z 135);
    Role.mk F "3" "Project Manager" (of_Z 160);
    Role.mk F "4" "QA Engineer" (of_Z 110) ].

Definition addRole (role : Role.t F) (prev : list (Role.t F))
    : list (Role.t F) :=
  prev ++ [role].
End Roles.

Definition INITIAL_MEMBERS : list TeamMember.t :=
  [ TeamMember.mk "1" "Sarah Jenkins" "1"
      (Some "https://picsum.photos/seed/sarah/100/100") MemberType.FULL_TIME;
    TeamMember.mk "2" "Mike Ross" "3"
      (Some "https://picsum.photos/seed/mike/100/100") MemberType.CONTRACTOR;
    TeamMember.mk "3" "Jessica Lee" "2"
      (Some "https://picsum.photos/seed/jess/100/100") MemberType.FULL_TIME;
    TeamMember.mk "4" "David Kim" "1"
      (Some "https://picsum.photos/seed/david/100/100") MemberType.CONSULTANT ].

Definition INITIAL_PROJECTS : list Project.t :=
  [ Project.mk "1" "E-Commerce Revamp" "Acme Corp" Status.Active
      "bg-indigo-500";
    Project.mk "2" "Mobile App MVP" "Startup Inc" Status.Planning
      "bg-emerald-500" ].

Definition addMember (member : TeamMember.t) (prev : list TeamMember.t)
    : list TeamMember.t :=
  prev ++ [member].

Definition addProject (project : Project.t) (prev : list Project.t)
    : list Project.t :=
  prev ++ [project].

(** One [months.forEach] of the effect that fills the store: two records
    are pushed for every month.  [uuid k] is what call number [k] of
    [crypto.randomUUID ()] returns. *)
Fixpoint pushPairs (uuid : nat → string) (k : nat) (projectId : string)
    (memberId1 : string) (percentage1 : Z)
    (memberId2 : string) (percentage2 : Z)
    (months : list string) : list Allocation.t :=
  match months with
  | [] => []
  | m :: months' =>
      Allocation.mk (uuid k) projectId memberId1 m percentage1
      :: Allocation.mk (uuid (S k)) projectId memberId2 m percentage2
      :: pushPairs uuid (S (S k)) projectId memberId1 percentage1
           memberId2 percentage2 months'
  end.

Definition demoAllocations (uuid : nat → string) (months : list string)
    : list Allocation.t :=
  pushPairs uuid 0 "1" "1" 100 "2" 50 months
  ++ pushPairs uuid (2 * length months) "2" "3" 100 "4" 80 months.

(** The effect that runs after the first render, on the date [today]. *)
Definition initAllocations (uuid : nat → string) (today : JsDate.t)
    (allocations : list Allocation.t) : list Allocation.t :=
  if decide (length allocations = 0%nat)
  then demoAllocations uuid (Utils.getNextMonths today 3)
  else allocations.

End AppData.

(** ** [components/ProjectList.tsx]: the rows of a project *)

Module ProjectRows.

(** [new Set (allocations.filter (...).map (a => a.memberId))], in the
    order of iteration. *)
Definition allocatedMemberIds (allocations : list Allocation.t)
    (projectId : string) : list string :=
  Js.distinct ∅
    (Allocation.memberId <$>
       filter (λ a, Allocation.projectId a = projectId) allocations).

(** [addedMembers[project.id] || []]. *)
Definition manualMemberIds (addedMembers : gmap string (list string))
    (projectId : string) : list string :=
  default [] (addedMembers !! projectId).

Definition allVisibleMemberIds (allocations : list Allocation.t)
    (addedMembers : gmap string (list string)) (projectId : string)
    : list string :=
  Js.distinct ∅
    (allocatedMemberIds allocations projectId
     ++ manualMemberIds addedMembers projectId).

Definition visibleMembers (members : list TeamMember.t)
    (allocations : list Allocation.t)
    (addedMembers : gmap string (list string)) (projectId : string)
    : list TeamMember.t :=
  filter (λ m, TeamMember.id m
               ∈ allVisibleMemberIds allocations addedMembers projectId)
    members.

(** The members that the menu of a project offers:
    [members.filter (m => !visibleMembers.find (vm => vm.id === m.id))]. *)
Definition addableMembers (members : list TeamMember.t)
    (allocations : list Allocation.t)
    (addedMembers : gmap string (list string)) (projectId : string)
    : list TeamMember.t :=
  filter
    (λ m, Js.find (λ vm, TeamMember.id vm = TeamMember.id m)
            (visibleMembers members allocations addedMembers projectId)
          = None)
    members.

(** The rows of a project in a state of the grid. *)
Definition rows (members : list TeamMember.t) (st : ProjectList.State)
    (projectId : string) : list TeamMember.t :=
  visibleMembers members (ProjectList.allocations st)
    (ProjectList.addedMembers st) projectId.

End ProjectRows.

(** ** [components/TeamManager.tsx]: the capacity plan *)

Module TeamManager.

#[global] Instance MemberType_eq_dec : EqDecision MemberType.t.
Proof. solve_decision. Defined.

Definition toggleMemberExpand (memberId : string)
    (expandedMembers : gset string) : gset string :=
  if decide (memberId ∈ expandedMembers)
  then expandedMembers ∖ {[ memberId ]}
  else {[ memberId ]} ∪ expandedMembers.

(** [memberTypeFilter] is [None] for ['ALL']. *)
Definition filteredMembers (memberTypeFilter : option MemberType.t)
    (members : list TeamMember.t) : list TeamMember.t :=
  filter (λ m, memberTypeFilter = None
               ∨ Some (TeamMember.type m) = memberTypeFilter) members.

(** [totalPct] of a month in the footer. *)
Definition totalPct (allocations : list Allocation.t)
    (filteredMembers : list TeamMember.t) (m : string) : Z :=
  foldl (λ sum a, sum + Allocation.percentage a) 0
    (filter (λ a, Allocation.month a = m
                  ∧ Exists (λ fm, TeamMember.id fm = Allocation.memberId a)
                      filteredMembers)
       allocations).

Section FTE.
Context {F : Type} `{Arith F}.

Definition monthlyFTEs (allocations : list Allocation.t)
    (filteredMembers : list TeamMember.t) (months : list string) : list F :=
  (λ m, div (of_Z (totalPct allocations filteredMembers m)) (of_Z 100))
    <$> months.
End FTE.

Definition memberMonthlyTotals (allocations : list Allocation.t)
    (member : TeamMember.t) (months : list string) : list Z :=
  (λ m, foldl (λ sum a, sum + Allocation.percentage a) 0
          (filter (λ a, Allocation.memberId a = TeamMember.id member
                        ∧ Allocation.month a = m) allocations))
    <$> months.

Definition memberProjectIds (allocations : list Allocation.t)
    (member : TeamMember.t) (months : list string) : list string :=
  Js.distinct ∅
    (Allocation.projectId <$>
       filter (λ a, Allocation.memberId a = TeamMember.id member
                    ∧ Allocation.month a ∈ months) allocations).

(** The colour of the badge of a total. *)
Inductive Badge : Type := Slate | Emerald | Red | Amber.

Definition badgeClass (total : Z) : Badge :=
  if decide (total = 100) then Emerald
  else if 100 <? total then Red
  else if 0 <? total then Amber
  else Slate.

(** A cell of a project row of the breakdown: the percentage it shows,
    [None] for the dash. *)
Definition breakdownCell (allocations : list Allocation.t)
    (member : TeamMember.t) (projectId m : string) : option Z :=
  match Js.find (λ a, Allocation.memberId a = TeamMember.id member
                      ∧ Allocation.projectId a = projectId
                      ∧ Allocation.month a = m) allocations with
  | Some alloc =>
      if 0 <? Allocation.percentage alloc
      then Some (Allocation.percentage alloc) else None
  | None => None
  end.

(** A cell of the bench row: [remaining], [None] for the dash. *)
Definition benchCell (total : Z) : option Z :=
  let remaining := 100 - total in
  if 0 <? remaining then Some remaining else None.

End TeamManager.

(** ** [components/Dashboard.tsx]: the total of the forecast *)

Module Forecast.
Section Total.
Context {F : Type} `{Arith F}.

Definition totalForecastCost
    (financialData : list (Dashboard.MonthlyFinancial (F := F))) : F :=
  foldl (λ acc curr, add acc (Dashboard.cost curr)) (of_Z 0) financialData.
End Total.
End Forecast.

(** ** A first render to run the effect of [App] on *)

Module Demo.

(** 15 November 2024. *)
Definition today : Z := JsDate.MakeDay 2024 10 15.

Definition uuid (k : nat) : string := "id" +:+ Js.toString (Z.of_nat k).

Definition state : ProjectList.State :=
  ProjectList.mkState (AppData.initAllocations uuid (Some today) []) ∅ None
    "" Drag.initial.

(** A click on the empty cell of member 1 on project 2 in January 2025. *)
Definition inputs : list ProjectList.Input :=
  Spec.click (Cell.mk "2" "1" "2025-01") "click".

End Demo.

(** ** The numbers of the code

    The embedding holds a percentage as an integer; the code holds it as a
    [Number], a double.  The two agree on the safe integers: a safe integer
    is held as it is, [toString] prints all its digits and [parseInt] reads
    them back, and a sum of numbers that are not negative is exact, in
    whatever order it is taken, if it is a safe integer. *)

Module Number.

Definition MAX_SAFE_INTEGER : Z := 2 ^ 53 - 1.

Definition isSafeInteger (z : Z) : Prop :=
  - MAX_SAFE_INTEGER ≤ z ≤ MAX_SAFE_INTEGER.

End Number.

(** ** What the calls of an event write *)

Module Inv.

(** The percentages of a store are not negative and add up to a safe
    integer: every total of the store is then computed exactly. *)
Definition safe (allocations : list Allocation.t) : Prop :=
  Forall (λ a, 0 ≤ Allocation.percentage a) allocations
  ∧ Number.isSafeInteger
      (foldr Z.add 0 (Allocation.percentage <$> allocations)).

(** The records that a call puts into the store satisfy [Q]. *)
Definition writes (Q : Allocation.t → Prop) (c : App.call) : Prop :=
  match c with
  | App.onAddAllocation a | App.onUpdateAllocation a => Q a
  | App.onDeleteAllocation _ => True
  end.

(** The paint value of a drag is 0 or 100. *)
Definition paints (st : ProjectList.State) : Prop :=
  Drag.paintValue (ProjectList.dragState st) = 0
  ∨ Drag.paintValue (ProjectList.dragState st) = 100.

(** The events of the pointer and of the menus: all but the keyboard's. *)
Definition pointer (i : ProjectList.Input) : Prop :=
  match i.1 with
  | ProjectList.Change _ | ProjectList.Commit => False
  | _ => True
  end.

End Inv.

(** ** The forms of [ProjectList.tsx] and [TeamManager.tsx] *)

Module Forms.

(** The state of the form for a new project. *)
Record ProjectForm : Type := mkProjectForm {
  isCreatingProject : bool;
  newProjectName : string;
  newProjectClient : string
}.

(** [handleCreateProject]: the form and the projects after the form is
    submitted; [uuid] is the identifier drawn for the project. *)
Definition handleCreateProject (uuid : string) (form : ProjectForm)
    (projects : list Project.t) : ProjectForm * list Project.t :=
  if decide (newProjectName form = "") then (form, projects)
  else
    let newProject :=
      Project.mk uuid (newProjectName form)
        (if decide (newProjectClient form = "") then "Internal"
         else newProjectClient form)
        Status.Planning "bg-indigo-500" in
    (mkProjectForm false "" "", AppData.addProject newProject projects).

(** The state of the form for a new member. *)
Record MemberForm : Type := mkMemberForm {
  newMemberName : string;
  newMemberRoleId : string;
  newMemberType : MemberType.t
}.

Definition handleAddMember (uuid : string) (form : MemberForm)
    (members : list TeamMember.t) : MemberForm * list TeamMember.t :=
  if decide (newMemberName form = "" ∨ newMemberRoleId form = "")
  then (form, members)
  else
    (mkMemberForm "" "" MemberType.FULL_TIME,
     AppData.addMember
       (TeamMember.mk uuid (newMemberName form) (newMemberRoleId form)
          (Some ("https://picsum.photos/seed/" +:+ newMemberName form
                 +:+ "/100/100"))
          (newMemberType form))
       members).

(** What is done to the team in the directory: a form is submitted, with
    the identifier drawn for the member, or a member is deleted. *)
Inductive TeamEvent : Type :=
  | SubmitMember (form : MemberForm) (uuid : string)
  | DeleteMember (id : string).

Definition teamStep (members : list TeamMember.t) (e : TeamEvent)
    : list TeamMember.t :=
  match e with
  | SubmitMember form uuid => (handleAddMember uuid form members).2
  | DeleteMember id => App.deleteMember id members
  end.

Definition uuidOf (e : TeamEvent) : list string :=
  match e with
  | SubmitMember _ uuid => [uuid]
  | DeleteMember _ => []
  end.

End Forms.

(** * Properties *)

(** ** [Array.prototype.find] *)

Section Find.
Context {A : Type} (P : A → Prop) `{∀ x, Decision (P x)}.

Lemma find_Some (l : list A) (x : A) :
  Js.find P l = Some x → x ∈ l ∧ P x.
Proof.
  induction l as [|y l IH]; simpl; [done|].
  destruct (decide (P y)) as [Hy|Hy].
  - intros [= <-]. split; [left | done].
  - intros Hf. destruct (IH Hf) as [Hin HP]. split; [by right | done].
Qed.

Lemma find_None (l : list A) :
  Js.find P l = None ↔ ∀ x, x ∈ l → ¬ P x.
Proof.
  induction l as [|y l IH]; simpl.
  - split; [|done]. intros _ x Hx. by apply not_elem_of_nil in Hx.
  - destruct (decide (P y)) as [Hy|Hy].
    + split; [done|]. intros Hall. destruct (Hall y); [left | done].
    + rewrite IH. split.
      * intros Hall x Hx. apply elem_of_cons in Hx as [->|Hx]; auto.
      * intros Hall x Hx. apply Hall. by right.
Qed.

Lemma find_is_Some (l : list A) (x : A) :
  x ∈ l → P x → is_Some (Js.find P l).
Proof.
  intros Hin HP. destruct (Js.find P l) eqn:E; [by eexists|].
  rewrite find_None in E. by destruct (E x).
Qed.

Lemma find_app_None (l : list A) (x : A) :
  Js.find P l = None → P x → Js.find P (l ++ [x]) = Some x.
Proof.
  induction l as [|y l IH]; simpl; intros Hf HP.
  - by rewrite decide_True.
  - destruct (decide (P y)); [done | auto].
Qed.

Lemma find_filter_None (Q : A → Prop) `{∀ x, Decision (Q x)} (l : list A) :
  (∀ x, x ∈ l → P x → ¬ Q x) → Js.find P (filter Q l) = None.
Proof.
  intros Hall. apply find_None. intros x Hx HP.
  apply list_elem_of_filter in Hx as [HQ Hin]. by apply (Hall x).
Qed.

Lemma find_filter_frame (Q : A → Prop) `{∀ x, Decision (Q x)} (l : list A) :
  (∀ x, x ∈ l → P x → Q x) → Js.find P (filter Q l) = Js.find P l.
Proof.
  induction l as [|y l IH]; intros Hall; [done|].
  assert (Htl : ∀ x, x ∈ l → P x → Q x) by (intros x Hx; apply Hall; by right).
  rewrite filter_cons. simpl. destruct (decide (P y)) as [Hy|Hy].
  - rewrite decide_True by (apply Hall; [left | done]).
    simpl. by rewrite decide_True.
  - destruct (decide (Q y)); simpl; [rewrite decide_False by done|]; auto.
Qed.

Lemma find_fmap_frame (f : A → A) (l : list A) :
  (∀ x, x ∈ l → f x = x ∨ (¬ P x ∧ ¬ P (f x))) →
  Js.find P (f <$> l) = Js.find P l.
Proof.
  induction l as [|y l IH]; intros Hall; [done|].
  assert (Htl : ∀ x, x ∈ l → f x = x ∨ (¬ P x ∧ ¬ P (f x)))
    by (intros x Hx; apply Hall; by right).
  rewrite fmap_cons. simpl.
  destruct (Hall y) as [->|[Hn Hn']]; [left | |].
  - destruct (decide (P y)); auto.
  - rewrite !decide_False by done. auto.
Qed.
End Find.

(** ** Lists *)

Section Lists.
Context {A : Type}.

Lemma find_head_filter (P : A → Prop) `{∀ x, Decision (P x)} (l : list A) :
  Js.find P l = head (filter P l).
Proof.
  induction l as [|y l IH]; [done|].
  rewrite filter_cons. simpl. by destruct (decide (P y)).
Qed.

Lemma find_fmap_replace (P : A → Prop) `{∀ x, Decision (P x)}
    (f : A → A) (l : list A) (x x' : A) :
  Js.find P l = Some x → f x = x' → P x' →
  (∀ y, y ∈ l → f y = y ∨ f y = x') →
  Js.find P (f <$> l) = Some x'.
Proof.
  intros Hf Hx HP'. induction l as [|y l IH]; intros Hall; [done|].
  rewrite fmap_cons. simpl in *.
  destruct (decide (P y)) as [Hy|Hy].
  - injection Hf as ->. rewrite Hx. by rewrite decide_True.
  - destruct (Hall y) as [->| ->]; [left | |].
    + rewrite decide_False by done. apply IH; [done|].
      intros z Hz. apply Hall. by right.
    + by rewrite decide_True.
Qed.

Lemma filter_fmap_frame (Q : A → Prop) `{∀ x, Decision (Q x)}
    (f : A → A) (l : list A) :
  (∀ x, x ∈ l → f x = x ∨ (¬ Q x ∧ ¬ Q (f x))) →
  filter Q (f <$> l) = filter Q l.
Proof.
  induction l as [|y l IH]; intros Hall; [done|].
  assert (Htl : ∀ x, x ∈ l → f x = x ∨ (¬ Q x ∧ ¬ Q (f x)))
    by (intros x Hx; apply Hall; by right).
  rewrite fmap_cons, !filter_cons.
  destruct (Hall y) as [->|[Hn Hn']]; [left | |].
  - destruct (decide (Q y)); by rewrite IH.
  - rewrite !decide_False by done. auto.
Qed.

Lemma filter_filter_frame (P Q : A → Prop) `{∀ x, Decision (P x)}
    `{∀ x, Decision (Q x)} (l : list A) :
  (∀ x, x ∈ l → Q x → P x) → filter Q (filter P l) = filter Q l.
Proof.
  induction l as [|y l IH]; intros Hall; [done|].
  assert (Htl : ∀ x, x ∈ l → Q x → P x)
    by (intros x Hx; apply Hall; by right).
  rewrite !filter_cons. destruct (decide (P y)) as [Hy|Hy].
  - rewrite filter_cons. destruct (decide (Q y)); by rewrite IH.
  - rewrite decide_False; [auto|]. intros HQ. apply Hy, Hall; [left | done].
Qed.

Lemma NoDup_fmap_eq {B : Type} (f : A → B) (l : list A) (a b : A) :
  NoDup (f <$> l) → a ∈ l → b ∈ l → f a = f b → a = b.
Proof.
  induction l as [|y l IH]; intros Hnd Ha Hb Hab.
  - by apply not_elem_of_nil in Ha.
  - rewrite fmap_cons in Hnd. apply NoDup_cons in Hnd as [Hy Hnd].
    apply elem_of_cons in Ha as [->|Ha]; apply elem_of_cons in Hb as [->|Hb].
    + done.
    + destruct Hy. rewrite Hab. by apply list_elem_of_fmap_2.
    + destruct Hy. rewrite <- Hab. by apply list_elem_of_fmap_2.
    + by apply IH.
Qed.

Lemma NoDup_filter_fmap {B : Type} (f : A → B) (P : A → Prop)
    `{∀ x, Decision (P x)} (l : list A) :
  NoDup (f <$> l) → NoDup (f <$> filter P l).
Proof.
  induction l as [|y l IH]; [done|].
  rewrite fmap_cons, filter_cons. intros [Hy Hnd]%NoDup_cons.
  destruct (decide (P y)); [|auto].
  rewrite fmap_cons. apply NoDup_cons. split; [|auto].
  intros (z & Hz & [_ Hin]%list_elem_of_filter)%list_elem_of_fmap.
  apply Hy. rewrite Hz. by apply list_elem_of_fmap_2.
Qed.

Lemma Forall_filter_keep (R P : A → Prop) `{∀ x, Decision (P x)}
    (l : list A) :
  Forall R l → Forall R (filter P l).
Proof.
  rewrite !Forall_forall. intros Hall x [_ Hin]%list_elem_of_filter. auto.
Qed.

Lemma filter_ext_elem (P Q : A → Prop) `{∀ x, Decision (P x)}
    `{∀ x, Decision (Q x)} (l : list A) :
  (∀ x, x ∈ l → P x ↔ Q x) → filter P l = filter Q l.
Proof.
  induction l as [|y l IH]; intros Hall; [done|].
  rewrite !filter_cons.
  rewrite IH by (intros x Hx; apply Hall; by right).
  destruct (decide (P y)) as [Hy|Hy].
  - rewrite decide_True; [done|]. apply Hall; [left | done].
  - rewrite decide_False; [done|]. intros HQ. apply Hy, Hall; [left | done].
Qed.

Lemma filter_all (P : A → Prop) `{∀ x, Decision (P x)} (l : list A) :
  (∀ x, x ∈ l → P x) → filter P l = l.
Proof.
  induction l as [|y l IH]; intros Hall; [done|].
  rewrite filter_cons, decide_True by (apply Hall; left).
  rewrite IH; [done|]. intros x Hx. apply Hall. by right.
Qed.

Lemma filter_filter_and (P Q : A → Prop) `{∀ x, Decision (P x)}
    `{∀ x, Decision (Q x)} (l : list A) :
  filter P (filter Q l) = filter (λ x, Q x ∧ P x) l.
Proof.
  induction l as [|y l IH]; [done|].
  rewrite !filter_cons. destruct (decide (Q y)) as [Hq|Hq].
  - rewrite filter_cons. destruct (decide (P y)) as [Hp|Hp].
    + rewrite decide_True by done. by rewrite IH.
    + rewrite decide_False by tauto. done.
  - rewrite decide_False by tauto. done.
Qed.

Lemma NoDup_app_shrink (l l' r : list A) :
  NoDup l' → l' ⊆ l → NoDup (l ++ r) → NoDup (l' ++ r).
Proof.
  intros Hl' Hsub (Hl & Hdisj & Hr)%NoDup_app.
  apply NoDup_app. split_and!; [done | | done].
  intros x Hx. apply Hdisj, Hsub, Hx.
Qed.
End Lists.

(** ** The store under [updateAllocationValue] *)

Section Store.
Implicit Types (s snap : list Allocation.t) (a ex : Allocation.t).
Implicit Types (p m mo u : string) (v : Z).

Local Abbreviation ids s := (Allocation.id <$> s).
Local Abbreviation keys s := (Spec.keyOf <$> s).

Lemma findAllocation_Some s p m mo a :
  ProjectList.findAllocation s p m mo = Some a →
  a ∈ s ∧ Spec.keyOf a = Cell.mk p m mo.
Proof.
  intros [Hin (Hp & Hm & Hmo)]%find_Some. split; [done|].
  unfold Spec.keyOf. by rewrite Hp, Hm, Hmo.
Qed.

Lemma findAllocation_None s p m mo :
  ProjectList.findAllocation s p m mo = None ↔ Cell.mk p m mo ∉ keys s.
Proof.
  unfold ProjectList.findAllocation. rewrite find_None. split.
  - intros Hall (a & Ha & Hin)%list_elem_of_fmap.
    apply (Hall a Hin). unfold Spec.keyOf in Ha. by injection Ha as -> -> ->.
  - intros Hnot a Hin (Hp & Hm & Hmo). apply Hnot.
    apply list_elem_of_fmap. exists a. split; [|done].
    unfold Spec.keyOf. by rewrite Hp, Hm, Hmo.
Qed.

Lemma findAllocation_unique s a :
  Spec.uniqueKeys s → a ∈ s →
  ProjectList.findAllocation s (Allocation.projectId a)
    (Allocation.memberId a) (Allocation.month a) = Some a.
Proof.
  intros Hk Hin.
  destruct (ProjectList.findAllocation s (Allocation.projectId a)
              (Allocation.memberId a) (Allocation.month a)) as [b|] eqn:E.
  - apply findAllocation_Some in E as [Hb Hkey]. f_equal.
    by apply (NoDup_fmap_eq Spec.keyOf s).
  - apply findAllocation_None in E. destruct E.
    by apply (list_elem_of_fmap_2 Spec.keyOf) in Hin.
Qed.

Lemma updateAllocationValue_agree snap s u p m mo v :
  ProjectList.findAllocation snap p m mo = ProjectList.findAllocation s p m mo →
  ProjectList.updateAllocationValue snap u p m mo v
  = ProjectList.updateAllocationValue s u p m mo v.
Proof. unfold ProjectList.updateAllocationValue. by intros ->. Qed.

Lemma commit_app q1 q2 s :
  App.commit (q1 ++ q2) s = App.commit q2 (App.commit q1 s).
Proof. unfold App.commit. apply foldl_app. Qed.

Lemma updateAllocation_ids a s : ids (App.updateAllocation a s) = ids s.
Proof.
  unfold App.updateAllocation. rewrite <- list_fmap_compose.
  apply list_fmap_ext. intros i x _. simpl. by destruct (decide _).
Qed.

(** With distinct identifiers an update replaces one record. *)
Lemma updateAllocation_other ex v s a :
  Spec.uniqueIds s → ex ∈ s → a ∈ s →
  Allocation.id a = Allocation.id (Allocation.withPercentage ex v) → a = ex.
Proof. intros Hid Hex Ha E. by apply (NoDup_fmap_eq Allocation.id s). Qed.

Lemma updateAllocation_keys ex v s :
  Spec.uniqueIds s → ex ∈ s →
  keys (App.updateAllocation (Allocation.withPercentage ex v) s) = keys s.
Proof.
  intros Hid Hex. unfold App.updateAllocation. rewrite <- list_fmap_compose.
  apply list_fmap_ext. intros i a Ha%list_elem_of_lookup_2.
  unfold compose. destruct (decide _) as [E|E]; [|done].
  by rewrite (updateAllocation_other ex v s a Hid Hex Ha E).
Qed.

(** The store after one call of [updateAllocationValue], by cases. *)
Lemma write_cases s u p m mo v :
  App.commit (ProjectList.updateAllocationValue s u p m mo v) s =
  match ProjectList.findAllocation s p m mo with
  | Some ex =>
      if 0 <? v then
        if decide (Allocation.percentage ex = v) then s
        else App.updateAllocation (Allocation.withPercentage ex v) s
      else App.deleteAllocation (Allocation.id ex) s
  | None => if 0 <? v then s ++ [Allocation.mk u p m mo v] else s
  end.
Proof.
  unfold ProjectList.updateAllocationValue.
  destruct (ProjectList.findAllocation s p m mo) as [ex|];
    destruct (0 <? v); try done.
  by destruct (decide (Allocation.percentage ex = v));
    [rewrite decide_False by auto | rewrite decide_True by auto].
Qed.

(** The written cell holds the new value, or nothing when the value is
    not positive. *)
Lemma write_find s u p m mo v :
  Spec.uniqueKeys s →
  ProjectList.cellPercentage
    (App.commit (ProjectList.updateAllocationValue s u p m mo v) s) p m mo
  = (if 0 <? v then v else 0)
  ∧ (v ≤ 0 →
     ProjectList.findAllocation
       (App.commit (ProjectList.updateAllocationValue s u p m mo v) s) p m mo
     = None).
Proof.
  intros Hk. rewrite write_cases. unfold ProjectList.cellPercentage.
  destruct (ProjectList.findAllocation s p m mo) as [ex|] eqn:Hfind.
  - destruct (findAllocation_Some _ _ _ _ _ Hfind) as [Hex Hkey].
    destruct (0 <? v) eqn:Hv.
    + split; [|lia]. destruct (decide (Allocation.percentage ex = v)) as [E|E].
      * by rewrite Hfind.
      * unfold ProjectList.findAllocation, App.updateAllocation.
        rewrite (find_fmap_replace _ _ s ex (Allocation.withPercentage ex v));
          [done | exact Hfind | | |].
        -- by rewrite decide_True.
        -- apply find_Some in Hfind as [_ HP]. exact HP.
        -- intros y _. destruct (decide _); auto.
    + assert (Hnone : ProjectList.findAllocation
                (App.deleteAllocation (Allocation.id ex) s) p m mo = None).
      { apply find_filter_None. intros a Ha (Hp & Hm & Hmo) Hne.
        apply Hne. f_equal. apply (NoDup_fmap_eq Spec.keyOf s); [done..|].
        rewrite Hkey. unfold Spec.keyOf. by rewrite Hp, Hm, Hmo. }
      by rewrite Hnone.
  - destruct (0 <? v) eqn:Hv.
    + split; [|lia]. unfold ProjectList.findAllocation.
      by erewrite find_app_None.
    + by rewrite Hfind.
Qed.

(** Records that are not on the written cell are kept as they are. *)
Lemma write_frame (Q : Allocation.t → Prop) `{∀ a, Decision (Q a)}
    s u p m mo v :
  Spec.uniqueIds s →
  (∀ a, Q a → ¬ Spec.onCell (Cell.mk p m mo) a) →
  filter Q (App.commit (ProjectList.updateAllocationValue s u p m mo v) s)
  = filter Q s.
Proof.
  intros Hid HQ. rewrite write_cases.
  destruct (ProjectList.findAllocation s p m mo) as [ex|] eqn:Hfind.
  - destruct (find_Some _ _ _ Hfind) as [Hex Hcell].
    destruct (0 <? v); [destruct (decide _); [done|] |].
    + apply filter_fmap_frame. intros a Ha.
      destruct (decide _) as [E|E]; [right | by left].
      rewrite (updateAllocation_other ex v s a Hid Hex Ha E).
      split; intros HQa; by apply (HQ _ HQa).
    + apply filter_filter_frame. intros a Ha HQa Hida.
      apply (HQ _ HQa).
      by rewrite (NoDup_fmap_eq Allocation.id s a ex Hid Ha Hex Hida).
  - destruct (0 <? v); [|done].
    rewrite filter_app, filter_cons, decide_False, filter_nil.
    + by rewrite app_nil_r.
    + intros HQa. by apply (HQ _ HQa).
Qed.

Lemma write_find_other s u p m mo v p' m' mo' :
  Spec.uniqueIds s → Cell.mk p' m' mo' ≠ Cell.mk p m mo →
  ProjectList.findAllocation
    (App.commit (ProjectList.updateAllocationValue s u p m mo v) s) p' m' mo'
  = ProjectList.findAllocation s p' m' mo'.
Proof.
  intros Hid Hne. unfold ProjectList.findAllocation.
  rewrite !find_head_filter. f_equal. apply write_frame; [done|].
  intros a (Hp & Hm & Hmo) (Hp' & Hm' & Hmo'). simpl in *. apply Hne.
  congruence.
Qed.

Lemma write_ids s u p m mo v :
  ids (App.commit (ProjectList.updateAllocationValue s u p m mo v) s)
  ⊆ u :: ids s.
Proof.
  rewrite write_cases.
  destruct (ProjectList.findAllocation s p m mo) as [ex|];
    destruct (0 <? v); try destruct (decide _); intros x Hx.
  - by right.
  - rewrite updateAllocation_ids in Hx. by right.
  - apply list_elem_of_fmap in Hx as (a & -> & [_ Hin]%list_elem_of_filter).
    right. by apply list_elem_of_fmap_2.
  - rewrite fmap_app in Hx. apply elem_of_app in Hx as [Hx|Hx]; [by right|].
    apply list_elem_of_singleton in Hx as ->. by left.
  - by right.
Qed.

Lemma write_uniqueIds s u p m mo v :
  Spec.uniqueIds s → u ∉ ids s →
  Spec.uniqueIds
    (App.commit (ProjectList.updateAllocationValue s u p m mo v) s).
Proof.
  intros Hid Hu. unfold Spec.uniqueIds. rewrite write_cases.
  destruct (ProjectList.findAllocation s p m mo) as [ex|];
    destruct (0 <? v); try destruct (decide _); try done.
  - by rewrite updateAllocation_ids.
  - by apply NoDup_filter_fmap.
  - rewrite fmap_app. apply NoDup_app. split_and!; [done | | ].
    + intros x Hx ->%list_elem_of_singleton. done.
    + apply NoDup_singleton.
Qed.

Lemma write_uniqueKeys s u p m mo v :
  Spec.uniqueIds s → Spec.uniqueKeys s →
  Spec.uniqueKeys
    (App.commit (ProjectList.updateAllocationValue s u p m mo v) s).
Proof.
  intros Hid Hk. unfold Spec.uniqueKeys. rewrite write_cases.
  destruct (ProjectList.findAllocation s p m mo) as [ex|] eqn:Hfind;
    destruct (0 <? v); try destruct (decide _); try done.
  - rewrite updateAllocation_keys; [done..|].
    by apply find_Some in Hfind as [? _].
  - by apply NoDup_filter_fmap.
  - rewrite fmap_app. apply NoDup_app. split_and!; [done | | ].
    + intros x Hx ->%list_elem_of_singleton.
      by apply findAllocation_None in Hfind.
    + apply NoDup_singleton.
Qed.

Lemma write_positive s u p m mo v :
  Forall (λ a, 0 < Allocation.percentage a) s →
  Forall (λ a, 0 < Allocation.percentage a)
    (App.commit (ProjectList.updateAllocationValue s u p m mo v) s).
Proof.
  intros Hpos. rewrite write_cases.
  destruct (ProjectList.findAllocation s p m mo) as [ex|];
    destruct (0 <? v) eqn:Hv; try destruct (decide _); try done.
  - apply Z.ltb_lt in Hv. apply Forall_fmap. eapply Forall_impl; [exact Hpos|].
    intros a Ha. simpl. by destruct (decide _).
  - by apply Forall_filter_keep.
  - apply Z.ltb_lt in Hv. apply Forall_app. split; [done|].
    by apply Forall_singleton.
Qed.
End Store.

(** ** The store's [upsert] and the steps of the store *)

Section Upsert.
Implicit Types (s : list Allocation.t) (a : Allocation.t) (c : Cell.t).
Implicit Types (u : string) (v : Z).

Local Abbreviation ids s := (Allocation.id <$> s).

Lemma upsert_percentage s u c v :
  Spec.uniqueKeys s →
  ProjectList.cellPercentage (Spec.upsert s u c v) (Cell.projectId c)
    (Cell.memberId c) (Cell.month c)
  = (if 0 <? v then v else 0).
Proof. intros Hk. by apply write_find. Qed.

Lemma upsert_absent s u c v :
  Spec.uniqueKeys s → v ≤ 0 →
  ProjectList.findAllocation (Spec.upsert s u c v) (Cell.projectId c)
    (Cell.memberId c) (Cell.month c) = None.
Proof. intros Hk. by apply write_find. Qed.

Lemma upsert_frame (Q : Allocation.t → Prop) `{∀ a, Decision (Q a)}
    s u c v :
  Spec.uniqueIds s → (∀ a, Q a → ¬ Spec.onCell c a) →
  filter Q (Spec.upsert s u c v) = filter Q s.
Proof. intros Hid HQ. destruct c. by apply write_frame. Qed.

Lemma upsert_other s u c v c' :
  Spec.uniqueIds s → c' ≠ c →
  ProjectList.findAllocation (Spec.upsert s u c v) (Cell.projectId c')
    (Cell.memberId c') (Cell.month c')
  = ProjectList.findAllocation s (Cell.projectId c') (Cell.memberId c')
      (Cell.month c').
Proof. intros Hid Hne. destruct c, c'. by apply write_find_other. Qed.

Lemma upsert_percentage_other s u c v c' :
  Spec.uniqueIds s → c' ≠ c →
  ProjectList.cellPercentage (Spec.upsert s u c v) (Cell.projectId c')
    (Cell.memberId c') (Cell.month c')
  = ProjectList.cellPercentage s (Cell.projectId c') (Cell.memberId c')
      (Cell.month c').
Proof.
  intros Hid Hne. unfold ProjectList.cellPercentage.
  by rewrite upsert_other.
Qed.

Lemma upsert_ids s u c v : ids (Spec.upsert s u c v) ⊆ u :: ids s.
Proof. apply write_ids. Qed.

Lemma upsert_wellFormed s u c v :
  Spec.wellFormed s → u ∉ ids s → Spec.wellFormed (Spec.upsert s u c v).
Proof.
  intros [Hid Hk] Hu. split.
  - by apply write_uniqueIds.
  - by apply write_uniqueKeys.
Qed.

Lemma upsert_positive s u c v :
  Forall (λ a, 0 < Allocation.percentage a) s →
  Forall (λ a, 0 < Allocation.percentage a) (Spec.upsert s u c v).
Proof. apply write_positive. Qed.

(** The second call of a handler reads the array of the render, not the
    array the first call has changed; on another cell that is the same. *)
Lemma commit_two s u1 u2 c1 c2 v1 v2 :
  Spec.uniqueIds s → c2 ≠ c1 →
  App.commit
    (ProjectList.updateAllocationValue s u1 (Cell.projectId c1)
       (Cell.memberId c1) (Cell.month c1) v1
     ++ ProjectList.updateAllocationValue s u2 (Cell.projectId c2)
          (Cell.memberId c2) (Cell.month c2) v2) s
  = Spec.upsert (Spec.upsert s u1 c1 v1) u2 c2 v2.
Proof.
  intros Hid Hne. rewrite commit_app. unfold Spec.upsert at 1. f_equal.
  apply updateAllocationValue_agree. symmetry. by apply upsert_other.
Qed.

Lemma storeStep_wellFormed us s s' :
  Spec.storeStep us s s' → Spec.wellFormed s → NoDup (ids s ++ us) →
  Spec.wellFormed s' ∧ ids s' ⊆ ids s ++ us.
Proof.
  intros Hstep Hwf (Hnd & Hdisj & Hus)%NoDup_app.
  assert (Hfresh : ∀ u, u ∈ us → u ∉ ids s)
    by (intros u Hu Hin; by apply (Hdisj u)).
  destruct Hstep as [|u c v Hu|u1 u2 c1 c2 v1 v2 ->|P HP].
  - split; [done|]. intros x Hx. apply elem_of_app. by left.
  - split; [apply upsert_wellFormed; auto|].
    intros x [->|Hx]%upsert_ids%elem_of_cons; apply elem_of_app; auto.
  - apply NoDup_cons in Hus as [Hu12 _].
    assert (Hu1 : u1 ∉ ids s) by (apply Hfresh; left).
    assert (Hu2 : u2 ∉ ids s) by (apply Hfresh; right; left).
    split.
    + apply upsert_wellFormed; [by apply upsert_wellFormed|].
      intros [->|Hx]%upsert_ids%elem_of_cons; [|done].
      apply Hu12. left.
    + intros x [->|[->|Hx]%upsert_ids%elem_of_cons]%upsert_ids%elem_of_cons;
        apply elem_of_app; auto.
      * right. right. left.
      * right. left.
  - destruct Hwf as [Hid Hk]. split; [split|].
    + by apply NoDup_filter_fmap.
    + by apply NoDup_filter_fmap.
    + intros x (a & -> & [_ Hin]%list_elem_of_filter)%list_elem_of_fmap.
      apply elem_of_app. left. by apply list_elem_of_fmap_2.
Qed.

Lemma storeStep_positive us s s' :
  Spec.storeStep us s s' →
  Forall (λ a, 0 < Allocation.percentage a) s →
  Forall (λ a, 0 < Allocation.percentage a) s'.
Proof.
  intros [|u c v Hu|u1 u2 c1 c2 v1 v2 ->|P HP] Hpos; [done|..].
  - by apply upsert_positive.
  - by do 2 apply upsert_positive.
  - by apply Forall_filter_keep.
Qed.

Lemma commit_deletes (l : list string) s :
  App.commit (App.onDeleteAllocation <$> l) s
  = filter (λ a, Allocation.id a ∉ l) s.
Proof.
  revert s. induction l as [|d l IH]; intros s.
  - simpl. symmetry. apply filter_all. intros a _. apply not_elem_of_nil.
  - rewrite fmap_cons. unfold App.commit. simpl.
    fold (App.commit (App.onDeleteAllocation <$> l)
            (App.deleteAllocation d s)).
    rewrite IH. unfold App.deleteAllocation. rewrite filter_filter_and.
    apply filter_ext_elem. intros a _. rewrite not_elem_of_cons. tauto.
Qed.
End Upsert.

(** ** The handlers of the grid *)

Section Handlers.
Implicit Types (st : ProjectList.State) (c : Cell.t).
Implicit Types (p m mo u : string).

Local Abbreviation ids s := (Allocation.id <$> s).

Lemma append_inj_r (s a b : string) : s +:+ a = s +:+ b → a = b.
Proof. induction s as [|x s IH]; simpl; [done|]. intros [= E]. auto. Qed.

Lemma cellKey_inj p m mo mo' :
  ProjectList.cellKey p m mo = ProjectList.cellKey p m mo' → mo = mo'.
Proof.
  unfold ProjectList.cellKey. intros E.
  by do 4 apply append_inj_r in E.
Qed.

Lemma state_eta st :
  ProjectList.mkState (ProjectList.allocations st)
    (ProjectList.addedMembers st) (ProjectList.editingCell st)
    (ProjectList.editValue st) (ProjectList.dragState st) = st.
Proof. by destruct st. Qed.

Lemma mouseEnter_inactive u1 u2 p m mo st :
  Drag.active (ProjectList.dragState st) = false →
  ProjectList.handleCellMouseEnter u1 u2 p m mo st = st.
Proof. unfold ProjectList.handleCellMouseEnter. by intros ->. Qed.

Lemma mouseEnter_other_row u1 u2 p m mo st :
  Drag.projectId (ProjectList.dragState st) ≠ p
  ∨ Drag.memberId (ProjectList.dragState st) ≠ m →
  ProjectList.handleCellMouseEnter u1 u2 p m mo st = st.
Proof.
  intros Hrow. unfold ProjectList.handleCellMouseEnter.
  destruct (negb _); [done|]. by rewrite decide_True.
Qed.

Lemma mouseEnter_start_cell u1 u2 p m mo st :
  Drag.hasMoved (ProjectList.dragState st) = false →
  mo = Drag.startMonth (ProjectList.dragState st) →
  ProjectList.handleCellMouseEnter u1 u2 p m mo st = st.
Proof.
  intros Hmv ->. unfold ProjectList.handleCellMouseEnter.
  destruct (negb _); [done|]. destruct (decide _); [done|].
  rewrite decide_False by tauto. rewrite Hmv.
  unfold ProjectList.setAllocations, ProjectList.setDragState. simpl.
  apply state_eta.
Qed.

Lemma mouseEnter_repaint u1 u2 p m mo st :
  Drag.hasMoved (ProjectList.dragState st) = true →
  ProjectList.cellKey p m mo ∈ Drag.paintedCells (ProjectList.dragState st) →
  ProjectList.handleCellMouseEnter u1 u2 p m mo st = st.
Proof.
  intros Hmv Hkey. unfold ProjectList.handleCellMouseEnter.
  destruct (negb _); [done|]. destruct (decide _); [done|].
  rewrite decide_False by (rewrite Hmv; intros [? _]; done).
  rewrite Hmv. rewrite decide_False by tauto.
  unfold ProjectList.setAllocations, ProjectList.setDragState. simpl.
  apply state_eta.
Qed.

Lemma mouseEnter_paint u1 u2 p m mo st :
  let d := ProjectList.dragState st in
  Drag.active d = true → Drag.projectId d = p → Drag.memberId d = m →
  Drag.hasMoved d = true →
  ProjectList.cellKey p m mo ∉ Drag.paintedCells d →
  ProjectList.handleCellMouseEnter u1 u2 p m mo st
  = ProjectList.mkState
      (Spec.upsert (ProjectList.allocations st) u2 (Cell.mk p m mo)
         (Drag.paintValue d))
      (ProjectList.addedMembers st) (ProjectList.editingCell st)
      (ProjectList.editValue st)
      (Drag.setPaintedCells
         ({[ ProjectList.cellKey p m mo ]} ∪ Drag.paintedCells d) d).
Proof.
  intros d Hact Hp Hm Hmv Hkey. unfold ProjectList.handleCellMouseEnter.
  fold d. rewrite Hact. simpl. rewrite decide_False by tauto.
  rewrite decide_False by (rewrite Hmv; intros [? _]; done).
  rewrite Hmv. by rewrite decide_True.
Qed.

Lemma mouseEnter_first_move u1 u2 p m mo st :
  let d := ProjectList.dragState st in
  Drag.active d = true → Drag.projectId d = p → Drag.memberId d = m →
  Drag.hasMoved d = false → Drag.paintedCells d = ∅ →
  mo ≠ Drag.startMonth d →
  Spec.uniqueIds (ProjectList.allocations st) →
  ProjectList.handleCellMouseEnter u1 u2 p m mo st
  = ProjectList.mkState
      (Spec.upsert
         (Spec.upsert (ProjectList.allocations st) u1
            (Cell.mk p m (Drag.startMonth d)) (Drag.paintValue d))
         u2 (Cell.mk p m mo) (Drag.paintValue d))
      (ProjectList.addedMembers st) (ProjectList.editingCell st)
      (ProjectList.editValue st)
      (Drag.mk true p m (Drag.startMonth d) (Drag.startValue d)
         (Drag.paintValue d) true
         ({[ ProjectList.cellKey p m mo ]}
            ∪ ({[ ProjectList.cellKey p m (Drag.startMonth d) ]} ∪ ∅))).
Proof.
  intros d Hact Hp Hm Hmv Hpaint Hmo Hid.
  unfold ProjectList.handleCellMouseEnter.
  fold d. rewrite Hact. simpl. rewrite decide_False by tauto.
  rewrite decide_True by done. simpl.
  rewrite Hpaint. rewrite decide_True by apply not_elem_of_empty. simpl.
  rewrite decide_True.
  - unfold ProjectList.setAllocations, ProjectList.setDragState. simpl.
    rewrite (commit_two _ u1 u2 (Cell.mk p m (Drag.startMonth d))
               (Cell.mk p m mo)); [|done|congruence].
    unfold Drag.setPaintedCells, Drag.setHasMoved. simpl.
    by rewrite Hact, Hp, Hm.
  - intros [E%elem_of_singleton|[]%elem_of_empty]%elem_of_union.
    by apply cellKey_inj in E.
Qed.
End Handlers.

(** ** Every event is a step of the store *)

Section Steps.
Implicit Types (st : ProjectList.State) (i : ProjectList.Input).

Local Arguments App.commit : simpl never.

Local Abbreviation ids s := (Allocation.id <$> s).

Lemma globalMouseUp_allocations st :
  ProjectList.allocations (ProjectList.handleGlobalMouseUp st)
  = ProjectList.allocations st.
Proof. unfold ProjectList.handleGlobalMouseUp. by destruct (Drag.active _). Qed.

Lemma mouseUp_allocations u p m mo v st :
  ProjectList.allocations (ProjectList.handleCellMouseUp u p m mo v st)
  = if Drag.active (ProjectList.dragState st)
       && negb (Drag.hasMoved (ProjectList.dragState st))
    then Spec.upsert (ProjectList.allocations st) u (Cell.mk p m mo)
           (Spec.clickCycle v)
    else ProjectList.allocations st.
Proof.
  unfold ProjectList.handleCellMouseUp.
  destruct (Drag.active _); [|done].
  by destruct (Drag.hasMoved _).
Qed.

Lemma saveEditing_allocations u st :
  ProjectList.allocations (ProjectList.saveEditing u st)
  = match ProjectList.editingCell st, Js.parseInt (ProjectList.editValue st) with
    | Some c, Some n => Spec.upsert (ProjectList.allocations st) u c n
    | _, _ => ProjectList.allocations st
    end.
Proof.
  unfold ProjectList.saveEditing.
  destruct (ProjectList.editingCell st) as [[p m mo]|]; [|done].
  by destruct (Js.parseInt _).
Qed.

Lemma removeMember_allocations p m st :
  ProjectList.allocations (ProjectList.handleRemoveMemberFromProject p m st)
  = filter (λ a, Allocation.id a
                 ∉ Allocation.id <$> filter (Spec.onRow p m)
                                       (ProjectList.allocations st))
      (ProjectList.allocations st).
Proof.
  unfold ProjectList.handleRemoveMemberFromProject. simpl.
  rewrite <- commit_deletes. by rewrite <- list_fmap_compose.
Qed.

Lemma step_storeStep st i :
  Spec.uniqueIds (ProjectList.allocations st) →
  Spec.storeStep (Spec.drawsOf i) (ProjectList.allocations st)
    (ProjectList.allocations (ProjectList.step st i)).
Proof.
  intros Hid. destruct i as [e [u1 u2]].
  destruct e as [[p m mo]|[p m mo]|[p m mo]| |[p m mo]|text| |p m|p m];
    unfold Spec.drawsOf, ProjectList.step, ProjectList.dispatch;
    cbv beta iota; cbn [fst snd]; try apply Spec.step_skip.
  - (* MouseEnter *)
    unfold ProjectList.handleCellMouseEnter.
    destruct (negb _); [apply Spec.step_skip|].
    destruct (decide _); [apply Spec.step_skip|].
    set (d := ProjectList.dragState st).
    destruct (decide (Drag.hasMoved d = false ∧ mo ≠ Drag.startMonth d))
      as [[Hmv Hmo]|Hno].
    + simpl. destruct (decide _) as [Hk0|Hk0]; simpl.
      * destruct (decide _) as [Hk|Hk]; simpl.
        -- rewrite (commit_two _ u1 u2 (Cell.mk p m (Drag.startMonth d))
                      (Cell.mk p m mo)); [|done|congruence].
           by eapply Spec.step_write2.
        -- rewrite app_nil_r.
           apply (Spec.step_write _ _ u1 (Cell.mk p m (Drag.startMonth d))).
           left.
      * destruct (decide _) as [Hk|Hk]; simpl.
        -- apply (Spec.step_write _ _ u2 (Cell.mk p m mo)). right. left.
        -- apply Spec.step_skip.
    + destruct (Drag.hasMoved d); simpl; [|apply Spec.step_skip].
      destruct (decide _) as [Hk|Hk]; simpl; [|apply Spec.step_skip].
      apply (Spec.step_write _ _ u2 (Cell.mk p m mo)). right. left.
  - (* MouseUp *)
    rewrite globalMouseUp_allocations, mouseUp_allocations.
    destruct (_ && _); [|apply Spec.step_skip].
    apply Spec.step_write. left.
  - (* MouseUpOutside *)
    rewrite globalMouseUp_allocations. apply Spec.step_skip.
  - (* Commit *)
    rewrite saveEditing_allocations.
    destruct (ProjectList.editingCell st); [|apply Spec.step_skip].
    destruct (Js.parseInt _); [|apply Spec.step_skip].
    apply Spec.step_write. left.
  - (* RemoveMember *)
    rewrite removeMember_allocations. apply Spec.step_remove.
Qed.

Lemma run_snoc inputs i st :
  ProjectList.run (inputs ++ [i]) st
  = ProjectList.step (ProjectList.run inputs st) i.
Proof. unfold ProjectList.run. by rewrite foldl_app. Qed.

Lemma run_app l1 l2 st :
  ProjectList.run (l1 ++ l2) st = ProjectList.run l2 (ProjectList.run l1 st).
Proof. unfold ProjectList.run. apply foldl_app. Qed.

Lemma draws_snoc inputs i :
  Spec.draws (inputs ++ [i]) = Spec.draws inputs ++ Spec.drawsOf i.
Proof.
  unfold Spec.draws. rewrite bind_app. simpl. by rewrite app_nil_r.
Qed.

(** The invariants of the store hold along every run whose identifiers
    are new. *)
Lemma run_wellFormed inputs st :
  Spec.uniqueKeys (ProjectList.allocations st) →
  Spec.fresh (ProjectList.allocations st) inputs →
  Spec.wellFormed (ProjectList.allocations (ProjectList.run inputs st))
  ∧ ids (ProjectList.allocations (ProjectList.run inputs st))
    ⊆ ids (ProjectList.allocations st) ++ Spec.draws inputs.
Proof.
  intros Hk. unfold Spec.fresh.
  induction inputs as [|i inputs IH] using rev_ind; intros Hnd.
  - simpl. rewrite app_nil_r in *. split; [by split|done].
  - rewrite draws_snoc, app_assoc in Hnd.
    destruct (IH (proj1 (proj1 (NoDup_app _ _) Hnd))) as [Hwf Hsub].
    rewrite run_snoc, draws_snoc.
    set (st' := ProjectList.run inputs st) in *.
    destruct (storeStep_wellFormed (Spec.drawsOf i)
                (ProjectList.allocations st')
                (ProjectList.allocations (ProjectList.step st' i)))
      as [Hwf' Hsub'].
    + apply step_storeStep, Hwf.
    + done.
    + eapply NoDup_app_shrink; [apply Hwf | exact Hsub | exact Hnd].
    + split; [done|]. intros x [Hx|Hx]%Hsub'%elem_of_app.
      * apply Hsub in Hx. rewrite app_assoc. apply elem_of_app. by left.
      * rewrite app_assoc. apply elem_of_app. by right.
Qed.

(** A property of percentages that every positive number has is kept by
    every event, whatever the identifiers drawn. *)
Section Percentages.
Variable R : Z → Prop.
Hypothesis R_positive : ∀ v, 0 < v → R v.

Lemma commit_percentages queue (s : list Allocation.t) :
  Forall Spec.positiveCall queue →
  Forall (λ a, R (Allocation.percentage a)) s →
  Forall (λ a, R (Allocation.percentage a)) (App.commit queue s).
Proof.
  intros Hq. revert s. induction Hq as [|c queue Hc Hq IH]; intros s Hs.
  - done.
  - unfold App.commit. simpl. apply IH.
    destruct c as [a|a|id]; simpl in *.
    + apply Forall_app. split; [done|]. apply Forall_singleton. auto.
    + apply Forall_fmap. eapply Forall_impl; [exact Hs|].
      intros b Hb. simpl. destruct (decide _); auto.
    + by apply Forall_filter_keep.
Qed.
End Percentages.

Lemma updateAllocationValue_positive snap u p m mo v :
  Forall Spec.positiveCall
    (ProjectList.updateAllocationValue snap u p m mo v).
Proof.
  unfold ProjectList.updateAllocationValue.
  destruct (0 <? v) eqn:Hv; [apply Z.ltb_lt in Hv|];
    destruct (ProjectList.findAllocation snap p m mo);
    try destruct (decide _); repeat constructor; done.
Qed.

(** Every event commits calls that write a positive percentage or
    delete. *)
Lemma step_commit st i :
  ∃ queue,
    ProjectList.allocations (ProjectList.step st i)
    = App.commit queue (ProjectList.allocations st)
    ∧ Forall Spec.positiveCall queue.
Proof.
  destruct i as [e [u1 u2]].
  destruct e as [[p m mo]|[p m mo]|[p m mo]| |[p m mo]|text| |p m|p m];
    unfold ProjectList.step, ProjectList.dispatch;
    cbv beta iota; cbn [fst snd]; try (by exists []).
  - unfold ProjectList.handleCellMouseEnter.
    destruct (negb _); [by exists []|].
    destruct (decide _); [by exists []|].
    destruct (decide (_ ∧ _)); simpl;
      repeat (destruct (decide (_ ∉ _)); simpl);
      try destruct (Drag.hasMoved _); simpl;
      repeat (destruct (decide (_ ∉ _)); simpl);
      (eexists; split; [reflexivity|]);
      repeat apply Forall_app_2; try apply Forall_nil_2;
      apply updateAllocationValue_positive.
  - rewrite globalMouseUp_allocations.
    unfold ProjectList.handleCellMouseUp.
    destruct (negb _); [by exists []|]. simpl.
    eexists; split; [reflexivity|].
    destruct (negb _); [apply updateAllocationValue_positive | done].
  - rewrite globalMouseUp_allocations. by exists [].
  - unfold ProjectList.saveEditing.
    destruct (ProjectList.editingCell st) as [[p m mo]|]; [|by exists []].
    simpl. eexists; split; [reflexivity|].
    destruct (Js.parseInt _); [apply updateAllocationValue_positive | done].
  - unfold ProjectList.handleRemoveMemberFromProject. simpl.
    eexists; split; [reflexivity|].
    apply Forall_fmap, Forall_forall. done.
Qed.

(** Every store that the grid reaches from the empty one, with identifiers
    that are new, has distinct identifiers and distinct keys. *)
Corollary reachable_wellFormed inputs :
  Spec.fresh [] inputs →
  Spec.wellFormed
    (ProjectList.allocations (ProjectList.run inputs ProjectList.initial)).
Proof.
  intros Hf. apply run_wellFormed; [|done]. apply NoDup_nil_2.
Qed.

Lemma run_percentages (R : Z → Prop) inputs st :
  (∀ v, 0 < v → R v) →
  Forall (λ a, R (Allocation.percentage a)) (ProjectList.allocations st) →
  Forall (λ a, R (Allocation.percentage a))
    (ProjectList.allocations (ProjectList.run inputs st)).
Proof.
  intros HR Hpos.
  induction inputs as [|i inputs IH] using rev_ind; [done|].
  rewrite run_snoc.
  destruct (step_commit (ProjectList.run inputs st) i) as (q & -> & Hq).
  by apply commit_percentages.
Qed.
End Steps.

(** ** Removing a member from a project *)

(** C6: removing member [m] from project [p] deletes exactly the records of
    the pair ([p], [m]), in every month: none of them remains, and every
    record of another pair (the same member on another project, another
    member on the same project) is kept as it is, in its place. *)
Theorem remove_member_from_project (st : ProjectList.State) (p m : string) :
  Spec.uniqueIds (ProjectList.allocations st) →
  let s := ProjectList.allocations st in
  let s' :=
    ProjectList.allocations (ProjectList.handleRemoveMemberFromProject p m st) in
  s' = filter (λ a, ¬ Spec.onRow p m a) s
  ∧ (∀ a, a ∈ s' → ¬ Spec.onRow p m a)
  ∧ (∀ a, ¬ Spec.onRow p m a → a ∈ s' ↔ a ∈ s).
Proof.
  intros Hid s s'.
  assert (E : s' = filter (λ a, ¬ Spec.onRow p m a) s).
  { unfold s'. rewrite removeMember_allocations. fold s.
    apply filter_ext_elem. intros a Ha. split.
    - intros Hn Hrow. apply Hn.
      apply list_elem_of_fmap_2. by apply list_elem_of_filter.
    - intros Hn (b & Hab & [Hrow Hb]%list_elem_of_filter)%list_elem_of_fmap.
      apply Hn. by rewrite (NoDup_fmap_eq Allocation.id s a b Hid Ha Hb Hab). }
  split; [done|]. rewrite E. split.
  - by intros a [? _]%list_elem_of_filter.
  - intros a Hn. rewrite list_elem_of_filter. tauto.
Qed.

Lemma remove_member_from_project_witness :
  Spec.uniqueIds (ProjectList.allocations Example.state)
  ∧ ProjectList.allocations
      (ProjectList.handleRemoveMemberFromProject "1" "2" Example.state)
    = [ Allocation.mk "a1" "1" "1" "2025-01" 100;
        Allocation.mk "a3" "2" "2" "2025-01" 80 ].
Proof.
  assert (H : Spec.uniqueIds (ProjectList.allocations Example.state)).
  { apply (bool_decide_unpack _). vm_compute. exact I. }
  split; [exact H|].
  rewrite (proj1 (remove_member_from_project Example.state "1" "2" H)).
  vm_compute. reflexivity.
Defined.

(** ** Direct entry *)

(** C7: a commit of the entry field whose text does not parse as an integer
    changes nothing in the store: no record is added, updated or deleted,
    and the handler returns normally. *)
Theorem unparseable_entry_discarded (st : ProjectList.State) (u : string) :
  Js.parseInt (ProjectList.editValue st) = None →
  ProjectList.allocations (ProjectList.saveEditing u st)
  = ProjectList.allocations st
  ∧ ProjectList.dragState (ProjectList.saveEditing u st)
    = ProjectList.dragState st
  ∧ ProjectList.addedMembers (ProjectList.saveEditing u st)
    = ProjectList.addedMembers st.
Proof.
  intros Hnan. rewrite saveEditing_allocations, Hnan. split.
  - by destruct (ProjectList.editingCell st).
  - unfold ProjectList.saveEditing.
    by destruct (ProjectList.editingCell st) as [[]|].
Qed.

Lemma unparseable_entry_discarded_witness :
  Js.parseInt (ProjectList.editValue (Example.editing "abc")) = None
  ∧ ProjectList.allocations (ProjectList.saveEditing "u1" (Example.editing "abc"))
    = Example.allocations.
Proof.
  split; [reflexivity|].
  apply (unparseable_entry_discarded (Example.editing "abc") "u1").
  reflexivity.
Defined.

(** What [parseInt] makes of some texts. *)
Example parseInt_examples :
  Js.parseInt "abc" = None ∧ Js.parseInt "" = None ∧ Js.parseInt "-" = None
  ∧ Js.parseInt "0x" = None ∧ Js.parseInt ".5" = None
  ∧ Js.parseInt "150" = Some 150 ∧ Js.parseInt "-20" = Some (-20)
  ∧ Js.parseInt " 42" = Some 42 ∧ Js.parseInt "12px" = Some 12
  ∧ Js.parseInt "1.5" = Some 1 ∧ Js.parseInt "0x1F" = Some 31
  ∧ Js.parseInt "0" = Some 0.
Proof. by vm_compute. Qed.

(** C10: a commit of the entry field whose text parses to a negative integer
    takes the delete path: the record of the cell, if there is one, is
    deleted and no record is created; and no event ever stores a record with
    a negative percentage. *)
Theorem negative_entry_deletes (st : ProjectList.State) (u : string)
    (c : Cell.t) (n : Z) (inputs : list ProjectList.Input) :
  ProjectList.editingCell st = Some c →
  Js.parseInt (ProjectList.editValue st) = Some n →
  n < 0 →
  Spec.uniqueKeys (ProjectList.allocations st) →
  Forall (λ a, 0 ≤ Allocation.percentage a) (ProjectList.allocations st) →
  let s := ProjectList.allocations st in
  let s' := ProjectList.allocations (ProjectList.saveEditing u st) in
  s' = match ProjectList.findAllocation s (Cell.projectId c)
               (Cell.memberId c) (Cell.month c) with
       | Some existing => App.deleteAllocation (Allocation.id existing) s
       | None => s
       end
  ∧ ProjectList.findAllocation s' (Cell.projectId c) (Cell.memberId c)
      (Cell.month c) = None
  ∧ (∀ a, a ∈ s' → a ∈ s)
  ∧ Forall (λ a, 0 ≤ Allocation.percentage a)
      (ProjectList.allocations (ProjectList.run inputs st)).
Proof.
  intros Hcell Hparse Hneg Hk Hpos s s'.
  assert (E : s' = Spec.upsert s u c n).
  { unfold s'. by rewrite saveEditing_allocations, Hcell, Hparse. }
  assert (Hcases : Spec.upsert s u c n =
            match ProjectList.findAllocation s (Cell.projectId c)
                    (Cell.memberId c) (Cell.month c) with
            | Some existing => App.deleteAllocation (Allocation.id existing) s
            | None => s
            end).
  { unfold Spec.upsert. rewrite write_cases.
    replace (0 <? n) with false by (symmetry; apply Z.ltb_ge; lia). done. }
  split_and!.
  - by rewrite E.
  - rewrite E. apply upsert_absent; [done | lia].
  - rewrite E, Hcases. destruct (ProjectList.findAllocation _ _ _ _); [|done].
    by intros a [_ ?]%list_elem_of_filter.
  - apply (run_percentages (λ v, 0 ≤ v)); [lia | done].
Qed.

Lemma negative_entry_deletes_witness :
  Js.parseInt (ProjectList.editValue (Example.editing "-20")) = Some (-20)
  ∧ ProjectList.allocations
      (ProjectList.saveEditing "u1" (Example.editing "-20"))
    = [ Allocation.mk "a1" "1" "1" "2025-01" 100;
        Allocation.mk "a3" "2" "2" "2025-01" 80;
        Allocation.mk "a4" "1" "2" "2025-02" 50 ].
Proof.
  split; [reflexivity|].
  assert (Hk : Spec.uniqueKeys
                 (ProjectList.allocations (Example.editing "-20"))).
  { apply (bool_decide_unpack _). vm_compute. exact I. }
  assert (Hpos : Forall (λ a, 0 ≤ Allocation.percentage a)
                   (ProjectList.allocations (Example.editing "-20"))).
  { apply (bool_decide_unpack _). vm_compute. exact I. }
  rewrite (proj1 (negative_entry_deletes (Example.editing "-20") "u1"
                    (Cell.mk "1" "2" "2025-01") (-20) []
                    eq_refl eq_refl eq_refl Hk Hpos)).
  reflexivity.
Defined.

(** ** Zero is absence *)



(** ** The click cycle *)

Section Clicks.
Implicit Types (st : ProjectList.State) (c : Cell.t).

Local Abbreviation ids s := (Allocation.id <$> s).
Local Abbreviation shown st c :=
  (ProjectList.cellPercentage (ProjectList.allocations st)
     (Cell.projectId c) (Cell.memberId c) (Cell.month c)).

Lemma clickCycle_positive v :
  (if 0 <? Spec.clickCycle v then Spec.clickCycle v else 0)
  = Spec.clickCycle v.
Proof. unfold Spec.clickCycle. by repeat destruct (decide _). Qed.

Lemma click_allocations st c u :
  ProjectList.allocations (ProjectList.run (Spec.click c u) st)
  = Spec.upsert (ProjectList.allocations st) u c
      (Spec.clickCycle (shown st c)).
Proof.
  destruct c as [p m mo]. unfold Spec.click, ProjectList.run. simpl.
  reflexivity.
Qed.

Lemma click_once st c u :
  Spec.uniqueKeys (ProjectList.allocations st) →
  shown (ProjectList.run (Spec.click c u) st) c = Spec.clickCycle (shown st c).
Proof.
  intros Hk. rewrite click_allocations, upsert_percentage by done.
  apply clickCycle_positive.
Qed.

Lemma draws_clicks c us : Spec.draws (Spec.clicks c us) = us.
Proof.
  induction us as [|u us IH]; [done|].
  change (Spec.clicks c (u :: us)) with (Spec.click c u ++ Spec.clicks c us).
  unfold Spec.draws in *. rewrite bind_app, IH. reflexivity.
Qed.

Lemma clicks_snoc c us u :
  Spec.clicks c (us ++ [u]) = Spec.clicks c us ++ Spec.click c u.
Proof. unfold Spec.clicks. rewrite bind_app. reflexivity. Qed.

Lemma clicks_iter st c us :
  Spec.uniqueKeys (ProjectList.allocations st) →
  Spec.fresh (ProjectList.allocations st) (Spec.clicks c us) →
  shown (ProjectList.run (Spec.clicks c us) st) c
  = Nat.iter (length us) Spec.clickCycle (shown st c).
Proof.
  intros Hk. induction us as [|u us IH] using rev_ind; intros Hf; [done|].
  rewrite clicks_snoc in *. rewrite run_app, length_app, Nat.add_comm. simpl.
  assert (Hf' : Spec.fresh (ProjectList.allocations st) (Spec.clicks c us)).
  { unfold Spec.fresh, Spec.draws in *. rewrite bind_app, app_assoc in Hf.
    by apply NoDup_app in Hf as [? _]. }
  rewrite <- IH by done. apply click_once.
  by apply run_wellFormed.
Qed.

Lemma clickCycle_period q r :
  (r < 3)%nat →
  Some (Nat.iter (3 * q + r) Spec.clickCycle 0) = [0; 100; 50] !! r.
Proof.
  intros Hr. induction q as [|q IH].
  - destruct r as [|[|[|r]]]; [done..|lia].
  - replace (3 * S q + r)%nat with (S (S (S (3 * q + r)))) by lia.
    rewrite !Nat.iter_succ, <- IH. f_equal.
    assert (Hv : Nat.iter (3 * q + r) Spec.clickCycle 0 ∈ [0; 100; 50]).
    { by apply list_elem_of_lookup_2 with r. }
    set (v := Nat.iter _ _ _) in *. clearbody v.
    apply elem_of_cons in Hv as [->|Hv]; [done|].
    apply elem_of_cons in Hv as [->|Hv]; [done|].
    by apply list_elem_of_singleton in Hv as ->.
Qed.

Lemma clickCycle_iter k :
  Some (Nat.iter k Spec.clickCycle 0) = [0; 100; 50] !! (k mod 3)%nat.
Proof.
  pose proof (clickCycle_period (k / 3) (k mod 3)) as H.
  rewrite <- (Nat.div_mod_eq k 3) in H. apply H.
  apply Nat.mod_upper_bound. lia.
Qed.
End Clicks.

(** C2: a click on a cell (pointer down and up on it) sets the cell to a
    value that depends on its current value only: 100 if it is 0, 50 if it
    is 100, and 0 otherwise; so the clicks on an empty cell show 0, 100, 50,
    0, 100, ... in this order. *)
Theorem click_cycle (st : ProjectList.State) (c : Cell.t)
    (uuids : list string) (k : nat) :
  let shown st :=
    ProjectList.cellPercentage (ProjectList.allocations st)
      (Cell.projectId c) (Cell.memberId c) (Cell.month c) in
  Spec.uniqueKeys (ProjectList.allocations st) →
  Spec.fresh (ProjectList.allocations st) (Spec.clicks c uuids) →
  (∀ u,
     shown (ProjectList.run (Spec.click c u) st)
     = (if decide (shown st = 0) then 100
        else if decide (shown st = 100) then 50 else 0))
  ∧ shown (ProjectList.run (Spec.clicks c (take k uuids)) st)
    = Nat.iter (length (take k uuids)) Spec.clickCycle (shown st)
  ∧ (shown st = 0 → (k ≤ length uuids)%nat →
     Some (shown (ProjectList.run (Spec.clicks c (take k uuids)) st))
     = [0; 100; 50] !! (k mod 3)%nat).
Proof.
  intros shown Hk Hf.
  assert (Hf' : Spec.fresh (ProjectList.allocations st)
                  (Spec.clicks c (take k uuids))).
  { unfold Spec.fresh in *. rewrite draws_clicks in *.
    rewrite <- (take_drop k uuids), app_assoc in Hf.
    by apply NoDup_app in Hf as [? _]. }
  split_and!.
  - intros u. by apply click_once.
  - by apply clicks_iter.
  - intros H0 Hle. unfold shown. rewrite clicks_iter by done.
    fold (shown st). rewrite H0, length_take, Nat.min_l by done.
    apply clickCycle_iter.
Qed.

Lemma click_cycle_witness :
  Spec.uniqueKeys (ProjectList.allocations ProjectList.initial)
  ∧ ProjectList.cellPercentage
      (ProjectList.allocations
         (ProjectList.run
            (Spec.clicks (Cell.mk "1" "1" "2025-01") ["u1"; "u2"; "u3"; "u4"])
            ProjectList.initial))
      "1" "1" "2025-01" = 100.
Proof.
  assert (Hk : Spec.uniqueKeys (ProjectList.allocations ProjectList.initial)).
  { apply (bool_decide_unpack _). vm_compute. exact I. }
  assert (Hf : Spec.fresh (ProjectList.allocations ProjectList.initial)
                 (Spec.clicks (Cell.mk "1" "1" "2025-01")
                    ["u1"; "u2"; "u3"; "u4"])).
  { apply (bool_decide_unpack _). vm_compute. exact I. }
  split; [exact Hk|].
  pose proof (proj2 (proj2 (click_cycle ProjectList.initial
                              (Cell.mk "1" "1" "2025-01")
                              ["u1"; "u2"; "u3"; "u4"] 4 Hk Hf))
                eq_refl (le_n 4)) as H.
  apply (inj Some). exact H.
Defined.

(** ** Drag gestures *)

Section Gestures.
Implicit Types (st : ProjectList.State) (c start : Cell.t).
Implicit Types (moves : list (Cell.t * (string * string))).

Local Abbreviation ids s := (Allocation.id <$> s).

Lemma paint_positive v :
  (if 0 <? Spec.paint v then Spec.paint v else 0) = Spec.paint v.
Proof. unfold Spec.paint. by destruct (decide _). Qed.

Lemma enters_snoc moves x :
  Spec.enters (moves ++ [x])
  = Spec.enters moves ++ [(ProjectList.MouseEnter x.1, x.2)].
Proof. unfold Spec.enters. by rewrite fmap_app. Qed.

Lemma gesture_snoc start moves x :
  Spec.gesture start (moves ++ [x])
  = Spec.gesture start moves ++ [(ProjectList.MouseEnter x.1, x.2)].
Proof. unfold Spec.gesture. by rewrite enters_snoc. Qed.

Lemma onCell_onRow p m mo a :
  Spec.onCell (Cell.mk p m mo) a → Spec.onRow p m a.
Proof. by intros (? & ? & _). Qed.

Lemma upsert_shown s u p m mo v :
  Spec.uniqueKeys s →
  ProjectList.cellPercentage (Spec.upsert s u (Cell.mk p m mo) v) p m mo
  = (if 0 <? v then v else 0).
Proof. apply (upsert_percentage s u (Cell.mk p m mo) v). Qed.

Lemma upsert_shown_other s u c v p m mo :
  Spec.uniqueIds s → Cell.mk p m mo ≠ c →
  ProjectList.cellPercentage (Spec.upsert s u c v) p m mo
  = ProjectList.cellPercentage s p m mo.
Proof. apply (upsert_percentage_other s u c v (Cell.mk p m mo)). Qed.

(** The invariant of a gesture holds after the pointer went down and
    entered any cells. *)
Lemma gesture_invariant st start moves :
  let s0 := ProjectList.allocations st in
  let st' := ProjectList.run (Spec.gesture start moves) st in
  Spec.uniqueKeys s0 →
  Spec.fresh s0 (Spec.gesture start moves) →
  Spec.gestureInv s0 start (moves.*1) st'
  ∧ Spec.wellFormed (ProjectList.allocations st').
Proof.
  intros s0 st' Hk. subst st'.
  induction moves as [|[c [u1 u2]] moves IH] using rev_ind; intros Hf.
  - (* the pointer went down *)
    destruct start as [p m mo0]. unfold Spec.gesture, ProjectList.run. simpl.
    unfold ProjectList.step. simpl. fold s0.
    split.
    + unfold Spec.gestureInv. simpl. fold s0. split_and!; try done.
      intros _. split_and!; [done..|].
      intros mo Hin. by apply not_elem_of_nil in Hin.
    + unfold Spec.fresh in Hf. simpl in Hf. rewrite app_nil_r in Hf.
      by split.
  - rewrite gesture_snoc in *. rewrite run_snoc.
    assert (Hf' : Spec.fresh s0 (Spec.gesture start moves)).
    { unfold Spec.fresh in *. rewrite draws_snoc, app_assoc in Hf.
      by apply NoDup_app in Hf as [? _]. }
    destruct (IH Hf') as [Hinv Hwf].
    destruct (run_wellFormed (Spec.gesture start moves) st Hk Hf')
      as [_ Hsub].
    set (st1 := ProjectList.run (Spec.gesture start moves) st) in *.
    set (s1 := ProjectList.allocations st1) in *.
    (* the identifiers drawn by this event are new *)
    assert (Hnew : NoDup (ids s1 ++ [u1; u2])).
    { unfold Spec.fresh in Hf. rewrite draws_snoc, app_assoc in Hf.
      eapply NoDup_app_shrink; [apply Hwf | exact Hsub | exact Hf]. }
    apply NoDup_app in Hnew as (_ & Hdisj & Hu12).
    assert (Hu1 : u1 ∉ ids s1) by (intros H; apply (Hdisj u1 H); left).
    assert (Hu2 : u2 ∉ ids s1)
      by (intros H; apply (Hdisj u2 H); right; left).
    apply NoDup_cons in Hu12 as [Hu12 _].
    assert (Hne12 : u2 ≠ u1) by (intros ->; apply Hu12; left).
    clear Hdisj Hu12 IH Hf Hf' Hsub.
    rewrite fmap_app. simpl.
    destruct start as [p m mo0]. destruct c as [p' m' mo].
    unfold ProjectList.step, ProjectList.dispatch. cbn [fst snd].
    unfold Spec.gestureInv in *. cbn [Cell.projectId Cell.memberId Cell.month] in *.
    fold s1 in Hinv |- *.
    set (P := Spec.paint (ProjectList.cellPercentage s0 p m mo0)) in *.
    set (d := ProjectList.dragState st1) in *.
    destruct Hinv as ((Hact & Hp & Hm & Hst & HP) & Hstill & Hmoved & Hval & Hrows).
    destruct Hwf as [Hid1 Hk1].
    destruct (decide (p' = p ∧ m' = m)) as [[-> ->]|Hrow].
    2:{ (* another row: nothing happens *)
      rewrite mouseEnter_other_row.
      2:{ fold d. rewrite Hp, Hm.
          destruct (decide (p' = p)) as [->|Hpp]; [right | left; congruence].
          intros ->. by apply Hrow. }
      fold s1 d. split; [|done]. split_and!; try done.
      - intros Hmv. destruct (Hstill Hmv) as (? & ? & Hent).
        split_and!; [done..|]. intros mo1 [Hin|Hin]%elem_of_app; [auto|].
        apply list_elem_of_singleton in Hin. injection Hin as -> -> ->.
        by destruct Hrow.
      - intros Hmv. destruct (Hmoved Hmv) as ((mo1 & Hin & Hne) & Hkeys).
        split.
        + exists mo1. split; [|done]. apply elem_of_app. by left.
        + intros mo2 [->|[Hin2|Hin2]%elem_of_app]; [auto..|].
          apply list_elem_of_singleton in Hin2. injection Hin2 as -> -> ->.
          by destruct Hrow. }
    destruct (Drag.hasMoved d) eqn:Hmv.
    + (* the pointer has moved before *)
      destruct (Hmoved eq_refl) as ((mo1 & Hin1 & Hne1) & Hkeys).
      destruct (decide (ProjectList.cellKey p m mo ∈ Drag.paintedCells d))
        as [Hkey|Hkey].
      * (* a painted cell is entered again *)
        rewrite mouseEnter_repaint by done. fold s1 d. rewrite Hmv.
        split; [|done]. split_and!; try done.
        intros _. split.
        -- exists mo1. split; [|done]. apply elem_of_app. by left.
        -- intros mo2 [->|[Hin2|Hin2]%elem_of_app]; [auto..|].
           apply list_elem_of_singleton in Hin2. by injection Hin2 as ->.
      * (* a new cell of the row is painted *)
        rewrite mouseEnter_paint by done. fold s1 d. simpl. rewrite Hmv, HP.
        split; [|by apply upsert_wellFormed].
        split_and!; try done.
        -- intros _. split.
           ++ exists mo1. split; [|done]. apply elem_of_app. by left.
           ++ intros mo2 Hmo2. apply elem_of_union.
              destruct Hmo2 as [->|[Hin2|Hin2]%elem_of_app]; [auto..|].
              apply list_elem_of_singleton in Hin2. injection Hin2 as ->.
              left. by apply elem_of_singleton.
        -- intros mo2 [E%elem_of_singleton|Hin]%elem_of_union.
           ++ apply cellKey_inj in E as ->.
              rewrite upsert_shown by done. apply paint_positive.
           ++ rewrite upsert_shown_other; [auto | done |].
              intros [= ->]. done.
        -- rewrite <- Hrows. apply upsert_frame; [done|].
           intros a Hn Hc. apply Hn. by eapply onCell_onRow.
    + destruct (Hstill eq_refl) as (Hempty & Hs1 & Hent).
      destruct (decide (mo = mo0)) as [->|Hmo].
      * (* the start cell is entered: nothing happens *)
        rewrite mouseEnter_start_cell by (fold d; done). fold s1 d.
        rewrite Hmv. split; [|done]. split_and!; try done.
        intros _. split_and!; [done..|].
        intros mo1 [Hin|Hin]%elem_of_app; [auto|].
        apply list_elem_of_singleton in Hin. by injection Hin as ->.
      * (* the first movement: the start cell, then the entered cell *)
        rewrite mouseEnter_first_move; try (fold d; done);
          [|fold d; by rewrite Hst].
        fold s1 d. simpl. rewrite Hst, HP.
        set (s2 := Spec.upsert s1 u1 (Cell.mk p m mo0) P).
        assert (Hwf2 : Spec.wellFormed s2) by by apply upsert_wellFormed.
        assert (Hu2' : u2 ∉ ids s2).
        { intros [->|Hx]%upsert_ids%elem_of_cons; done. }
        split; [|by apply upsert_wellFormed].
        split_and!; try done.
        -- intros _. split.
           ++ exists mo. split; [|done]. apply elem_of_app. right.
              by apply list_elem_of_singleton.
           ++ intros mo2 Hmo2.
              assert (Hcase : mo2 = mo0 ∨ mo2 = mo).
              { destruct Hmo2 as [->|[Hin2|Hin2]%elem_of_app]; [auto..|].
                apply list_elem_of_singleton in Hin2. injection Hin2 as ->.
                by right. }
              apply elem_of_union. destruct Hcase as [->| ->].
              ** right. apply elem_of_union. left. by apply elem_of_singleton.
              ** left. by apply elem_of_singleton.
        -- intros mo2 [E%elem_of_singleton|[E%elem_of_singleton|Hin]%elem_of_union]%elem_of_union.
           ++ apply cellKey_inj in E as ->.
              rewrite upsert_shown by apply Hwf2. apply paint_positive.
           ++ apply cellKey_inj in E as ->.
              rewrite upsert_shown_other; [|apply Hwf2|congruence].
              unfold s2. rewrite upsert_shown by done.
              apply paint_positive.
           ++ by apply not_elem_of_empty in Hin.
        -- rewrite <- Hrows.
           rewrite upsert_frame; [|apply Hwf2|].
           ++ apply upsert_frame; [done|].
              intros a Hn Hc. apply Hn. by eapply onCell_onRow.
           ++ intros a Hn Hc. apply Hn. by eapply onCell_onRow.
Qed.
End Gestures.

(** C1: the paint value of a drag is fixed when the pointer goes down: 100
    if the start cell shows 0, else 0.  If the pointer then enters another
    cell of the row, the start cell and every cell of the row it has entered
    show the paint value, before and after the release, wherever the
    release is, and entering one of them again changes nothing; if it enters
    no other cell of the row, nothing is written before the release, and a
    release on the start cell is a click. *)
Theorem drag_paint_gesture (st : ProjectList.State) (start : Cell.t)
    (moves : list (Cell.t * (string * string))) :
  let s0 := ProjectList.allocations st in
  let p := Cell.projectId start in
  let m := Cell.memberId start in
  let mo0 := Cell.month start in
  let V := ProjectList.cellPercentage s0 p m mo0 in
  let P := if decide (V = 0) then 100 else 0 in
  let st' := ProjectList.run (Spec.gesture start moves) st in
  Spec.uniqueKeys s0 →
  Spec.fresh s0 (Spec.gesture start moves) →
  Drag.paintValue (ProjectList.dragState st') = P
  ∧ ((∃ mo, Cell.mk p m mo ∈ moves.*1 ∧ mo ≠ mo0) →
     ∀ mo, mo = mo0 ∨ Cell.mk p m mo ∈ moves.*1 →
       ProjectList.cellPercentage (ProjectList.allocations st') p m mo = P
       ∧ (∀ c u1 u2,
            ProjectList.cellPercentage
              (ProjectList.allocations
                 (ProjectList.step st' (ProjectList.MouseUp c, (u1, u2))))
              p m mo = P)
       ∧ (∀ u1 u2,
            ProjectList.cellPercentage
              (ProjectList.allocations
                 (ProjectList.step st' (ProjectList.MouseUpOutside, (u1, u2))))
              p m mo = P)
       ∧ (∀ u1 u2,
            ProjectList.step st'
              (ProjectList.MouseEnter (Cell.mk p m mo), (u1, u2)) = st'))
  ∧ ((∀ mo, Cell.mk p m mo ∈ moves.*1 → mo = mo0) →
     ProjectList.allocations st' = s0
     ∧ ∀ u1 u2,
         ProjectList.cellPercentage
           (ProjectList.allocations
              (ProjectList.step st' (ProjectList.MouseUp start, (u1, u2))))
           p m mo0
         = Spec.clickCycle V).
Proof.
  intros s0 p m mo0 V P st' Hk Hf.
  destruct (gesture_invariant st start moves Hk Hf) as [Hinv Hwf].
  fold s0 st' in Hinv, Hwf. unfold Spec.gestureInv in Hinv.
  fold p m mo0 V in Hinv. change (Spec.paint V) with P in Hinv.
  destruct Hinv as ((Hact & Hp & Hm & Hst & HP) & Hstill & Hmoved & Hval & _).
  split_and!.
  - done.
  - intros (mo1 & Hin1 & Hne1) mo Hmo.
    assert (Hmv : Drag.hasMoved (ProjectList.dragState st') = true).
    { destruct (Drag.hasMoved _) eqn:E; [done|].
      destruct (Hstill eq_refl) as (_ & _ & Hent). by destruct (Hne1 (Hent _ Hin1)). }
    destruct (Hmoved Hmv) as [_ Hkeys].
    assert (Hshown : ProjectList.cellPercentage (ProjectList.allocations st')
                       p m mo = P) by by apply Hval, Hkeys.
    split_and!.
    + done.
    + intros [p' m' mo'] u1 u2. unfold ProjectList.step, ProjectList.dispatch.
      cbn [fst snd]. rewrite globalMouseUp_allocations, mouseUp_allocations.
      by rewrite Hact, Hmv.
    + intros u1 u2. unfold ProjectList.step, ProjectList.dispatch.
      cbn [fst snd]. by rewrite globalMouseUp_allocations.
    + intros u1 u2. unfold ProjectList.step, ProjectList.dispatch.
      cbn [fst snd]. apply mouseEnter_repaint; [done|]. by apply Hkeys.
  - intros Hent.
    assert (Hmv : Drag.hasMoved (ProjectList.dragState st') = false).
    { destruct (Drag.hasMoved _) eqn:E; [|done].
      destruct (Hmoved eq_refl) as [(mo1 & Hin1 & Hne1) _].
      by destruct (Hne1 (Hent _ Hin1)). }
    destruct (Hstill Hmv) as (_ & Hs & _). split; [done|].
    intros u1 u2. unfold ProjectList.step, ProjectList.dispatch.
    destruct start as [p0 m0 mo00]. cbn [fst snd].
    rewrite globalMouseUp_allocations, mouseUp_allocations.
    rewrite Hact, Hmv, Hs. simpl.
    change (ProjectList.cellPercentage s0 p0 m0 mo00) with V.
    rewrite upsert_shown by done. apply clickCycle_positive.
Qed.

Lemma drag_paint_gesture_witness :
  Spec.uniqueKeys (ProjectList.allocations Example.state)
  ∧ Spec.fresh (ProjectList.allocations Example.state)
      (Spec.gesture Example.dragStart Example.dragMoves)
  ∧ ProjectList.cellPercentage
      (ProjectList.allocations
         (ProjectList.run (Spec.gesture Example.dragStart Example.dragMoves)
            Example.state))
      "2" "1" "2025-03" = 100.
Proof.
  assert (Hk : Spec.uniqueKeys (ProjectList.allocations Example.state)).
  { apply (bool_decide_unpack _). vm_compute. exact I. }
  assert (Hf : Spec.fresh (ProjectList.allocations Example.state)
                 (Spec.gesture Example.dragStart Example.dragMoves)).
  { apply (bool_decide_unpack _). vm_compute. exact I. }
  split_and!; [exact Hk | exact Hf |].
  apply (proj1 (proj2 (drag_paint_gesture Example.state Example.dragStart
                         Example.dragMoves Hk Hf))).
  - exists "2025-02". split; [|done]. apply (bool_decide_unpack _).
    vm_compute. exact I.
  - right. apply (bool_decide_unpack _). vm_compute. exact I.
Defined.

(** The store after the drag of the example. *)
Example drag_paint_example :
  ProjectList.allocations
    (ProjectList.run
       (Spec.gesture Example.dragStart Example.dragMoves
          ++ [(ProjectList.MouseUp (Cell.mk "2" "1" "2025-02"), ("u9", ""))])
       Example.state)
  = Example.allocations
      ++ [ Allocation.mk "u1" "2" "1" "2025-01" 100;
           Allocation.mk "u2" "2" "1" "2025-02" 100;
           Allocation.mk "u6" "2" "1" "2025-03" 100 ].
Proof. by vm_compute. Qed.

(** During a drag the records of the other rows are kept: a pointer that
    enters a cell of another row writes nothing. *)
Lemma drag_enters_keep_other_rows (st : ProjectList.State) (start : Cell.t)
    (moves : list (Cell.t * (string * string))) :
  let s0 := ProjectList.allocations st in
  let st' := ProjectList.run (Spec.gesture start moves) st in
  Spec.uniqueKeys s0 →
  Spec.fresh s0 (Spec.gesture start moves) →
  filter (λ a, ¬ Spec.onRow (Cell.projectId start) (Cell.memberId start) a)
    (ProjectList.allocations st')
  = filter (λ a, ¬ Spec.onRow (Cell.projectId start) (Cell.memberId start) a)
      s0
  ∧ ∀ c u1 u2,
      (Cell.projectId c ≠ Cell.projectId start
       ∨ Cell.memberId c ≠ Cell.memberId start) →
      ProjectList.step st' (ProjectList.MouseEnter c, (u1, u2)) = st'.
Proof.
  intros s0 st' Hk Hf.
  destruct (gesture_invariant st start moves Hk Hf) as [Hinv _].
  fold s0 st' in Hinv.
  destruct Hinv as ((_ & Hp & Hm & _) & _ & _ & _ & Hrows).
  split; [done|]. intros [p m mo] u1 u2 Hrow.
  unfold ProjectList.step, ProjectList.dispatch. cbn [fst snd].
  apply mouseEnter_other_row. rewrite Hp, Hm. simpl in Hrow.
  destruct Hrow; [left | right]; congruence.
Qed.

(** C5 fails at a release on another row: the pointer goes down on the row
    of member 1 on project 1, moves to the cell of member 2 below it and is
    released there; the pointer never moved within the start row, so
    [hasMoved] is still false and the release is taken for a click on the
    cell below, whose record (50) is deleted. *)
Theorem release_on_another_row_cycles_it :
  ProjectList.cellPercentage (ProjectList.allocations Example.state)
    "1" "2" "2025-01" = 50
  ∧ ProjectList.allocations
      (ProjectList.run Example.releaseBelow Example.state)
    = [ Allocation.mk "a1" "1" "1" "2025-01" 100;
        Allocation.mk "a3" "2" "2" "2025-01" 80;
        Allocation.mk "a4" "1" "2" "2025-02" 50 ]
  ∧ Allocation.mk "a2" "1" "2" "2025-01" 50
    ∈ ProjectList.allocations Example.state
  ∧ ¬ Spec.onRow "1" "1" (Allocation.mk "a2" "1" "2" "2025-01" 50).
Proof.
  split_and!; [by vm_compute | by vm_compute | |].
  - apply (bool_decide_unpack _). vm_compute. exact I.
  - intros [_ [=]].
Qed.

(** ** Totals per person and month, and over-allocation *)

Section OverAllocation.
Context {F : Type}.
Implicit Types (context : GeminiService.AnalysisContext F).

Lemma foldl_sum {A : Type} (f : A → Z) (l : list A) (z : Z) :
  foldl (λ sum a, sum + f a) z l = z + foldr Z.add 0 (f <$> l).
Proof.
  revert z. induction l as [|x l IH]; intros z; [simpl; lia|].
  rewrite fmap_cons. cbn [foldl foldr]. rewrite IH. lia.
Qed.

Lemma totalAlloc_sum context member month :
  GeminiService.totalAlloc context member month
  = Spec.personMonthTotal (GeminiService.allocations context)
      (TeamMember.id member) month.
Proof.
  unfold GeminiService.totalAlloc, Spec.personMonthTotal.
  by rewrite foldl_sum.
Qed.

Lemma distinct_elem (seen : gset string) (l : list string) (x : string) :
  x ∈ Js.distinct seen l ↔ x ∈ l ∧ x ∉ seen.
Proof.
  revert seen. induction l as [|y l IH]; intros seen; simpl.
  - split; [by intros ?%not_elem_of_nil | by intros [?%not_elem_of_nil _]].
  - destruct (decide (y ∈ seen)) as [Hy|Hy].
    + rewrite IH, elem_of_cons. split; [tauto|].
      intros [[->|Hx] Hn]; [done | tauto].
    + rewrite elem_of_cons, IH, elem_of_cons, elem_of_union,
        elem_of_singleton.
      split.
      * intros [->|[Hx Hn]]; [tauto|]. split; [tauto|]. tauto.
      * intros [[->|Hx] Hn]; [tauto|].
        destruct (decide (x = y)) as [->|Hne]; [tauto|]. right. tauto.
Qed.

Lemma sortedDistinct_elem (l : list string) (x : string) :
  x ∈ Js.sortedDistinct l ↔ x ∈ l.
Proof.
  unfold Js.sortedDistinct. rewrite merge_sort_Permutation, distinct_elem.
  split; [tauto|]. intros Hx. split; [done|]. apply not_elem_of_empty.
Qed.

Lemma distinct_NoDup (seen : gset string) (l : list string) :
  NoDup (Js.distinct seen l).
Proof.
  revert seen. induction l as [|x l IH]; intros seen; simpl; [constructor|].
  destruct (decide (x ∈ seen)); [apply IH|].
  apply NoDup_cons. split; [|apply IH].
  rewrite distinct_elem. intros [_ Hn]. apply Hn.
  apply elem_of_union. left. by apply elem_of_singleton.
Qed.

Lemma sortedDistinct_NoDup (l : list string) : NoDup (Js.sortedDistinct l).
Proof.
  unfold Js.sortedDistinct. rewrite merge_sort_Permutation.
  apply distinct_NoDup.
Qed.

Lemma uniqueMonths_elem context month :
  month ∈ GeminiService.uniqueMonths context
  ↔ ∃ a, a ∈ GeminiService.allocations context ∧ Allocation.month a = month.
Proof.
  unfold GeminiService.uniqueMonths.
  rewrite sortedDistinct_elem, list_elem_of_fmap.
  split; intros (a & H1 & H2); exists a; done.
Qed.




Lemma overAllocated_elem context member month total :
  (member, month, total) ∈ Spec.overAllocated context
  ↔ member ∈ GeminiService.members context
    ∧ total = Spec.personMonthTotal (GeminiService.allocations context)
                (TeamMember.id member) month
    ∧ 100 < total.
Proof.
  unfold Spec.overAllocated. rewrite list_elem_of_bind. split.
  - intros (member' & (month' & Hin & Hmonth)%list_elem_of_bind & Hmember).
    destruct (100 <? _) eqn:E.
    + apply list_elem_of_singleton in Hin. injection Hin as -> -> ->.
      apply Z.ltb_lt in E. done.
    + by apply not_elem_of_nil in Hin.
  - intros (Hmember & -> & Hover).
    exists member. split; [|done]. apply list_elem_of_bind.
    exists month. split.
    + apply Z.ltb_lt in Hover. rewrite Hover. by apply list_elem_of_singleton.
    + apply sortedDistinct_elem.
      unfold Spec.personMonthTotal in Hover.
      destruct (filter _ (GeminiService.allocations context)) as [|a l] eqn:E;
        [simpl in Hover; lia|].
      assert (Ha : a ∈ filter (λ a, Allocation.memberId a = TeamMember.id member
                                    ∧ Allocation.month a = month)
                     (GeminiService.allocations context))
        by (rewrite E; left).
      apply list_elem_of_filter in Ha as [[_ <-] Ha].
      by apply list_elem_of_fmap_2.
Qed.

End OverAllocation.



(** The findings on the demonstration data: member 2 is at 50 + 100 in
    April 2024. *)
Example overAllocations_example :
  GeminiService.uniqueMonths Example.context = ["2024-02"; "2024-04"]
  ∧ GeminiService.overAllocations Example.context
    = ["Mike Ross is at 150% in 2024-04"].
Proof. by vm_compute. Qed.


(** ** Costs *)

Section Costs.
Context {F : Type} `{Arith F}.
Implicit Types (members : list TeamMember.t) (roles : list (Role.t F)).
Implicit Types (a : Allocation.t) (l : list Allocation.t).

Lemma find_ext {A : Type} (P Q : A → Prop) `{∀ x, Decision (P x)}
    `{∀ x, Decision (Q x)} (l : list A) :
  (∀ x, P x ↔ Q x) → Js.find P l = Js.find Q l.
Proof.
  intros HPQ. induction l as [|x l IH]; [done|]. simpl.
  destruct (decide (P x)) as [Hp|Hp].
  - by rewrite decide_True by by apply HPQ.
  - rewrite decide_False; [done|]. by rewrite <- HPQ.
Qed.

(** The reducer of [calculateProjectTotal] adds the contribution of the
    allocation, if it has one. *)
Lemma projectList_addCost members roles (sum : F) a :
  ProjectList.addCost members roles sum a
  = match Spec.contribution members roles a with
    | Some x => add sum x
    | None => sum
    end.
Proof.
  unfold ProjectList.addCost, Spec.contribution.
  destruct (Js.find _ members) as [mem|]; simpl.
  - rewrite (find_ext _ (λ r, Role.id r = TeamMember.roleId mem)).
    + by destruct (Js.find _ roles).
    + intros r. split; [by intros [= ->] | by intros ->].
  - done.
Qed.

Lemma dashboard_addCost members roles (totalCost : F) a :
  Dashboard.addCost members roles
    (Utils.getBusinessHoursInMonth (Allocation.month a)) totalCost a
  = match Spec.contribution members roles a with
    | Some x => add totalCost x
    | None => totalCost
    end.
Proof.
  unfold Dashboard.addCost, Spec.contribution.
  destruct (Js.find _ members) as [mem|]; simpl; [|done].
  by destruct (Js.find _ roles).
Qed.

Lemma foldl_contributions (step : F → Allocation.t → F) members roles l z :
  (∀ sum a, a ∈ l →
     step sum a = match Spec.contribution members roles a with
                  | Some x => add sum x
                  | None => sum
                  end) →
  foldl step z l = foldl add z (omap (Spec.contribution members roles) l).
Proof.
  revert z. induction l as [|a l IH]; intros z Hstep; [done|].
  cbn [foldl omap list_omap]. rewrite Hstep by left.
  destruct (Spec.contribution members roles a); simpl;
    apply IH; intros; apply Hstep; by right.
Qed.

Lemma calculateProjectTotal_sum l members roles projId :
  ProjectList.calculateProjectTotal l members roles projId
  = foldl add (of_Z 0)
      (omap (Spec.contribution members roles)
         (filter (λ a, Allocation.projectId a = projId) l)).
Proof.
  apply foldl_contributions. intros. apply projectList_addCost.
Qed.

Lemma monthCost_sum l members roles month :
  Dashboard.monthCost l members roles month
  = foldl add (of_Z 0)
      (omap (Spec.contribution members roles)
         (filter (λ a, Allocation.month a = month) l)).
Proof.
  apply foldl_contributions.
  intros sum a [<- _]%list_elem_of_filter. apply dashboard_addCost.
Qed.
End Costs.

(** C9: the cost of a project and the cost of a month are the contributions
    of their allocations, added from left to right; an allocation whose
    member is not in the team, or whose member's role is not among the
    roles, has no contribution, so that the totals are those of the store
    without it; one whose member and role resolve contributes the hours of
    its month, times its percentage over 100, times the hourly rate of the
    role.  The functions are total. *)
Theorem dangling_references_contribute_nothing {F : Type} `{Arith F}
    (getMonthName : string → string) (allocations : list Allocation.t)
    (members : list TeamMember.t) (roles : list (Role.t F)) :
  (∀ projId,
     ProjectList.calculateProjectTotal allocations members roles projId
     = foldl add (of_Z 0)
         (omap (Spec.contribution members roles)
            (filter (λ a, Allocation.projectId a = projId) allocations)))
  ∧ Dashboard.financialData getMonthName allocations members roles
    = (λ month,
         let cost :=
           foldl add (of_Z 0)
             (omap (Spec.contribution members roles)
                (filter (λ a, Allocation.month a = month) allocations)) in
         Dashboard.mkMonthly (getMonthName month) cost
           (mul cost (div (of_Z 13) (of_Z 10)))
           (Utils.getBusinessHoursInMonth month))
      <$> Js.sortedDistinct (Allocation.month <$> allocations)
  ∧ (∀ a,
       Js.find (λ m, TeamMember.id m = Allocation.memberId a) members = None →
       Spec.contribution members roles a = None)
  ∧ (∀ a member,
       Js.find (λ m, TeamMember.id m = Allocation.memberId a) members
       = Some member →
       Js.find (λ r, Role.id r = TeamMember.roleId member) roles = None →
       Spec.contribution members roles a = None)
  ∧ (∀ a member role,
       Js.find (λ m, TeamMember.id m = Allocation.memberId a) members
       = Some member →
       Js.find (λ r, Role.id r = TeamMember.roleId member) roles = Some role →
       Spec.contribution members roles a
       = Some (mul (mul (of_Z (Utils.getBusinessHoursInMonth
                                 (Allocation.month a)))
                        (div (of_Z (Allocation.percentage a)) (of_Z 100)))
                   (Role.defaultHourlyRate role)))
  ∧ (∀ l1 l2 a projId month,
       Spec.contribution members roles a = None →
       ProjectList.calculateProjectTotal (l1 ++ a :: l2) members roles projId
       = ProjectList.calculateProjectTotal (l1 ++ l2) members roles projId
       ∧ Dashboard.monthCost (l1 ++ a :: l2) members roles month
         = Dashboard.monthCost (l1 ++ l2) members roles month)
  ∧ (∀ l a x,
       Spec.contribution members roles a = Some x →
       ProjectList.calculateProjectTotal (l ++ [a]) members roles
         (Allocation.projectId a)
       = add (ProjectList.calculateProjectTotal l members roles
                (Allocation.projectId a)) x
       ∧ Dashboard.monthCost (l ++ [a]) members roles (Allocation.month a)
         = add (Dashboard.monthCost l members roles (Allocation.month a)) x).
Proof.
  split_and!.
  - intros projId. apply calculateProjectTotal_sum.
  - unfold Dashboard.financialData. apply list_fmap_ext.
    intros i month _. by rewrite monthCost_sum.
  - intros a Hm. unfold Spec.contribution. by rewrite Hm.
  - intros a member Hm Hr. unfold Spec.contribution. rewrite Hm. simpl.
    by rewrite Hr.
  - intros a member role Hm Hr. unfold Spec.contribution. rewrite Hm. simpl.
    by rewrite Hr.
  - intros l1 l2 a projId month Hnone.
    rewrite !calculateProjectTotal_sum, !monthCost_sum.
    rewrite !filter_app, !filter_cons, !omap_app.
    split.
    + destruct (decide (Allocation.projectId a = projId)); [|done].
      cbn [omap list_omap]. by rewrite Hnone.
    + destruct (decide (Allocation.month a = month)); [|done].
      cbn [omap list_omap]. by rewrite Hnone.
  - intros l a x Hsome.
    rewrite !calculateProjectTotal_sum, !monthCost_sum.
    rewrite !filter_app, !filter_cons, !decide_True, !omap_app by done.
    cbn [filter list_filter omap list_omap]. rewrite Hsome.
    by rewrite !foldl_app.
Qed.

Lemma dangling_references_contribute_nothing_witness :
  Js.find (λ m, TeamMember.id m = "5") Example.members = None
  ∧ Spec.contribution Example.members Example.roles
      (Allocation.mk "a4" "1" "5" "2024-02" 100) = None.
Proof.
  split; [reflexivity|].
  apply (proj1 (proj2 (proj2 (dangling_references_contribute_nothing
                                (λ month, month) Example.staffing
                                Example.members Example.roles)))).
  reflexivity.
Defined.

(** The cost of project 1 on the demonstration data: 176 hours in April
    2024, member 1 at 100% and 150 an hour, member 2 at 50% and 160 an hour;
    the allocations of member 4, whose role is gone, and of member 5, who is
    gone, add nothing. *)
Example calculateProjectTotal_example :
  Qred (ProjectList.calculateProjectTotal Example.staffing Example.members
          Example.roles "1") = inject_Z 40480
  ∧ Qred <$> (Dashboard.cost <$>
                Dashboard.financialData (λ month, month) Example.staffing
                  Example.members Example.roles)
    = [inject_Z 8064; inject_Z 68640].
Proof. by vm_compute. Qed.

(** ** The calendar of [Date] *)

Section Calendar.
Implicit Types (y mi d dy k n : Z).

Lemma DaysInYear_leap y :
  (JsDate.DaysInYear y =? 366) = Spec.isLeapYear y.
Proof.
  unfold JsDate.DaysInYear, Spec.isLeapYear.
  by destruct (y mod 4 =? 0), (y mod 100 =? 0), (y mod 400 =? 0).
Qed.

Lemma DaysInYear_cases y :
  JsDate.DaysInYear y = if Spec.isLeapYear y then 366 else 365.
Proof.
  unfold JsDate.DaysInYear, Spec.isLeapYear.
  by destruct (y mod 4 =? 0), (y mod 100 =? 0), (y mod 400 =? 0).
Qed.

Lemma DayFromYear_succ y :
  JsDate.DayFromYear (y + 1) = JsDate.DayFromYear y + JsDate.DaysInYear y.
Proof.
  unfold JsDate.DayFromYear, JsDate.DaysInYear.
  destruct (Z.eqb_spec (y mod 4) 0), (Z.eqb_spec (y mod 100) 0),
    (Z.eqb_spec (y mod 400) 0); simpl; Z.div_mod_to_equations; lia.
Qed.

(** [YearFromDay] returns the year the day lies in. *)
Lemma YearFromDay_unique d y :
  JsDate.DayFromYear y ≤ d < JsDate.DayFromYear (y + 1) →
  JsDate.YearFromDay d = y.
Proof.
  intros Hd. unfold JsDate.YearFromDay.
  set (y0 := 1970 + 400 * d / 146097).
  assert (Hy0 : y - 1 ≤ y0 ≤ y + 1).
  { unfold y0, JsDate.DayFromYear in *. Z.div_mod_to_equations. lia. }
  assert (H1 := DayFromYear_succ y). assert (H2 := DayFromYear_succ (y - 1)).
  assert (H3 := DayFromYear_succ (y + 1)).
  replace (y - 1 + 1) with y in H2 by lia.
  rewrite DaysInYear_cases in H1, H2, H3.
  destruct (Spec.isLeapYear y), (Spec.isLeapYear (y - 1)),
    (Spec.isLeapYear (y + 1));
    (assert (Hc : y0 = y - 1 ∨ y0 = y ∨ y0 = y + 1) by lia);
    clearbody y0; destruct Hc as [-> | [-> | ->]];
    try replace (y - 1 + 1) with y by lia;
    repeat match goal with
      | |- context [?a <? ?b] => destruct (Z.ltb_spec a b); try lia
      | |- context [?a <=? ?b] => destruct (Z.leb_spec a b); try lia
      end.
Qed.

Lemma YearFromDay_spec d :
  JsDate.DayFromYear (JsDate.YearFromDay d) ≤ d
  < JsDate.DayFromYear (JsDate.YearFromDay d + 1).
Proof.
  unfold JsDate.YearFromDay.
  set (y0 := 1970 + 400 * d / 146097).
  assert (Hlo : JsDate.DayFromYear (y0 - 1) ≤ d).
  { unfold y0, JsDate.DayFromYear. Z.div_mod_to_equations. lia. }
  assert (Hhi : d < JsDate.DayFromYear (y0 + 2)).
  { unfold y0, JsDate.DayFromYear. Z.div_mod_to_equations. lia. }
  clearbody y0.
  destruct (Z.ltb_spec d (JsDate.DayFromYear y0)).
  { replace (y0 - 1 + 1) with y0 by lia. lia. }
  destruct (Z.leb_spec (JsDate.DayFromYear (y0 + 1)) d); [|lia].
  replace (y0 + 1 + 1) with (y0 + 2) by lia. lia.
Qed.

(** The day [dy] of year [y]. *)
Lemma day_of_year y dy :
  0 ≤ dy < JsDate.DaysInYear y →
  JsDate.YearFromDay (JsDate.DayFromYear y + dy) = y
  ∧ JsDate.DayWithinYear (JsDate.DayFromYear y + dy) = dy
  ∧ JsDate.InLeapYear (JsDate.DayFromYear y + dy)
    = (if Spec.isLeapYear y then 1 else 0).
Proof.
  intros Hdy.
  assert (E : JsDate.YearFromDay (JsDate.DayFromYear y + dy) = y).
  { apply YearFromDay_unique. rewrite DayFromYear_succ. lia. }
  unfold JsDate.DayWithinYear, JsDate.InLeapYear.
  rewrite E, DaysInYear_leap. split_and!; [done | lia | done].
Qed.

Lemma month_cases mi :
  0 ≤ mi ≤ 11 →
  mi = 0 ∨ mi = 1 ∨ mi = 2 ∨ mi = 3 ∨ mi = 4 ∨ mi = 5 ∨ mi = 6 ∨ mi = 7
  ∨ mi = 8 ∨ mi = 9 ∨ mi = 10 ∨ mi = 11.
Proof. lia. Qed.

Lemma MakeDay_month y mi dt :
  0 ≤ mi ≤ 11 →
  JsDate.MakeDay y mi dt
  = JsDate.DayFromYear y
    + JsDate.monthStart (if Spec.isLeapYear y then 1 else 0) mi + dt - 1.
Proof.
  intros Hmi. unfold JsDate.MakeDay.
  rewrite (Z.div_small mi 12), (Z.mod_small mi 12), Z.add_0_r by lia.
  by rewrite DaysInYear_leap.
Qed.

Lemma MonthFromDay_range d : 0 ≤ JsDate.MonthFromDay d ≤ 11.
Proof.
  unfold JsDate.MonthFromDay.
  repeat match goal with
    | |- context [?a <? ?b] => destruct (a <? b); try lia
    end.
Qed.

(** Day [k] (from 0) of month [mi] (from 0) of year [y]. *)
Lemma day_of_month y mi k :
  0 ≤ mi ≤ 11 → 0 ≤ k < Spec.daysInMonth y (mi + 1) →
  let d := JsDate.MakeDay y mi 1 + k in
  JsDate.YearFromDay d = y ∧ JsDate.MonthFromDay d = mi
  ∧ JsDate.DateFromDay d = k + 1.
Proof.
  intros Hmi Hk d. subst d. rewrite MakeDay_month by done.
  set (leap := if Spec.isLeapYear y then 1 else 0).
  set (dy := JsDate.monthStart leap mi + 1 - 1 + k).
  replace (JsDate.DayFromYear y + JsDate.monthStart leap mi + 1 - 1 + k)
    with (JsDate.DayFromYear y + dy) by (unfold dy; lia).
  assert (Hdy : 0 ≤ dy < JsDate.DaysInYear y).
  { rewrite DaysInYear_cases. unfold dy, leap, Spec.daysInMonth in *.
    destruct (Spec.isLeapYear y);
      destruct (month_cases mi Hmi)
        as [->|[->|[->|[->|[->|[->|[->|[->|[->|[->|[->| ->]]]]]]]]]]];
      simpl in *; lia. }
  destruct (day_of_year y dy Hdy) as (HY & HD & HL).
  split; [done|].
  unfold JsDate.DateFromDay, JsDate.MonthFromDay. rewrite HD, HL. fold leap.
  unfold dy, leap, Spec.daysInMonth in *.
  destruct (Spec.isLeapYear y);
    destruct (month_cases mi Hmi)
      as [->|[->|[->|[->|[->|[->|[->|[->|[->|[->|[->| ->]]]]]]]]]]];
    simpl in Hk |- *;
    repeat match goal with
      | |- context [?a <? ?b] => destruct (Z.ltb_spec a b); try lia
      end;
    split; (reflexivity || lia).
Qed.

(** The day after the last day of a month is in another month. *)
Lemma day_after_month y mi :
  0 ≤ mi ≤ 11 →
  JsDate.MonthFromDay
    (JsDate.MakeDay y mi 1 + Spec.daysInMonth y (mi + 1)) ≠ mi.
Proof.
  intros Hmi.
  destruct (decide (mi = 11)) as [->|Hne].
  - rewrite MakeDay_month by done.
    replace (JsDate.DayFromYear y
             + JsDate.monthStart (if Spec.isLeapYear y then 1 else 0) 11
             + 1 - 1 + Spec.daysInMonth y (11 + 1))
      with (JsDate.DayFromYear (y + 1) + 0).
    2:{ rewrite DayFromYear_succ, DaysInYear_cases.
        unfold Spec.daysInMonth. destruct (Spec.isLeapYear y); simpl; lia. }
    assert (Hd : 0 ≤ 0 < JsDate.DaysInYear (y + 1)).
    { rewrite DaysInYear_cases. destruct (Spec.isLeapYear _); lia. }
    destruct (day_of_year (y + 1) 0 Hd) as (_ & HD & _).
    unfold JsDate.MonthFromDay. rewrite HD. simpl. lia.
  - replace (JsDate.MakeDay y mi 1 + Spec.daysInMonth y (mi + 1))
      with (JsDate.MakeDay y (mi + 1) 1 + 0).
    + destruct (day_of_month y (mi + 1) 0) as (_ & HM & _); [lia| |].
      * unfold Spec.daysInMonth.
        destruct (Spec.isLeapYear y);
          destruct (month_cases mi Hmi)
            as [->|[->|[->|[->|[->|[->|[->|[->|[->|[->|[->| ->]]]]]]]]]]];
          simpl; lia.
      * rewrite HM. lia.
    + rewrite !MakeDay_month by lia. unfold Spec.daysInMonth.
      destruct (Spec.isLeapYear y);
        destruct (month_cases mi Hmi)
          as [->|[->|[->|[->|[->|[->|[->|[->|[->|[->|[->| ->]]]]]]]]]]];
        simpl; lia.
Qed.

Lemma daysInMonth_range y mi :
  0 ≤ mi ≤ 11 → 28 ≤ Spec.daysInMonth y (mi + 1) ≤ 31.
Proof.
  intros Hmi. unfold Spec.daysInMonth.
  destruct (Spec.isLeapYear y);
    destruct (month_cases mi Hmi)
      as [->|[->|[->|[->|[->|[->|[->|[->|[->|[->|[->| ->]]]]]]]]]]];
    simpl; lia.
Qed.

(** The day of the week, by the day number and by Zeller's congruence. *)
Lemma WeekDay_zeller y mi dt :
  0 ≤ mi ≤ 11 →
  JsDate.WeekDay (JsDate.MakeDay y mi dt)
  = (Spec.zeller y (mi + 1) dt + 6) mod 7.
Proof.
  intros Hmi. rewrite MakeDay_month by done.
  unfold JsDate.WeekDay, Spec.zeller, Spec.isLeapYear, JsDate.DayFromYear.
  destruct (month_cases mi Hmi)
    as [->|[->|[->|[->|[->|[->|[->|[->|[->|[->|[->| ->]]]]]]]]]]];
    match goal with
    | |- context [?c + 1 <? 3] =>
        let b := eval vm_compute in (c + 1 <? 3) in
        change (c + 1 <? 3) with b;
        let v := eval vm_compute in (c + 1) in change (c + 1) with v
    end;
    cbv beta iota; cbn [JsDate.monthStart];
    destruct (Z.eqb_spec (y mod 4) 0), (Z.eqb_spec (y mod 100) 0),
      (Z.eqb_spec (y mod 400) 0); cbn [andb orb negb];
    Z.div_mod_to_equations; lia.
Qed.

(** The loop keeps the weekdays of the reference calendar. *)
Lemma kept_isWeekday y mi k :
  0 ≤ mi ≤ 11 →
  Spec.kept (JsDate.MakeDay y mi 1 + k) ↔ Spec.isWeekday y (mi + 1) (1 + k) = true.
Proof.
  intros Hmi. unfold Spec.kept, Spec.isWeekday.
  replace (JsDate.MakeDay y mi 1 + k) with (JsDate.MakeDay y mi (1 + k))
    by (unfold JsDate.MakeDay; lia).
  rewrite WeekDay_zeller by done.
  assert (Hz : 0 ≤ Spec.zeller y (mi + 1) (1 + k) < 7).
  { unfold Spec.zeller. apply Z.mod_pos_bound. lia. }
  rewrite Z.leb_le. Z.div_mod_to_equations. lia.
Qed.
End Calendar.

(** ** [getBusinessDaysInMonth] *)

(** Three months from 15 November 2024. *)
Example getNextMonths_example :
  Utils.getNextMonths (JsDate.make 2024 10 15) 3
  = ["2024-11"; "2024-12"; "2025-01"].
Proof. by vm_compute. Qed.

Section BusinessDays.
Implicit Types (y mi m d k n : Z) (days : list JsDate.t).

Lemma TimeClip_in_range d :
  -100000000 ≤ d ≤ 100000000 → JsDate.TimeClip d = Some d.
Proof.
  intros Hd. unfold JsDate.TimeClip.
  destruct (Z.leb_spec (Z.abs d) 100000000); [done | lia].
Qed.

Lemma TimeClip_Some d d' : JsDate.TimeClip d = Some d' → d' = d.
Proof.
  unfold JsDate.TimeClip. destruct (_ <=? _); [|done]. by intros [= ->].
Qed.

Lemma loop_invalid fuel mi days :
  Utils.businessDaysLoop (S fuel) mi None days = Some days.
Proof. done. Qed.

Lemma loop_exit fuel mi d days :
  JsDate.MonthFromDay d ≠ mi →
  Utils.businessDaysLoop (S fuel) mi (Some d) days = Some days.
Proof.
  intros Hne. simpl. rewrite decide_False; [done|]. by intros [= E].
Qed.

Lemma loop_step fuel mi d days :
  JsDate.MonthFromDay d = mi →
  Utils.businessDaysLoop (S fuel) mi (Some d) days
  = Utils.businessDaysLoop fuel mi
      (JsDate.TimeClip
         (JsDate.MakeDay (JsDate.YearFromDay d) (JsDate.MonthFromDay d)
            (1 + JsDate.DateFromDay d)))
      (if decide (Spec.kept d) then days ++ [Some d] else days).
Proof.
  intros E. simpl. rewrite decide_True by by rewrite E.
  f_equal. unfold Spec.kept.
  destruct (decide (Some (JsDate.WeekDay d) ≠ Some 0
                    ∧ Some (JsDate.WeekDay d) ≠ Some 6)) as [[H0 H6]|Hn];
    destruct (decide (JsDate.WeekDay d ≠ 0 ∧ JsDate.WeekDay d ≠ 6))
      as [[H0' H6']|Hn']; try done.
  - destruct Hn'. split; congruence.
  - destruct Hn. split; congruence.
Qed.

(** The loop from day [k] of the month: it ends within the remaining days
    and one more iteration; when the dates are in the range of [Date] it
    holds the weekdays among the remaining days. *)
Lemma loop_month y mi (j : nat) :
  0 ≤ mi ≤ 11 →
  ∀ k days fuel,
    0 ≤ k → k + Z.of_nat j = Spec.daysInMonth y (mi + 1) → (j < fuel)%nat →
    ∃ r,
      Utils.businessDaysLoop fuel mi (Some (JsDate.MakeDay y mi 1 + k)) days
      = Some r
      ∧ (-100000000 ≤ JsDate.MakeDay y mi 1
         ∧ JsDate.MakeDay y mi 1 + Spec.daysInMonth y (mi + 1) ≤ 100000000 →
         r = days ++ (Some <$> filter Spec.kept
                                 (seqZ (JsDate.MakeDay y mi 1 + k)
                                    (Z.of_nat j)))).
Proof.
  intros Hmi. set (first := JsDate.MakeDay y mi 1).
  set (n := Spec.daysInMonth y (mi + 1)).
  induction j as [|j IH]; intros k days fuel Hk Hkn Hfuel.
  - destruct fuel as [|fuel]; [lia|].
    exists days. split.
    + apply loop_exit. replace k with n by lia. by apply day_after_month.
    + intros _. simpl. by rewrite app_nil_r.
  - destruct fuel as [|fuel]; [lia|].
    destruct (day_of_month y mi k Hmi) as (HY & HM & HD); [fold n; lia|].
    fold first in HY, HM, HD.
    rewrite loop_step by done. rewrite HY, HM, HD.
    replace (JsDate.MakeDay y mi (1 + (k + 1))) with (first + (k + 1))
      by (unfold first, JsDate.MakeDay; lia).
    set (days' := if decide (Spec.kept (first + k)) then days ++ [Some (first + k)]
                  else days).
    assert (Hcons : days ++ (Some <$> filter Spec.kept
                                        (seqZ (first + k) (Z.of_nat (S j))))
                    = days' ++ (Some <$> filter Spec.kept
                                           (seqZ (first + (k + 1))
                                              (Z.of_nat j)))).
    { rewrite seqZ_cons by lia. rewrite filter_cons.
      replace (Z.succ (first + k)) with (first + (k + 1)) by lia.
      replace (Z.pred (Z.of_nat (S j))) with (Z.of_nat j) by lia.
      unfold days'. destruct (decide (Spec.kept (first + k))); [|done].
      by rewrite fmap_cons, <- app_assoc. }
    destruct (JsDate.TimeClip (first + (k + 1))) as [d'|] eqn:Hclip.
    + apply TimeClip_Some in Hclip as ->.
      destruct (IH (k + 1) days' fuel) as (r & Hr & Hrange); [lia..|].
      exists r. split; [done|]. intros Hin. rewrite Hcons. by apply Hrange.
    + destruct fuel as [|fuel]; [lia|].
      exists days'. split; [done|]. intros [Hlo Hhi].
      rewrite TimeClip_in_range in Hclip; [done|]. lia.
Qed.

(** 32 iterations reach the end of the loop, whatever the arguments. *)
Lemma getBusinessDaysInMonth_total y m :
  is_Some (Utils.getBusinessDaysInMonth_fuel 32 y m).
Proof.
  unfold Utils.getBusinessDaysInMonth_fuel, JsDate.make.
  set (yr := if (0 <=? y) && (y <=? 99) then 1900 + y else y).
  apply fmap_is_Some.
  destruct (JsDate.TimeClip (JsDate.MakeDay yr m 1)) as [d|] eqn:Hclip;
    [|by eexists].
  apply TimeClip_Some in Hclip as ->.
  destruct (decide (0 ≤ m ≤ 11)) as [Hm|Hm].
  - pose proof (daysInMonth_range yr m Hm) as Hn.
    destruct (loop_month yr m (Z.to_nat (Spec.daysInMonth yr (m + 1))) Hm
                0 [] 32%nat) as (r & Hr & _); [lia..|].
    rewrite Z.add_0_r in Hr. by eexists.
  - rewrite loop_exit; [by eexists|].
    pose proof (MonthFromDay_range (JsDate.MakeDay yr m 1)). lia.
Qed.

Lemma length_filter_fmap {A B : Type} (f : A → B) (P : B → Prop)
    (Q : A → Prop) `{∀ x, Decision (P x)} `{∀ x, Decision (Q x)}
    (l : list A) :
  (∀ x, x ∈ l → P (f x) ↔ Q x) →
  length (filter P (f <$> l)) = length (filter Q l).
Proof.
  induction l as [|x l IH]; intros Hall; [done|].
  rewrite fmap_cons, !filter_cons.
  assert (E : length (filter P (f <$> l)) = length (filter Q l))
    by (apply IH; intros z Hz; apply Hall; by right).
  destruct (decide (P (f x))) as [Hp|Hp].
  - rewrite decide_True by (apply Hall; [left | done]). simpl. by rewrite E.
  - rewrite decide_False; [done|]. intros Hq. apply Hp, Hall; [left | done].
Qed.

(** The years whose months are all within the range of [Date]. *)
Lemma year_in_range y :
  -271820 ≤ y ≤ 275759 →
  -100000000 ≤ JsDate.DayFromYear y
  ∧ JsDate.DayFromYear (y + 1) ≤ 100000000.
Proof.
  intros Hy. unfold JsDate.DayFromYear. Z.div_mod_to_equations. lia.
Qed.

(** On the months of the years that [Date] takes as they are and holds
    entirely, the function counts the weekdays. *)
Lemma getBusinessDaysInMonth_weekdays y mi :
  -271820 ≤ y ≤ 275759 → ¬ (0 ≤ y ≤ 99) → 0 ≤ mi ≤ 11 →
  Utils.getBusinessDaysInMonth_fuel 32 y mi
  = Some (Spec.weekdaysInMonth y (mi + 1)).
Proof.
  intros Hy H2 Hmi.
  pose proof (daysInMonth_range y mi Hmi) as Hn.
  set (first := JsDate.MakeDay y mi 1).
  set (n := Spec.daysInMonth y (mi + 1)) in *.
  destruct (year_in_range y Hy) as [Hlo Hhi].
  assert (Hfirst : -100000000 ≤ first ∧ first + n ≤ 100000000).
  { destruct (day_of_month y mi 0 Hmi) as (HY0 & _); [fold n; lia|].
    destruct (day_of_month y mi (n - 1) Hmi) as (HY1 & _); [fold n; lia|].
    fold first in HY0, HY1.
    pose proof (YearFromDay_spec (first + 0)) as S0.
    pose proof (YearFromDay_spec (first + (n - 1))) as S1.
    rewrite HY0 in S0. rewrite HY1 in S1. lia. }
  unfold Utils.getBusinessDaysInMonth_fuel, JsDate.make.
  replace ((0 <=? y) && (y <=? 99)) with false.
  2:{ symmetry. apply andb_false_iff.
      destruct (Z.leb_spec 0 y); [right | by left].
      apply Z.leb_gt. lia. }
  fold first. rewrite TimeClip_in_range by lia.
  destruct (loop_month y mi (Z.to_nat n) Hmi 0 [] 32%nat)
    as (r & Hr & Hrange); [fold n; lia..|].
  fold first n in Hr, Hrange. rewrite Z.add_0_r in Hr, Hrange.
  rewrite Hr. simpl. f_equal. rewrite (Hrange Hfirst). simpl.
  rewrite length_fmap, Z2Nat.id by lia.
  unfold Spec.weekdaysInMonth. fold n. f_equal.
  replace (seqZ first n) with (Z.add first <$> seqZ 0 n)
    by (rewrite fmap_add_seqZ; f_equal; lia).
  replace (seqZ 1 n) with (Z.add 1 <$> seqZ 0 n)
    by (by rewrite fmap_add_seqZ).
  rewrite (length_filter_fmap (Z.add first) Spec.kept
             (λ k, Spec.isWeekday y (mi + 1) (1 + k) = true)).
  - symmetry. by apply length_filter_fmap.
  - intros k _. by apply kept_isWeekday.
Qed.
End BusinessDays.

(** ** Month identifiers *)

Section MonthIds.
Lemma Number_toString (y : Z) : 0 ≤ y → Js.Number (Js.toString y) = Some y.
Proof.
  intros Hy. destruct y as [|p|p]; [done| |lia].
  unfold Js.toString, Js.Number. simpl.
  pose proof (Unsigned.to_uint_nonnil p) as Hnil.
  replace (NilZero.string_of_uint (Pos.to_uint p))
    with (NilEmpty.string_of_uint (Pos.to_uint p))
    by by destruct (Pos.to_uint p).
  rewrite NilEmpty.usu. simpl. unfold Z.of_uint.
  by rewrite Unsigned.of_to.
Qed.

Lemma split_nonempty (s : string) : Js.split s ≠ [].
Proof.
  induction s as [|c s IH]; simpl; [done|].
  destruct (Js.split s); [done|]. by destruct (decide _).
Qed.

Lemma split_digits (s t : string) :
  is_Some (NilEmpty.uint_of_string s) →
  Js.split (s +:+ String "-" t) = s :: Js.split t.
Proof.
  induction s as [|c s IH]; intros [d Hd].
  - simpl. by destruct (Js.split t) eqn:E; [destruct (split_nonempty t)|].
  - simpl in Hd.
    destruct (NilEmpty.uint_of_string s) as [d0|] eqn:Hs; [|done].
    change ((String c s) +:+ String "-" t) with (String c (s +:+ String "-" t)).
    cbn [Js.split]. rewrite IH by by eexists.
    rewrite decide_False; [done|]. intros ->. done.
Qed.

Lemma toString_digits (y : Z) :
  0 ≤ y → is_Some (NilEmpty.uint_of_string (Js.toString y)).
Proof.
  intros Hy. pose proof (Number_toString y Hy) as H.
  unfold Js.Number in H. by destruct (NilEmpty.uint_of_string _).
Qed.

Lemma month_field (m : Z) :
  1 ≤ m ≤ 12 →
  Js.split (Js.padStart2 (Js.toString m)) = [Js.padStart2 (Js.toString m)]
  ∧ Js.Number (Js.padStart2 (Js.toString m)) = Some m.
Proof.
  intros Hm.
  assert (m = 1 ∨ m = 2 ∨ m = 3 ∨ m = 4 ∨ m = 5 ∨ m = 6 ∨ m = 7 ∨ m = 8
          ∨ m = 9 ∨ m = 10 ∨ m = 11 ∨ m = 12)
    as [->|[->|[->|[->|[->|[->|[->|[->|[->|[->|[->| ->]]]]]]]]]]] by lia;
    by vm_compute.
Qed.

(** The hours of a month identifier built by [getNextMonths]. *)
Lemma getBusinessHoursInMonth_monthId (y m : Z) :
  0 ≤ y → 1 ≤ m ≤ 12 →
  Utils.getBusinessHoursInMonth (Utils.monthId y m)
  = Utils.getBusinessDaysInMonth y (m - 1) * 8.
Proof.
  intros Hy Hm. unfold Utils.getBusinessHoursInMonth, Utils.monthId.
  destruct (month_field m Hm) as [Hsplit Hnum].
  change ("-" +:+ Js.padStart2 (Js.toString m))
    with (String "-" (Js.padStart2 (Js.toString m))).
  rewrite split_digits by by apply toString_digits.
  rewrite Hsplit. simpl. by rewrite Number_toString, Hnum.
Qed.
End MonthIds.

(** C8, for the years 100 to 275759: [getBusinessDaysInMonth] ends and
    returns the number of days from Monday to Friday of the month in the
    Gregorian calendar, leap years included, and [getBusinessHoursInMonth]
    returns eight times that number; 176 for April 2024, which has 22
    weekdays, and 168 for February 2024, which has 21. *)
Theorem business_hours_in_month (y m : Z) :
  100 ≤ y ≤ 275759 → 1 ≤ m ≤ 12 →
  Utils.getBusinessDaysInMonth_fuel 32 y (m - 1)
  = Some (Spec.weekdaysInMonth y m)
  ∧ Utils.getBusinessHoursInMonth (Utils.monthId y m)
    = Spec.weekdaysInMonth y m * 8
  ∧ Spec.weekdaysInMonth 2024 4 = 22
  ∧ Utils.getBusinessHoursInMonth "2024-04" = 176
  ∧ Spec.weekdaysInMonth 2024 2 = 21
  ∧ Utils.getBusinessHoursInMonth "2024-02" = 168.
Proof.
  intros Hy Hm.
  assert (E : Utils.getBusinessDaysInMonth_fuel 32 y (m - 1)
              = Some (Spec.weekdaysInMonth y m)).
  { rewrite getBusinessDaysInMonth_weekdays by lia. do 2 f_equal. lia. }
  split_and!; [done | | by vm_compute..].
  rewrite getBusinessHoursInMonth_monthId by lia.
  unfold Utils.getBusinessDaysInMonth. by rewrite E.
Qed.

Lemma business_hours_in_month_witness :
  100 ≤ 2025 ≤ 275759 ∧ 1 ≤ 1 ≤ 12
  ∧ Utils.getBusinessHoursInMonth (Utils.monthId 2025 1)
    = Spec.weekdaysInMonth 2025 1 * 8.
Proof.
  split_and!; [lia..|].
  apply (business_hours_in_month 2025 1); lia.
Defined.

(** C8 as stated fails for the years that [Date] does not take as they are:
    the year 50 is read as 1950, whose May has 23 weekdays, while May of the
    year 50 has 22; and for the years that [Date] cannot hold, such as
    275761, the [Date] is invalid and no day is counted. *)
Lemma business_hours_outside_the_years_of_Date :
  (Utils.getBusinessHoursInMonth "0050-05" = 184
   ∧ Spec.weekdaysInMonth 50 5 * 8 = 176
   ∧ Utils.getBusinessHoursInMonth "0050-05" ≠ Spec.weekdaysInMonth 50 5 * 8)
  ∧ (Utils.getBusinessHoursInMonth "275761-01" = 0
     ∧ Spec.weekdaysInMonth 275761 1 * 8 = 176
     ∧ Utils.getBusinessHoursInMonth "275761-01"
       ≠ Spec.weekdaysInMonth 275761 1 * 8).
Proof. by vm_compute. Qed.

(** * Further properties *)

(** ** Month identifiers and business hours *)

Section MonthStrings.
Implicit Types (s t rest : string) (y m mi : Z).

Lemma split_digit_string s :
  is_Some (NilEmpty.uint_of_string s) → Js.split s = [s].
Proof.
  induction s as [|c s IH]; intros [d Hd]; [done|].
  simpl in Hd.
  destruct (NilEmpty.uint_of_string s) as [d0|] eqn:Hs; [|done].
  cbn [Js.split]. rewrite IH by by eexists.
  rewrite decide_False; [done|]. intros ->. done.
Qed.

Lemma Number_leading_zero s : Js.Number (String "0" s) = Js.Number s.
Proof.
  unfold Js.Number. simpl. by destruct (NilEmpty.uint_of_string s).
Qed.

Lemma toString_nonempty y : 0 ≤ y → Js.toString y ≠ "".
Proof.
  intros Hy E. pose proof (Number_toString y Hy) as H. rewrite E in H.
  destruct y as [|p|p]; [done| |lia].
  unfold Js.toString in E. simpl in E.
  pose proof (Unsigned.to_uint_nonnil p) as Hnil.
  by destruct (Pos.to_uint p).
Qed.

Lemma padStart2_digits m :
  0 ≤ m →
  is_Some (NilEmpty.uint_of_string (Js.padStart2 (Js.toString m)))
  ∧ Js.Number (Js.padStart2 (Js.toString m)) = Some m.
Proof.
  intros Hm. pose proof (toString_digits m Hm) as Hd.
  pose proof (Number_toString m Hm) as Hn.
  pose proof (toString_nonempty m Hm) as Hne.
  destruct (Js.toString m) as [|c [|c' s]] eqn:E; [done| |done].
  cbn [Js.padStart2]. rewrite Number_leading_zero. split; [|done].
  destruct Hd as [d Hd]. simpl in Hd |- *. rewrite Hd. by eexists.
Qed.

(** The fields of a month identifier, as [getBusinessHoursInMonth] reads
    them. *)
Lemma monthId_fields y m :
  0 ≤ y → 0 ≤ m →
  Js.Number <$> Js.split (Utils.monthId y m) = [Some y; Some m].
Proof.
  intros Hy Hm. unfold Utils.monthId.
  destruct (padStart2_digits m Hm) as [Hd Hn].
  change ("-" +:+ Js.padStart2 (Js.toString m))
    with (String "-" (Js.padStart2 (Js.toString m))).
  rewrite split_digits by by apply toString_digits.
  rewrite split_digit_string by done. simpl.
  by rewrite Number_toString, Hn.
Qed.

Lemma monthId_inj y m y' m' :
  0 ≤ y → 0 ≤ m → 0 ≤ y' → 0 ≤ m' →
  Utils.monthId y m = Utils.monthId y' m' → y = y' ∧ m = m'.
Proof.
  intros Hy Hm Hy' Hm' E.
  pose proof (monthId_fields y m Hy Hm) as H1.
  rewrite E, monthId_fields in H1 by done. by injection H1 as -> ->.
Qed.

Lemma split_no_separator s :
  "-"%char ∉ list_ascii_of_string s → Js.split s = [s].
Proof.
  induction s as [|c s IH]; intros Hno; [done|].
  simpl in Hno. apply not_elem_of_cons in Hno as [Hc Hs].
  cbn [Js.split]. rewrite IH by done. by rewrite decide_False.
Qed.

Lemma hours_of_fields s y m :
  (Js.Number <$> Js.split s) !! 0%nat = Some (Some y) →
  (Js.Number <$> Js.split s) !! 1%nat = Some (Some m) →
  Utils.getBusinessHoursInMonth s = Utils.getBusinessDaysInMonth y (m - 1) * 8.
Proof.
  intros H0 H1. unfold Utils.getBusinessHoursInMonth.
  by rewrite H0, H1.
Qed.
End MonthStrings.


(** X1: a month number outside 1 to 12 has no business days: the first day
    that [Date] computes for it lies in a month of another number, and the
    loop ends before its first iteration. *)
Theorem month_number_out_of_range (y m : Z) :
  ¬ (1 ≤ m ≤ 12) →
  Utils.getBusinessDaysInMonth y (m - 1) = 0
  ∧ (0 ≤ y → 0 ≤ m →
     Utils.getBusinessHoursInMonth (Utils.monthId y m) = 0).
Proof.
  intros Hm.
  assert (E : Utils.getBusinessDaysInMonth y (m - 1) = 0).
  { unfold Utils.getBusinessDaysInMonth, Utils.getBusinessDaysInMonth_fuel.
    destruct (JsDate.make y (m - 1) 1) as [d|]; [|done].
    rewrite loop_exit; [done|].
    pose proof (MonthFromDay_range d). lia. }
  split; [done|]. intros Hy Hm0.
  pose proof (monthId_fields y m Hy Hm0) as Hf.
  rewrite (hours_of_fields _ y m) by by rewrite Hf.
  by rewrite E.
Qed.

Lemma month_number_out_of_range_witness :
  ¬ (1 ≤ 13 ≤ 12) ∧ Utils.getBusinessHoursInMonth "2024-13" = 0.
Proof.
  assert (H : ¬ (1 ≤ 13 ≤ 12)) by lia.
  split; [exact H|].
  apply (proj2 (month_number_out_of_range 2024 13 H)); lia.
Defined.

(** X2: the month string is read as its first two fields, which are taken as
    numbers: a month written without padding, or followed by further fields,
    has the hours of the padded identifier. *)
Theorem month_string_fields (y m : Z) (rest : string) :
  0 ≤ y → 0 ≤ m →
  let hours := Utils.getBusinessDaysInMonth y (m - 1) * 8 in
  Utils.getBusinessHoursInMonth (Utils.monthId y m) = hours
  ∧ Utils.getBusinessHoursInMonth (Js.toString y +:+ "-" +:+ Js.toString m)
    = hours
  ∧ Utils.getBusinessHoursInMonth
      (Js.toString y +:+ "-" +:+ Js.toString m +:+ "-" +:+ rest)
    = hours.
Proof.
  intros Hy Hm hours. split_and!.
  - pose proof (monthId_fields y m Hy Hm) as Hf.
    apply hours_of_fields; by rewrite Hf.
  - change ("-" +:+ Js.toString m) with (String "-" (Js.toString m)).
    apply hours_of_fields;
      rewrite split_digits by (by apply toString_digits);
      rewrite split_digit_string by (by apply toString_digits);
      simpl; by rewrite Number_toString.
  - change ("-" +:+ Js.toString m +:+ "-" +:+ rest)
      with (String "-" (Js.toString m +:+ String "-" rest)).
    apply hours_of_fields;
      rewrite split_digits by (by apply toString_digits);
      rewrite split_digits by (by apply toString_digits);
      simpl; by rewrite Number_toString.
Qed.

Lemma month_string_fields_witness :
  Utils.getBusinessHoursInMonth "2024-4-15" = 176.
Proof.
  pose proof (proj2 (proj2 (month_string_fields 2024 4 "15"
                              ltac:(lia) ltac:(lia)))) as H.
  etransitivity; [exact H|]. by vm_compute.
Defined.

(** X3: a month string without separator has no second field: the month is
    [undefined], the [Date] is invalid, and the hours are 0. *)
Theorem month_string_without_separator (s : string) :
  "-"%char ∉ list_ascii_of_string s →
  Utils.getBusinessHoursInMonth s = 0.
Proof.
  intros Hno. unfold Utils.getBusinessHoursInMonth.
  rewrite split_no_separator by done. simpl.
  by destruct (Js.Number s).
Qed.

Lemma month_string_without_separator_witness :
  Utils.getBusinessHoursInMonth "202404" = 0.
Proof.
  apply (month_string_without_separator "202404").
  apply (bool_decide_unpack _). vm_compute. exact I.
Defined.


(** ** The number of business days of a month *)

Section WeekdayBounds.
Implicit Types (y m mi d : Z).

Lemma zeller_shift y m d :
  Spec.zeller y m d = (d + Spec.zeller y m 0) mod 7.
Proof.
  unfold Spec.zeller. cbv zeta.
  rewrite Z.add_0_l, Zplus_mod_idemp_r. f_equal. lia.
Qed.

Lemma weekdaysInMonth_bounds y m :
  1 ≤ m ≤ 12 → 20 ≤ Spec.weekdaysInMonth y m ≤ 23.
Proof.
  intros Hm. unfold Spec.weekdaysInMonth.
  pose proof (daysInMonth_range y (m - 1)) as Hn.
  replace (m - 1 + 1) with m in Hn by lia.
  specialize (Hn ltac:(lia)).
  set (n := Spec.daysInMonth y m) in *. clearbody n.
  set (c := Spec.zeller y m 0).
  assert (Hc : 0 ≤ c < 7) by (apply Z.mod_pos_bound; lia).
  rewrite (filter_ext_elem _ (λ d, (2 <=? (d + c) mod 7) = true)).
  2:{ intros d _. unfold Spec.isWeekday. by rewrite zeller_shift. }
  clearbody c.
  assert (Hn' : n = 28 ∨ n = 29 ∨ n = 30 ∨ n = 31) by lia.
  assert (Hc' : c = 0 ∨ c = 1 ∨ c = 2 ∨ c = 3 ∨ c = 4 ∨ c = 5 ∨ c = 6) by lia.
  destruct Hn' as [->|[->|[->| ->]]];
    destruct Hc' as [->|[->|[->|[->|[->|[->| ->]]]]]];
    vm_compute; split; discriminate.
Qed.

(** The year that [new Date (year, ...)] takes for [year]. *)
Lemma getBusinessDaysInMonth_two_digits y mi :
  0 ≤ y ≤ 99 →
  Utils.getBusinessDaysInMonth y mi
  = Utils.getBusinessDaysInMonth (1900 + y) mi.
Proof.
  intros Hy.
  unfold Utils.getBusinessDaysInMonth, Utils.getBusinessDaysInMonth_fuel,
    JsDate.make.
  replace ((0 <=? y) && (y <=? 99)) with true
    by (symmetry; apply andb_true_iff; split; apply Z.leb_le; lia).
  replace ((0 <=? 1900 + y) && (1900 + y <=? 99)) with false; [done|].
  symmetry. apply andb_false_iff. right. apply Z.leb_gt. lia.
Qed.
Lemma getBusinessDaysInMonth_bounds y m :
  0 ≤ y ≤ 275759 → 1 ≤ m ≤ 12 →
  20 ≤ Utils.getBusinessDaysInMonth y (m - 1) ≤ 23.
Proof.
  intros Hy Hm.
  assert (Hyr : ∀ yr, 100 ≤ yr ≤ 275759 →
            20 ≤ Utils.getBusinessDaysInMonth yr (m - 1) ≤ 23).
  { intros yr Hr. unfold Utils.getBusinessDaysInMonth.
    rewrite getBusinessDaysInMonth_weekdays by lia. simpl.
    replace (m - 1 + 1) with m by lia. by apply weekdaysInMonth_bounds. }
  destruct (decide (y ≤ 99)) as [H2|H2].
  - rewrite getBusinessDaysInMonth_two_digits by lia. apply Hyr. lia.
  - apply Hyr. lia.
Qed.

Lemma getBusinessHoursInMonth_bounds y m :
  0 ≤ y ≤ 275759 → 1 ≤ m ≤ 12 →
  160 ≤ Utils.getBusinessHoursInMonth (Utils.monthId y m) ≤ 184.
Proof.
  intros Hy Hm. pose proof (getBusinessDaysInMonth_bounds y m Hy Hm).
  rewrite getBusinessHoursInMonth_monthId by lia. lia.
Qed.
End WeekdayBounds.

(** X4: in the years that [Date] holds, every month has between 20 and 23
    business days, that is, between 160 and 184 business hours; a year from
    0 to 99 is counted as the year 1900 later. *)
Theorem business_days_bounds (y m : Z) :
  0 ≤ y ≤ 275759 → 1 ≤ m ≤ 12 →
  20 ≤ Utils.getBusinessDaysInMonth y (m - 1) ≤ 23
  ∧ 160 ≤ Utils.getBusinessHoursInMonth (Utils.monthId y m) ≤ 184
  ∧ (y ≤ 99 →
     Utils.getBusinessHoursInMonth (Utils.monthId y m)
     = Utils.getBusinessHoursInMonth (Utils.monthId (1900 + y) m)).
Proof.
  intros Hy Hm. split; [by apply getBusinessDaysInMonth_bounds|]. split.
  - by apply getBusinessHoursInMonth_bounds.
  - intros H2. rewrite !getBusinessHoursInMonth_monthId by lia.
    by rewrite getBusinessDaysInMonth_two_digits by lia.
Qed.

Lemma business_days_bounds_witness :
  0 ≤ 2024 ≤ 275759 ∧ 1 ≤ 2 ≤ 12
  ∧ 160 ≤ Utils.getBusinessHoursInMonth "2024-02" ≤ 184.
Proof.
  assert (Hy : 0 ≤ 2024 ≤ 275759) by lia.
  assert (Hm : 1 ≤ 2 ≤ 12) by lia.
  split; [exact Hy|]. split; [exact Hm|].
  apply (proj1 (proj2 (business_days_bounds 2024 2 Hy Hm))).
Defined.


(** ** The months of the grid *)

Section NextMonths.
Implicit Types (y mo mi d : Z) (i count : nat).

Lemma MakeDay_carry y mo dt :
  JsDate.MakeDay y mo dt = JsDate.MakeDay (y + mo / 12) (mo mod 12) dt.
Proof.
  unfold JsDate.MakeDay. cbv zeta.
  pose proof (Z.mod_pos_bound mo 12 ltac:(lia)) as Hmod.
  by rewrite Z.mod_mod, (Z.div_small (mo mod 12) 12), Z.add_0_r by lia.
Qed.

Lemma month_start_in_range y mi :
  -271820 ≤ y ≤ 275759 → 0 ≤ mi ≤ 11 →
  -100000000 ≤ JsDate.MakeDay y mi 1 ≤ 100000000.
Proof.
  intros Hy Hmi. destruct (year_in_range y Hy) as [Hlo Hhi].
  pose proof (daysInMonth_range y mi Hmi) as Hn.
  destruct (day_of_month y mi 0 Hmi) as (HY0 & _); [lia|].
  pose proof (YearFromDay_spec (JsDate.MakeDay y mi 1 + 0)) as S0.
  rewrite HY0 in S0. lia.
Qed.

(** The first day of the month that lies [mo] months after January of
    year [y]. *)
Lemma make_month y mo :
  ¬ (0 ≤ y ≤ 99) → -271820 ≤ y + mo / 12 ≤ 275759 →
  JsDate.getFullYear (JsDate.make y mo 1) = Some (y + mo / 12)
  ∧ JsDate.getMonth (JsDate.make y mo 1) = Some (mo mod 12).
Proof.
  intros H2 Hy. unfold JsDate.make.
  replace ((0 <=? y) && (y <=? 99)) with false.
  2:{ symmetry. apply andb_false_iff.
      destruct (Z.leb_spec 0 y); [right | by left]. apply Z.leb_gt. lia. }
  rewrite MakeDay_carry.
  pose proof (Z.mod_pos_bound mo 12 ltac:(lia)) as Hmod.
  assert (Hmi : 0 ≤ mo mod 12 ≤ 11) by lia.
  rewrite TimeClip_in_range by by apply month_start_in_range.
  pose proof (daysInMonth_range (y + mo / 12) (mo mod 12) Hmi) as Hn.
  destruct (day_of_month (y + mo / 12) (mo mod 12) 0 Hmi) as (HY & HM & _);
    [lia|].
  rewrite Z.add_0_r in HY, HM. simpl. by rewrite HY, HM.
Qed.

Lemma omap_total {A B : Type} (f : A → option B) (g : A → B) (l : list A) :
  (∀ x, x ∈ l → f x = Some (g x)) → omap f l = g <$> l.
Proof.
  induction l as [|x l IH]; intros Hall; [done|].
  cbn [omap list_omap]. rewrite Hall by left. rewrite fmap_cons.
  simpl. f_equal. apply IH. intros z Hz. apply Hall. by right.
Qed.
Lemma months_in_range d i count :
  100 ≤ JsDate.YearFromDay d →
  JsDate.YearFromDay d + Z.of_nat count ≤ 275759 → (i < count)%nat →
  100 ≤ JsDate.YearFromDay d + (JsDate.MonthFromDay d + Z.of_nat i) / 12
  ≤ 275759
  ∧ 0 ≤ (JsDate.MonthFromDay d + Z.of_nat i) mod 12 ≤ 11.
Proof.
  intros Hy0 Hcount Hi. pose proof (MonthFromDay_range d) as Hm0.
  Z.div_mod_to_equations. lia.
Qed.

Lemma getNextMonths_formula d count :
  100 ≤ JsDate.YearFromDay d →
  JsDate.YearFromDay d + Z.of_nat count ≤ 275759 →
  Utils.getNextMonths (Some d) count
  = (λ i : nat,
       Utils.monthId
         (JsDate.YearFromDay d + (JsDate.MonthFromDay d + Z.of_nat i) / 12)
         ((JsDate.MonthFromDay d + Z.of_nat i) mod 12 + 1)) <$> seq 0 count.
Proof.
  intros Hy0 Hcount. unfold Utils.getNextMonths. apply omap_total.
  intros i Hi%elem_of_seq. simpl.
  destruct (months_in_range d i count) as [Hy Hm]; [lia..|].
  destruct (make_month (JsDate.YearFromDay d)
              (JsDate.MonthFromDay d + Z.of_nat i)) as [-> ->]; [lia..|].
  done.
Qed.

Lemma getNextMonths_NoDup d count :
  100 ≤ JsDate.YearFromDay d →
  JsDate.YearFromDay d + Z.of_nat count ≤ 275759 →
  NoDup (Utils.getNextMonths (Some d) count).
Proof.
  intros Hy0 Hcount. rewrite getNextMonths_formula by done.
  apply NoDup_fmap_2_strong; [|apply NoDup_seq].
  intros i j Hi%elem_of_seq Hj%elem_of_seq Heq.
  destruct (months_in_range d i count) as [Hy Hm]; [lia..|].
  destruct (months_in_range d j count) as [Hy' Hm']; [lia..|].
  pose proof (MonthFromDay_range d) as Hm0.
  apply monthId_inj in Heq as [E1 E2]; [|lia..].
  Z.div_mod_to_equations. lia.
Qed.
End NextMonths.

(** X5: [getNextMonths (count)] returns the month of today and the months
    that follow it, [count] in all, each once, as identifiers that
    [getBusinessHoursInMonth] reads back: every month of the grid has
    between 160 and 184 business hours. *)
Theorem next_months (d : Z) (count : nat) :
  let y0 := JsDate.YearFromDay d in
  let m0 := JsDate.MonthFromDay d in
  let months := Utils.getNextMonths (Some d) count in
  100 ≤ y0 → y0 + Z.of_nat count ≤ 275759 →
  months
  = (λ i : nat,
       Utils.monthId (y0 + (m0 + Z.of_nat i) / 12)
         ((m0 + Z.of_nat i) mod 12 + 1)) <$> seq 0 count
  ∧ length months = count
  ∧ NoDup months
  ∧ ∀ month, month ∈ months →
      160 ≤ Utils.getBusinessHoursInMonth month ≤ 184.
Proof.
  intros y0 m0 months Hy0 Hcount.
  assert (E := getNextMonths_formula d count Hy0 Hcount).
  fold y0 m0 months in E.
  split; [done|]. split; [by rewrite E, length_fmap, length_seq|].
  split; [by apply getNextMonths_NoDup|].
  rewrite E. intros month (i & -> & Hi%elem_of_seq)%list_elem_of_fmap.
  destruct (months_in_range d i count) as [Hy Hm]; [lia..|].
  fold y0 m0 in Hy, Hm. apply getBusinessHoursInMonth_bounds; lia.
Qed.

Lemma next_months_witness :
  100 ≤ JsDate.YearFromDay (JsDate.MakeDay 2024 10 15)
  ∧ JsDate.YearFromDay (JsDate.MakeDay 2024 10 15) + Z.of_nat 18 ≤ 275759
  ∧ length (Utils.getNextMonths (Some (JsDate.MakeDay 2024 10 15)) 18)
    = 18%nat.
Proof.
  assert (H1 : 100 ≤ JsDate.YearFromDay (JsDate.MakeDay 2024 10 15))
    by by vm_compute.
  assert (H2 : JsDate.YearFromDay (JsDate.MakeDay 2024 10 15) + Z.of_nat 18
               ≤ 275759) by by vm_compute.
  split; [exact H1|]. split; [exact H2|].
  apply (proj1 (proj2 (next_months (JsDate.MakeDay 2024 10 15) 18 H1 H2))).
Defined.


(** ** The store that [App] starts from *)

Section DemoData.
Implicit Types (uuid : nat → string) (k : nat) (months : list string).
Implicit Types (p ma mb : string) (va vb : Z).

Lemma pushPairs_ids uuid k p ma va mb vb months :
  Allocation.id <$> AppData.pushPairs uuid k p ma va mb vb months
  = uuid <$> seq k (2 * length months).
Proof.
  revert k. induction months as [|m months IH]; intros k; [done|].
  cbn [AppData.pushPairs fmap list_fmap length]. rewrite IH.
  replace (2 * S (length months))%nat with (S (S (2 * length months))) by lia.
  done.
Qed.

Lemma pushPairs_keys uuid k p ma va mb vb months :
  Spec.keyOf <$> AppData.pushPairs uuid k p ma va mb vb months
  = months ≫= (λ m, [Cell.mk p ma m; Cell.mk p mb m]).
Proof.
  revert k. induction months as [|m months IH]; intros k; [done|].
  cbn [AppData.pushPairs fmap list_fmap mbind list_bind]. by rewrite IH.
Qed.

Lemma pushPairs_percentages (R : Z → Prop) uuid k p ma va mb vb months :
  R va → R vb →
  Forall (λ a, R (Allocation.percentage a))
    (AppData.pushPairs uuid k p ma va mb vb months).
Proof.
  intros H1 H2. revert k.
  induction months as [|m months IH]; intros k; [done|].
  cbn [AppData.pushPairs]. by repeat constructor.
Qed.

Lemma pushPairs_uniqueKeys uuid k p ma va mb vb months :
  ma ≠ mb → NoDup months →
  NoDup (Spec.keyOf <$> AppData.pushPairs uuid k p ma va mb vb months).
Proof.
  intros Hne Hnd. rewrite pushPairs_keys.
  induction Hnd as [|m months Hm Hnd IH]; [constructor|].
  cbn [mbind list_bind].
  assert (Hnot : ∀ mx, Cell.mk p mx m
                       ∉ months ≫= (λ m, [Cell.mk p ma m; Cell.mk p mb m])).
  { intros mx (m' & Hin & Hm')%list_elem_of_bind.
    apply elem_of_cons in Hin as [[= _ ->]|Hin]; [done|].
    apply list_elem_of_singleton in Hin as [= _ ->]. done. }
  apply NoDup_cons. split.
  - intros [[= E]|Hin]%elem_of_cons; [done|]. by apply (Hnot ma).
  - apply NoDup_cons. split; [apply Hnot | done].
Qed.

Lemma demoAllocations_ids uuid months :
  Allocation.id <$> AppData.demoAllocations uuid months
  = uuid <$> seq 0 (4 * length months).
Proof.
  unfold AppData.demoAllocations. rewrite fmap_app, !pushPairs_ids.
  rewrite <- fmap_app. f_equal.
  replace (4 * length months)%nat
    with (2 * length months + 2 * length months)%nat by lia.
  by rewrite seq_app.
Qed.

Lemma demoAllocations_uniqueKeys uuid months :
  NoDup months → Spec.uniqueKeys (AppData.demoAllocations uuid months).
Proof.
  intros Hnd. unfold Spec.uniqueKeys, AppData.demoAllocations.
  rewrite fmap_app. apply NoDup_app. split_and!.
  - by apply pushPairs_uniqueKeys.
  - intros c. rewrite !pushPairs_keys.
    intros (m & Hin & _)%list_elem_of_bind (m' & Hin' & _)%list_elem_of_bind.
    apply elem_of_cons in Hin as [->|Hin];
      [|apply list_elem_of_singleton in Hin as ->];
      apply elem_of_cons in Hin' as [[=]|Hin'];
      by apply list_elem_of_singleton in Hin'.
  - by apply pushPairs_uniqueKeys.
Qed.

Lemma demoAllocations_percentages (R : Z → Prop) uuid months :
  R 100 → R 50 → R 80 →
  Forall (λ a, R (Allocation.percentage a))
    (AppData.demoAllocations uuid months).
Proof.
  intros H100 H50 H80. unfold AppData.demoAllocations.
  apply Forall_app. split; by apply pushPairs_percentages.
Qed.
End DemoData.

(** X6: the store that [App] fills after its first render holds four records
    for each of the next three months, with distinct identifiers, distinct
    (project, member, month) keys and percentages among 100, 50 and 80;
    identifiers and keys stay distinct, and percentages positive, whatever
    the events of the grid that follow. *)
Theorem demo_store_invariants (uuid : nat → string) (d : Z)
    (st : ProjectList.State) (inputs : list ProjectList.Input) :
  let s0 := AppData.initAllocations uuid (Some d) [] in
  100 ≤ JsDate.YearFromDay d ≤ 275000 →
  NoDup ((uuid <$> seq 0 12) ++ Spec.draws inputs) →
  ProjectList.allocations st = s0 →
  length s0 = 12%nat
  ∧ Spec.wellFormed s0
  ∧ Forall (λ a, Allocation.percentage a ∈ [100; 50; 80]) s0
  ∧ Spec.wellFormed (ProjectList.allocations (ProjectList.run inputs st))
  ∧ Forall (λ a, 0 < Allocation.percentage a)
      (ProjectList.allocations (ProjectList.run inputs st)).
Proof.
  intros s0 Hy Hnd Hst.
  set (months := Utils.getNextMonths (Some d) 3).
  assert (Es0 : s0 = AppData.demoAllocations uuid months) by done.
  assert (Hlen : length months = 3%nat).
  { unfold months. rewrite getNextMonths_formula; [|lia..].
    by rewrite length_fmap, length_seq. }
  assert (Hmonths : NoDup months) by (apply getNextMonths_NoDup; lia).
  assert (Hids : Allocation.id <$> s0 = uuid <$> seq 0 12).
  { by rewrite Es0, demoAllocations_ids, Hlen. }
  assert (Hwf : Spec.wellFormed s0).
  { split.
    - unfold Spec.uniqueIds. rewrite Hids. by apply NoDup_app in Hnd as [? _].
    - rewrite Es0. by apply demoAllocations_uniqueKeys. }
  split_and!.
  - rewrite <- (length_fmap Allocation.id), Hids.
    by rewrite length_fmap, length_seq.
  - apply Hwf.
  - rewrite Es0.
    apply (demoAllocations_percentages (λ v, v ∈ [100; 50; 80]));
      repeat constructor.
  - apply run_wellFormed; rewrite Hst; [apply Hwf|].
    unfold Spec.fresh. by rewrite Hids.
  - apply (run_percentages (λ v, 0 < v)); [done|]. rewrite Hst, Es0.
    apply (demoAllocations_percentages (λ v, 0 < v)); lia.
Qed.

Lemma demo_store_invariants_witness :
  100 ≤ JsDate.YearFromDay Demo.today ≤ 275000
  ∧ NoDup ((Demo.uuid <$> seq 0 12) ++ Spec.draws Demo.inputs)
  ∧ Spec.wellFormed
      (ProjectList.allocations (ProjectList.run Demo.inputs Demo.state)).
Proof.
  assert (Hy : 100 ≤ JsDate.YearFromDay Demo.today ≤ 275000)
    by by vm_compute.
  assert (Hnd : NoDup ((Demo.uuid <$> seq 0 12) ++ Spec.draws Demo.inputs)).
  { apply (bool_decide_unpack _). vm_compute. exact I. }
  split; [exact Hy|]. split; [exact Hnd|].
  apply (demo_store_invariants Demo.uuid Demo.today Demo.state Demo.inputs
           Hy Hnd eq_refl).
Defined.

(** The store of the demonstration, filled on 15 November 2024. *)
Example demoAllocations_example :
  Utils.getNextMonths (Some Demo.today) 3 = ["2024-11"; "2024-12"; "2025-01"]
  ∧ take 2 (ProjectList.allocations Demo.state)
    = [ Allocation.mk "id0" "1" "1" "2024-11" 100;
        Allocation.mk "id1" "1" "2" "2024-11" 50 ]
  ∧ drop 10 (ProjectList.allocations Demo.state)
    = [ Allocation.mk "id10" "2" "3" "2025-01" 100;
        Allocation.mk "id11" "2" "4" "2025-01" 80 ].
Proof. by vm_compute. Qed.


(** ** The rows of a project *)

Section Rows.
Implicit Types (members : list TeamMember.t) (s : list Allocation.t).
Implicit Types (added : gmap string (list string)) (p mid : string).
Implicit Types (m : TeamMember.t) (st : ProjectList.State).

Lemma allVisibleMemberIds_elem s added p mid :
  mid ∈ ProjectRows.allVisibleMemberIds s added p
  ↔ (∃ a, a ∈ s ∧ Allocation.projectId a = p ∧ Allocation.memberId a = mid)
    ∨ mid ∈ default [] (added !! p).
Proof.
  unfold ProjectRows.allVisibleMemberIds, ProjectRows.allocatedMemberIds,
    ProjectRows.manualMemberIds.
  rewrite distinct_elem, elem_of_app, distinct_elem, list_elem_of_fmap.
  split.
  - intros [[[(a & -> & [Hp Ha]%list_elem_of_filter) _]|Hm] _]; [left|by right].
    by exists a.
  - intros [(a & Ha & Hp & <-)|Hm]; (split; [|apply not_elem_of_empty]).
    + left. split; [|apply not_elem_of_empty].
      exists a. split; [done|]. by apply list_elem_of_filter.
    + by right.
Qed.

Lemma visibleMembers_elem members s added p m :
  m ∈ ProjectRows.visibleMembers members s added p
  ↔ m ∈ members
    ∧ ((∃ a, a ∈ s ∧ Allocation.projectId a = p
             ∧ Allocation.memberId a = TeamMember.id m)
       ∨ TeamMember.id m ∈ default [] (added !! p)).
Proof.
  unfold ProjectRows.visibleMembers.
  rewrite list_elem_of_filter, allVisibleMemberIds_elem. tauto.
Qed.

Lemma visibleMembers_ext members s added s' added' p p' :
  (∀ mid, mid ∈ ProjectRows.allVisibleMemberIds s' added' p'
          ↔ mid ∈ ProjectRows.allVisibleMemberIds s added p) →
  ProjectRows.visibleMembers members s' added' p'
  = ProjectRows.visibleMembers members s added p.
Proof.
  intros Hext. unfold ProjectRows.visibleMembers.
  apply filter_ext_elem. intros m _. apply Hext.
Qed.

Lemma addableMembers_complement members s added p :
  ProjectRows.addableMembers members s added p
  = filter (λ m, TeamMember.id m ∉ ProjectRows.allVisibleMemberIds s added p)
      members.
Proof.
  unfold ProjectRows.addableMembers. apply filter_ext_elem. intros m Hm.
  rewrite find_None. split.
  - intros Hall Hin. apply (Hall m); [|done].
    unfold ProjectRows.visibleMembers. by apply list_elem_of_filter.
  - intros Hnot vm [Hvis _]%list_elem_of_filter E. apply Hnot.
    by rewrite <- E.
Qed.

(** Without the hypothesis on identifiers: the records of the row are
    gone, and the others are among those there were. *)
Lemma removeMember_row p mid st a :
  a ∈ ProjectList.allocations
        (ProjectList.handleRemoveMemberFromProject p mid st) →
  a ∈ ProjectList.allocations st ∧ ¬ Spec.onRow p mid a.
Proof.
  rewrite removeMember_allocations.
  intros [Hn Ha]%list_elem_of_filter. split; [done|].
  intros Hrow. apply Hn. apply list_elem_of_fmap_2.
  by apply list_elem_of_filter.
Qed.

Lemma removeMember_filter p mid st :
  Spec.uniqueIds (ProjectList.allocations st) →
  ProjectList.allocations (ProjectList.handleRemoveMemberFromProject p mid st)
  = filter (λ a, ¬ Spec.onRow p mid a) (ProjectList.allocations st).
Proof.
  intros Hid. rewrite removeMember_allocations.
  apply filter_ext_elem. intros a Ha. split.
  - intros Hn Hrow. apply Hn.
    apply list_elem_of_fmap_2. by apply list_elem_of_filter.
  - intros Hn (b & Hab & [Hrow Hb]%list_elem_of_filter)%list_elem_of_fmap.
    apply Hn.
    by rewrite (NoDup_fmap_eq Allocation.id _ a b Hid Ha Hb Hab).
Qed.

Lemma removeMember_addedMembers p mid st p' :
  default [] (ProjectList.addedMembers
                (ProjectList.handleRemoveMemberFromProject p mid st) !! p')
  = if decide (p' = p)
    then filter (λ id, id ≠ mid)
           (default [] (ProjectList.addedMembers st !! p))
    else default [] (ProjectList.addedMembers st !! p').
Proof.
  unfold ProjectList.handleRemoveMemberFromProject. simpl.
  destruct (decide (p' = p)) as [->|Hne].
  - by rewrite lookup_insert_eq.
  - by rewrite lookup_insert_ne.
Qed.

Lemma addMember_addedMembers p mid st p' :
  default [] (ProjectList.addedMembers
                (ProjectList.handleAddMemberToProject p mid st) !! p')
  = if decide (p' = p)
    then default [] (ProjectList.addedMembers st !! p) ++ [mid]
    else default [] (ProjectList.addedMembers st !! p').
Proof.
  unfold ProjectList.handleAddMemberToProject. simpl.
  destruct (decide (p' = p)) as [->|Hne].
  - by rewrite lookup_insert_eq.
  - by rewrite lookup_insert_ne.
Qed.
End Rows.


(** X7: a member of the team has a row on a project exactly when a record of
    the store is on the pair, or the member was added to the project by
    hand; the rows are in the order of the team, each member once if the
    team holds each member once. *)
Theorem visible_members (members : list TeamMember.t)
    (allocations : list Allocation.t)
    (addedMembers : gmap string (list string)) (projectId : string) :
  let visible :=
    ProjectRows.visibleMembers members allocations addedMembers projectId in
  (∀ m, m ∈ visible
        ↔ m ∈ members
          ∧ ((∃ a, a ∈ allocations ∧ Allocation.projectId a = projectId
                   ∧ Allocation.memberId a = TeamMember.id m)
             ∨ TeamMember.id m ∈ default [] (addedMembers !! projectId)))
  ∧ sublist visible members
  ∧ (NoDup members → NoDup visible).
Proof.
  intros visible. split_and!.
  - intros m. apply visibleMembers_elem.
  - apply sublist_filter.
  - apply NoDup_filter.
Qed.

(** X8: the menu of a project offers exactly the members of the team that
    have no row on the project: every member is either in a row or in the
    menu. *)
Theorem addable_members (members : list TeamMember.t)
    (allocations : list Allocation.t)
    (addedMembers : gmap string (list string)) (projectId : string) :
  let visible :=
    ProjectRows.visibleMembers members allocations addedMembers projectId in
  let addable :=
    ProjectRows.addableMembers members allocations addedMembers projectId in
  (∀ m, m ∈ addable ↔ m ∈ members ∧ m ∉ visible)
  ∧ visible ++ addable ≡ₚ members.
Proof.
  intros visible addable. unfold addable.
  rewrite addableMembers_complement. split.
  - intros m. unfold visible, ProjectRows.visibleMembers.
    rewrite !list_elem_of_filter. tauto.
  - apply filter_app_complement.
Qed.

(** X9: removing a member from a project removes the member's row from the
    project, however often the member was added by hand; with distinct
    record identifiers the other rows of the project, and the rows of the
    other projects, stay. *)
Theorem remove_member_hides_row (members : list TeamMember.t)
    (st : ProjectList.State) (p mid : string) :
  let st' := ProjectList.handleRemoveMemberFromProject p mid st in
  (∀ m, m ∈ ProjectRows.rows members st' p → TeamMember.id m ≠ mid)
  ∧ (Spec.uniqueIds (ProjectList.allocations st) →
     ProjectRows.rows members st' p
     = filter (λ m, TeamMember.id m ≠ mid) (ProjectRows.rows members st p)
     ∧ ∀ p', p' ≠ p →
         ProjectRows.rows members st' p' = ProjectRows.rows members st p').
Proof.
  intros st'. split.
  - intros m [_ Hvis]%visibleMembers_elem E.
    destruct Hvis as [(a & Ha & Hp & Hm)|Hin].
    + apply removeMember_row in Ha as [_ Hrow]. apply Hrow.
      split; congruence.
    + unfold st' in Hin. rewrite removeMember_addedMembers in Hin.
      rewrite decide_True in Hin by done.
      by apply list_elem_of_filter in Hin as [? _].
  - intros Hid.
    assert (Hvis : ∀ p' id,
              id ∈ ProjectRows.allVisibleMemberIds
                     (ProjectList.allocations st')
                     (ProjectList.addedMembers st') p'
              ↔ id ∈ ProjectRows.allVisibleMemberIds
                       (ProjectList.allocations st)
                       (ProjectList.addedMembers st) p'
                ∧ (p' = p → id ≠ mid)).
    { intros p' id. rewrite !allVisibleMemberIds_elem.
      unfold st'.
      rewrite removeMember_addedMembers, removeMember_filter by done.
      destruct (decide (p' = p)) as [->|Hne].
      - rewrite list_elem_of_filter. split.
        + intros [(a & [Hrow Ha]%list_elem_of_filter & Hp & Hm)|[Hn Hin]].
          * split; [left; by exists a|]. intros _ ->. by apply Hrow.
          * split; [by right | done].
        + intros [[(a & Ha & Hp & Hm)|Hin] Hn].
          * left. exists a. split; [|done]. apply list_elem_of_filter.
            split; [|done]. intros [_ E]. apply Hn; congruence.
          * right. split; [by apply Hn | done].
      - split.
        + intros [(a & [Hrow Ha]%list_elem_of_filter & Hp & Hm)|Hin].
          * split; [left; by exists a | done].
          * split; [by right | done].
        + intros [[(a & Ha & Hp & Hm)|Hin] _]; [left | by right].
          exists a. split; [|done]. apply list_elem_of_filter.
          split; [|done]. intros [E _]. congruence. }
    split.
    + unfold ProjectRows.rows, ProjectRows.visibleMembers.
      rewrite filter_filter_and. apply filter_ext_elem. intros m _.
      rewrite Hvis. split; [intros [? Hn]; auto | intros [? ?]; auto].
    + intros p' Hne. unfold ProjectRows.rows.
      apply visibleMembers_ext. intros id. rewrite Hvis. tauto.
Qed.

Lemma remove_member_hides_row_witness :
  Spec.uniqueIds (ProjectList.allocations Example.state)
  ∧ ProjectRows.rows Example.members
      (ProjectList.handleRemoveMemberFromProject "1" "2" Example.state) "1"
    = filter (λ m, TeamMember.id m ≠ "2")
        (ProjectRows.rows Example.members Example.state "1").
Proof.
  assert (H : Spec.uniqueIds (ProjectList.allocations Example.state)).
  { apply (bool_decide_unpack _). vm_compute. exact I. }
  split; [exact H|].
  apply (proj2 (remove_member_hides_row Example.members Example.state
                  "1" "2") H).
Defined.

(** X10: adding a member to a project by hand gives the member a row on the
    project, if the member is in the team, and changes neither the store nor
    any other row. *)
Theorem add_member_shows_row (members : list TeamMember.t)
    (st : ProjectList.State) (p mid : string) :
  let st' := ProjectList.handleAddMemberToProject p mid st in
  ProjectList.allocations st' = ProjectList.allocations st
  ∧ (∀ m, m ∈ ProjectRows.rows members st' p
          ↔ m ∈ ProjectRows.rows members st p
            ∨ (m ∈ members ∧ TeamMember.id m = mid))
  ∧ (∀ p', p' ≠ p →
       ProjectRows.rows members st' p' = ProjectRows.rows members st p').
Proof.
  intros st'. split; [done|]. split.
  - intros m. unfold ProjectRows.rows. rewrite !visibleMembers_elem.
    unfold st'. rewrite addMember_addedMembers, decide_True by done.
    rewrite elem_of_app, list_elem_of_singleton.
    change (ProjectList.allocations
              (ProjectList.handleAddMemberToProject p mid st))
      with (ProjectList.allocations st).
    tauto.
  - intros p' Hne. unfold ProjectRows.rows. apply visibleMembers_ext.
    intros id. rewrite !allVisibleMemberIds_elem.
    unfold st'. rewrite addMember_addedMembers, decide_False by done.
    done.
Qed.

(** X11: adding a member that has no row on a project and removing the
    member again leaves the store and the rows of every project as they
    were. *)
Theorem add_then_remove_member (members : list TeamMember.t)
    (st : ProjectList.State) (p mid : string) :
  (∀ a, a ∈ ProjectList.allocations st → ¬ Spec.onRow p mid a) →
  mid ∉ default [] (ProjectList.addedMembers st !! p) →
  let st' :=
    ProjectList.handleRemoveMemberFromProject p mid
      (ProjectList.handleAddMemberToProject p mid st) in
  ProjectList.allocations st' = ProjectList.allocations st
  ∧ ∀ p', ProjectRows.rows members st' p' = ProjectRows.rows members st p'.
Proof.
  intros Hrow Hadded st'.
  assert (Hs : ProjectList.allocations st' = ProjectList.allocations st).
  { unfold st'. rewrite removeMember_allocations.
    change (ProjectList.allocations
              (ProjectList.handleAddMemberToProject p mid st))
      with (ProjectList.allocations st).
    apply filter_all.
    intros a Ha (b & _ & [Hb Hin]%list_elem_of_filter)%list_elem_of_fmap.
    by apply (Hrow b). }
  split; [done|]. intros p'. unfold ProjectRows.rows.
  apply visibleMembers_ext. intros id. rewrite !allVisibleMemberIds_elem, Hs.
  unfold st'. rewrite removeMember_addedMembers.
  destruct (decide (p' = p)) as [->|Hne].
  - rewrite addMember_addedMembers, decide_True by done.
    rewrite filter_app, elem_of_app, !list_elem_of_filter.
    rewrite list_elem_of_singleton. split.
    + intros [?|[[_ ?]|[? ?]]]; tauto.
    + intros [?|Hin]; [tauto|]. right. left. split; [|done].
      intros ->. done.
  - by rewrite addMember_addedMembers, decide_False by done.
Qed.

Lemma add_then_remove_member_witness :
  (∀ a, a ∈ ProjectList.allocations Example.state → ¬ Spec.onRow "2" "1" a)
  ∧ ProjectList.allocations
      (ProjectList.handleRemoveMemberFromProject "2" "1"
         (ProjectList.handleAddMemberToProject "2" "1" Example.state))
    = Example.allocations.
Proof.
  assert (H : ∀ a, a ∈ ProjectList.allocations Example.state
                   → ¬ Spec.onRow "2" "1" a).
  { apply Forall_forall. apply (bool_decide_unpack _). vm_compute. exact I. }
  split; [exact H|].
  apply (add_then_remove_member Example.members Example.state "2" "1" H).
  apply (bool_decide_unpack _). vm_compute. exact I.
Defined.


(** ** Reading what was typed *)

Section ParseInt.
Implicit Types (d : Decimal.uint) (rest r : string) (ch : ascii).
Implicit Types (acc : positive) (n : Z).

Lemma parseDigits_stop ch r (a : option Z) :
  ch ∉ list_ascii_of_string "0123456789" →
  Js.parseDigits 10 (String ch r) a = a.
Proof.
  intros Hno. cbn [Js.parseDigits]. unfold Js.digitValue.
  set (k := Z.of_N (N_of_ascii ch)).
  destruct (decide (48 ≤ k ≤ 57)) as [Hd|Hd].
  - destruct Hno. rewrite <- (ascii_N_embedding ch).
    assert (Hk : N_of_ascii ch = 48%N ∨ N_of_ascii ch = 49%N
                 ∨ N_of_ascii ch = 50%N ∨ N_of_ascii ch = 51%N
                 ∨ N_of_ascii ch = 52%N ∨ N_of_ascii ch = 53%N
                 ∨ N_of_ascii ch = 54%N ∨ N_of_ascii ch = 55%N
                 ∨ N_of_ascii ch = 56%N ∨ N_of_ascii ch = 57%N) by lia.
    destruct Hk as [->|[->|[->|[->|[->|[->|[->|[->|[->| ->]]]]]]]]];
      apply (bool_decide_unpack _); vm_compute; exact I.
  - replace ((48 <=? k) && (k <=? 57)) with false
      by (destruct (Z.leb_spec 48 k), (Z.leb_spec k 57); try done; lia).
    destruct (Z.leb_spec 97 k), (Z.leb_spec k 122); cbn [andb];
      try destruct (Z.leb_spec 65 k); try destruct (Z.leb_spec k 90);
      cbn [andb]; try done;
      match goal with
      | |- context [?a <? 10] => destruct (Z.ltb_spec a 10); [lia | done]
      end.
Qed.

Lemma append_cons ch r rest : String ch r +:+ rest = String ch (r +:+ rest).
Proof. done. Qed.

Lemma parseDigits_digit ch r (a : option Z) (k : Z) :
  Js.digitValue ch = Some k → k < 10 →
  Js.parseDigits 10 (String ch r) a
  = Js.parseDigits 10 r (Some (default 0 a * 10 + k)).
Proof.
  intros Hd Hk. cbn [Js.parseDigits]. rewrite Hd.
  by destruct (Z.ltb_spec k 10); [|lia].
Qed.

Lemma parseDigits_acc d rest acc :
  Js.parseDigits 10 (NilEmpty.string_of_uint d +:+ rest) (Some (Z.pos acc))
  = Js.parseDigits 10 rest (Some (Z.pos (Pos.of_uint_acc d acc))).
Proof.
  revert acc.
  induction d as [|d IH|d IH|d IH|d IH|d IH|d IH|d IH|d IH|d IH|d IH];
    intros acc; [done|..];
    cbn [NilEmpty.string_of_uint Pos.of_uint_acc]; rewrite append_cons;
    erewrite parseDigits_digit by (reflexivity || lia);
    rewrite <- IH; do 2 f_equal; cbn [default]; unfold id;
    simpl (N_of_ascii _); lia.
Qed.

Lemma parseDigits_value d rest :
  Js.parseDigits 10 (NilEmpty.string_of_uint d +:+ rest) (Some 0)
  = Js.parseDigits 10 rest (Some (Z.of_N (Pos.of_uint d))).
Proof.
  induction d as [|d IH|d IH|d IH|d IH|d IH|d IH|d IH|d IH|d IH|d IH];
    [done|..];
    cbn [NilEmpty.string_of_uint Pos.of_uint]; rewrite append_cons;
    erewrite parseDigits_digit by (reflexivity || lia);
    cbn [default]; unfold id; simpl (N_of_ascii _); simpl (_ * _ + _);
    [exact IH|..]; apply parseDigits_acc.
Qed.

Lemma parseDigits_start d rest :
  d ≠ Decimal.Nil →
  Js.parseDigits 10 (NilEmpty.string_of_uint d +:+ rest) None
  = Js.parseDigits 10 (NilEmpty.string_of_uint d +:+ rest) (Some 0).
Proof.
  intros Hd. destruct d; [done|..];
    cbn [NilEmpty.string_of_uint]; rewrite append_cons;
    by erewrite !parseDigits_digit by (reflexivity || (simpl; lia)).
Qed.

Lemma parseDigits_end rest (a : option Z) :
  (∀ ch r, rest = String ch r → ch ∉ list_ascii_of_string "0123456789") →
  Js.parseDigits 10 rest a = a.
Proof.
  intros Hrest. destruct rest as [|ch r]; [done|].
  apply parseDigits_stop. by eapply Hrest.
Qed.

Lemma parseInt_digits d rest :
  d ≠ Decimal.Nil → d ≠ Decimal.D0 Decimal.Nil →
  Js.parseInt (NilEmpty.string_of_uint d +:+ rest)
  = Z.mul 1 <$> Js.parseDigits 10 (NilEmpty.string_of_uint d +:+ rest) None.
Proof.
  intros Hnil Hzero. destruct d as [|d|d|d|d|d|d|d|d|d|d]; [done|..];
    cbn [NilEmpty.string_of_uint]; rewrite append_cons; try reflexivity.
  destruct d as [|d|d|d|d|d|d|d|d|d|d]; [done|..];
    cbn [NilEmpty.string_of_uint]; rewrite append_cons; reflexivity.
Qed.

Lemma parseInt_toString_positive (p : positive) rest :
  (∀ ch r, rest = String ch r → ch ∉ list_ascii_of_string "0123456789") →
  Js.parseInt (Js.toString (Z.pos p) +:+ rest) = Some (Z.pos p).
Proof.
  intros Hrest. unfold Js.toString. simpl.
  pose proof (Unsigned.to_uint_nonnil p) as Hnil.
  pose proof (Unsigned.to_uint_nonzero p) as Hzero.
  pose proof (Unsigned.of_to p) as Hval.
  replace (NilZero.string_of_uint (Pos.to_uint p))
    with (NilEmpty.string_of_uint (Pos.to_uint p))
    by by destruct (Pos.to_uint p).
  rewrite parseInt_digits, parseDigits_start, parseDigits_value by done.
  rewrite parseDigits_end by done. rewrite Hval. simpl. done.
Qed.
End ParseInt.


Section Entry.
Implicit Types (st : ProjectList.State) (c : Cell.t) (u : string).



(** The calls of a write of the value that the cell shows. *)
Lemma updateAllocationValue_shown s u p m mo :
  0 < ProjectList.cellPercentage s p m mo →
  ProjectList.updateAllocationValue s u p m mo
    (ProjectList.cellPercentage s p m mo) = [].
Proof.
  unfold ProjectList.cellPercentage, ProjectList.updateAllocationValue.
  destruct (ProjectList.findAllocation s p m mo) as [ex|]; [|lia].
  intros Hv. apply Z.ltb_lt in Hv. rewrite Hv.
  by rewrite decide_False by (intros H; by apply H).
Qed.

Lemma entry_allocations st c text u i1 i2 i3 :
  ProjectList.allocations
    (ProjectList.run
       [ (ProjectList.DoubleClick c, i1); (ProjectList.Change text, i2);
         (ProjectList.Commit, (u, i3)) ] st)
  = match Js.parseInt text with
    | Some n => Spec.upsert (ProjectList.allocations st) u c n
    | None => ProjectList.allocations st
    end.
Proof.
  destruct c as [p m mo]. unfold ProjectList.run. cbn [foldl].
  unfold ProjectList.step at 1. cbn [fst snd ProjectList.dispatch].
  rewrite saveEditing_allocations. simpl. by destruct (Js.parseInt text).
Qed.
End Entry.



(** X13: a safe integer above 0 typed into the entry field is read up to
    its first character that is not a digit: the cell then shows the number
    read, whatever follows it (a fraction, an exponent), and the other cells
    show what they showed. *)
Theorem typed_entry (st : ProjectList.State) (c : Cell.t) (n : Z)
    (rest u : string) (i1 i2 : string * string) (i3 : string) :
  let st' :=
    ProjectList.run
      [ (ProjectList.DoubleClick c, i1);
        (ProjectList.Change (Js.toString n +:+ rest), i2);
        (ProjectList.Commit, (u, i3)) ] st in
  0 < n → Number.isSafeInteger n →
  (∀ ch r, rest = String ch r → ch ∉ list_ascii_of_string "0123456789") →
  Spec.wellFormed (ProjectList.allocations st) →
  ProjectList.cellPercentage (ProjectList.allocations st')
    (Cell.projectId c) (Cell.memberId c) (Cell.month c) = n
  ∧ (∀ c', c' ≠ c →
       ProjectList.cellPercentage (ProjectList.allocations st')
         (Cell.projectId c') (Cell.memberId c') (Cell.month c')
       = ProjectList.cellPercentage (ProjectList.allocations st)
           (Cell.projectId c') (Cell.memberId c') (Cell.month c'))
  ∧ ProjectList.editingCell st' = None.
Proof.
  intros st' Hn _ Hrest [Hid Hk].
  assert (E : ProjectList.allocations st'
              = Spec.upsert (ProjectList.allocations st) u c n).
  { unfold st'. rewrite entry_allocations.
    destruct n as [|q|q]; [lia| |lia].
    by rewrite parseInt_toString_positive. }
  split_and!.
  - rewrite E, upsert_percentage by done.
    by destruct (Z.ltb_spec 0 n); [|lia].
  - intros c' Hne. rewrite E. by apply upsert_percentage_other.
  - by destruct c.
Qed.

Lemma typed_entry_witness :
  Spec.wellFormed (ProjectList.allocations Example.state)
  ∧ ProjectList.cellPercentage
      (ProjectList.allocations
         (ProjectList.run
            [ (ProjectList.DoubleClick (Cell.mk "1" "2" "2025-01"), ("", ""));
              (ProjectList.Change "12.75", ("", ""));
              (ProjectList.Commit, ("u1", "")) ] Example.state))
      "1" "2" "2025-01" = 12.
Proof.
  assert (Hwf : Spec.wellFormed (ProjectList.allocations Example.state)).
  { apply (bool_decide_unpack _). vm_compute. exact I. }
  split; [exact Hwf|].
  apply (typed_entry Example.state (Cell.mk "1" "2" "2025-01") 12 ".75" "u1"
           ("", "") ("", "") ""); [lia | | | exact Hwf].
  - unfold Number.isSafeInteger, Number.MAX_SAFE_INTEGER. lia.
  - intros ch r [= <- _]. apply (bool_decide_unpack _). vm_compute. exact I.
Defined.


(** ** What the pointer can write *)

Section Pointer.
Implicit Types (st : ProjectList.State) (i : ProjectList.Input).
Implicit Types (s snap : list Allocation.t) (Q : Allocation.t → Prop).

Local Arguments App.commit : simpl never.

Lemma commit_writes Q queue s :
  Forall (Inv.writes Q) queue → Forall Q s → Forall Q (App.commit queue s).
Proof.
  intros Hq. revert s. induction Hq as [|c queue Hc Hq IH]; intros s Hs.
  - done.
  - unfold App.commit. simpl. apply IH.
    destruct c as [a|a|id]; simpl in *.
    + apply Forall_app. split; [done|]. by apply Forall_singleton.
    + apply Forall_fmap. eapply Forall_impl; [exact Hs|].
      intros b Hb. simpl. by destruct (decide _).
    + by apply Forall_filter_keep.
Qed.

Lemma updateAllocationValue_writes Q snap u p m mo v :
  (0 < v → ∀ a, Allocation.percentage a = v → Q a) →
  Forall (Inv.writes Q) (ProjectList.updateAllocationValue snap u p m mo v).
Proof.
  intros HQ. unfold ProjectList.updateAllocationValue.
  destruct (Z.ltb_spec 0 v) as [Hv|Hv];
    destruct (ProjectList.findAllocation snap p m mo);
    try destruct (decide _); repeat constructor; simpl; by apply HQ.
Qed.

Lemma step_pointer Q st i :
  (∀ a, Allocation.percentage a = 100 ∨ Allocation.percentage a = 50 → Q a) →
  Inv.pointer i → Inv.paints st →
  Inv.paints (ProjectList.step st i)
  ∧ ∃ queue,
      ProjectList.allocations (ProjectList.step st i)
      = App.commit queue (ProjectList.allocations st)
      ∧ Forall (Inv.writes Q) queue.
Proof.
  intros HQ Hptr Hpaint. destruct i as [e [u1 u2]].
  assert (Hval : ∀ snap u p m mo v,
            v = 0 ∨ v = 100 ∨ v = 50 →
            Forall (Inv.writes Q)
              (ProjectList.updateAllocationValue snap u p m mo v)).
  { intros snap u p m mo v Hv. apply updateAllocationValue_writes.
    intros Hpos a Ha. apply HQ. lia. }
  destruct e as [[p m mo]|[p m mo]|[p m mo]| |[p m mo]|text| |p m|p m];
    try done;
    unfold ProjectList.step, ProjectList.dispatch;
    cbv beta iota; cbn [fst snd].
  - (* MouseDown *)
    split; [|by exists []].
    unfold Inv.paints, ProjectList.handleCellMouseDown. simpl.
    destruct (decide _); auto.
  - (* MouseEnter *)
    unfold ProjectList.handleCellMouseEnter.
    destruct (negb _); [split; [done | by exists []]|].
    destruct (decide _); [split; [done | by exists []]|].
    assert (Hpv : Drag.paintValue (ProjectList.dragState st) = 0
                  ∨ Drag.paintValue (ProjectList.dragState st) = 100
                  ∨ Drag.paintValue (ProjectList.dragState st) = 50)
      by (destruct Hpaint; auto).
    destruct (decide (_ ∧ _)); simpl;
      repeat (destruct (decide (_ ∉ _)); simpl);
      try destruct (Drag.hasMoved _); simpl;
      repeat (destruct (decide (_ ∉ _)); simpl);
      (split; [exact Hpaint|]);
      (eexists; split; [reflexivity|]);
      repeat apply Forall_app_2; try apply Forall_nil_2;
      by apply Hval.
  - (* MouseUp *)
    split.
    + unfold Inv.paints, ProjectList.handleGlobalMouseUp,
        ProjectList.handleCellMouseUp.
      destruct (Drag.active (ProjectList.dragState st)) eqn:E; simpl;
        rewrite ?E; exact Hpaint.
    + rewrite globalMouseUp_allocations.
      unfold ProjectList.handleCellMouseUp.
      destruct (negb _); [by exists []|]. simpl.
      eexists; split; [reflexivity|].
      destruct (negb _); [|done]. apply Hval.
      repeat destruct (decide _); auto.
  - (* MouseUpOutside *)
    split.
    + unfold Inv.paints, ProjectList.handleGlobalMouseUp.
      by destruct (Drag.active _).
    + rewrite globalMouseUp_allocations. by exists [].
  - (* DoubleClick *)
    split; [done | by exists []].
  - (* AddMember *)
    split; [done | by exists []].
  - (* RemoveMember *)
    split; [done|].
    unfold ProjectList.handleRemoveMemberFromProject. simpl.
    eexists; split; [reflexivity|].
    apply Forall_fmap, Forall_forall. done.
Qed.

Lemma run_pointer Q inputs st :
  (∀ a, Allocation.percentage a = 100 ∨ Allocation.percentage a = 50 → Q a) →
  Forall Inv.pointer inputs → Inv.paints st →
  Forall Q (ProjectList.allocations st) →
  Inv.paints (ProjectList.run inputs st)
  ∧ Forall Q (ProjectList.allocations (ProjectList.run inputs st)).
Proof.
  intros HQ.
  induction inputs as [|i inputs IH] using rev_ind; intros Hptr Hpaint Hs;
    [done|].
  apply Forall_app in Hptr as [Hptr Hi]. apply Forall_inv in Hi.
  destruct (IH Hptr Hpaint Hs) as [Hpaint' Hs'].
  rewrite run_snoc.
  destruct (step_pointer Q (ProjectList.run inputs st) i HQ Hi Hpaint')
    as (Hp & queue & -> & Hq).
  split; [done|]. by apply commit_writes.
Qed.
End Pointer.

(** X14: clicks and drags write no percentage other than 100 and 50: after
    any events of the pointer and the menus, an entry field that is never
    changed or committed, a record of the store has a percentage of 100 or
    50, or was in the store before the events. *)
Theorem pointer_writes_100_or_50 (st : ProjectList.State)
    (inputs : list ProjectList.Input) :
  Forall Inv.pointer inputs → Inv.paints st →
  Forall (λ a, Allocation.percentage a = 100 ∨ Allocation.percentage a = 50
               ∨ a ∈ ProjectList.allocations st)
    (ProjectList.allocations (ProjectList.run inputs st)).
Proof.
  intros Hptr Hpaint.
  apply (run_pointer
           (λ a, Allocation.percentage a = 100 ∨ Allocation.percentage a = 50
                 ∨ a ∈ ProjectList.allocations st)); try done.
  - intros a [?|?]; auto.
  - apply Forall_forall. auto.
Qed.

Lemma pointer_writes_100_or_50_witness :
  Forall Inv.pointer
    (Spec.gesture Example.dragStart Example.dragMoves)
  ∧ Inv.paints Example.state
  ∧ Forall (λ a, Allocation.percentage a = 100 ∨ Allocation.percentage a = 50
                 ∨ a ∈ ProjectList.allocations Example.state)
      (ProjectList.allocations
         (ProjectList.run (Spec.gesture Example.dragStart Example.dragMoves)
            Example.state)).
Proof.
  assert (H1 : Forall Inv.pointer
                 (Spec.gesture Example.dragStart Example.dragMoves))
    by (repeat constructor).
  assert (H2 : Inv.paints Example.state) by (by left).
  split; [exact H1|]. split; [exact H2|].
  apply (pointer_writes_100_or_50 Example.state
           (Spec.gesture Example.dragStart Example.dragMoves) H1 H2).
Defined.


Section Hover.
Implicit Types (st : ProjectList.State).

Lemma enters_inactive moves st :
  Drag.active (ProjectList.dragState st) = false →
  ProjectList.run (Spec.enters moves) st = st.
Proof.
  intros Hact. induction moves as [|[[p m mo] [u1 u2]] moves IH]; [done|].
  unfold Spec.enters, ProjectList.run in *. rewrite fmap_cons. cbn [foldl].
  unfold ProjectList.step at 2. cbn [fst snd ProjectList.dispatch].
  by rewrite mouseEnter_inactive.
Qed.
End Hover.

(** X15: a pointer that moves over the grid with no button held writes
    nothing: a release, over a cell or elsewhere, and a double click end the
    drag, and the cells entered afterwards leave the state as it is; so does
    the state the grid starts in. *)
Theorem hover_writes_nothing (st : ProjectList.State) (c : Cell.t)
    (us : string * string) (moves : list (Cell.t * (string * string))) :
  (∀ e, e = ProjectList.MouseUp c ∨ e = ProjectList.MouseUpOutside
        ∨ e = ProjectList.DoubleClick c →
     ProjectList.run (Spec.enters moves) (ProjectList.step st (e, us))
     = ProjectList.step st (e, us))
  ∧ (Drag.active (ProjectList.dragState st) = false →
     ProjectList.run (Spec.enters moves) st = st)
  ∧ ProjectList.run (Spec.enters moves) ProjectList.initial
    = ProjectList.initial.
Proof.
  split_and!.
  - intros e He. apply enters_inactive. destruct c as [p m mo].
    destruct He as [->|[->| ->]];
      unfold ProjectList.step, ProjectList.dispatch; cbn [fst snd].
    + unfold ProjectList.handleGlobalMouseUp, ProjectList.handleCellMouseUp.
      destruct (Drag.active (ProjectList.dragState st)) eqn:E; simpl;
        by rewrite ?E.
    + unfold ProjectList.handleGlobalMouseUp.
      by destruct (Drag.active (ProjectList.dragState st)) eqn:E.
    + done.
  - apply enters_inactive.
  - by apply enters_inactive.
Qed.

Lemma hover_writes_nothing_witness :
  ProjectList.run (Spec.enters Example.dragMoves)
    (ProjectList.step Example.state (ProjectList.MouseUpOutside, ("", "")))
  = ProjectList.step Example.state (ProjectList.MouseUpOutside, ("", "")).
Proof.
  apply (proj1 (hover_writes_nothing Example.state (Cell.mk "1" "1" "2025-01")
                  ("", "") Example.dragMoves)).
  right. by left.
Defined.

(** X16: a write of the value that a cell holds already makes no call:
    writing a value twice is writing it once; and of two writes on a cell
    the second decides what the cell shows. *)
Theorem write_twice (s : list Allocation.t) (u u' : string) (c : Cell.t)
    (v v' : Z) :
  Spec.wellFormed s →
  ProjectList.updateAllocationValue (Spec.upsert s u c v) u'
    (Cell.projectId c) (Cell.memberId c) (Cell.month c) v = []
  ∧ Spec.upsert (Spec.upsert s u c v) u' c v = Spec.upsert s u c v
  ∧ ProjectList.cellPercentage (Spec.upsert (Spec.upsert s u c v) u' c v')
      (Cell.projectId c) (Cell.memberId c) (Cell.month c)
    = (if 0 <? v' then v' else 0).
Proof.
  intros [Hid Hk].
  assert (E : ProjectList.updateAllocationValue (Spec.upsert s u c v) u'
                (Cell.projectId c) (Cell.memberId c) (Cell.month c) v = []).
  { destruct (Z.ltb_spec 0 v) as [Hv|Hv].
    - pose proof (upsert_percentage s u c v Hk) as Hshown.
      replace (0 <? v) with true in Hshown by (symmetry; by apply Z.ltb_lt).
      rewrite <- Hshown at 2. apply updateAllocationValue_shown.
      by rewrite Hshown.
    - unfold ProjectList.updateAllocationValue.
      rewrite (upsert_absent s u c v Hk Hv).
      by replace (0 <? v) with false by (symmetry; by apply Z.ltb_ge). }
  split; [done|]. split.
  - unfold Spec.upsert at 1. by rewrite E.
  - apply upsert_percentage. by apply write_uniqueKeys.
Qed.

Lemma write_twice_witness :
  Spec.wellFormed Example.allocations
  ∧ Spec.upsert
      (Spec.upsert Example.allocations "u1" (Cell.mk "2" "1" "2025-01") 70)
      "u2" (Cell.mk "2" "1" "2025-01") 70
    = Example.allocations ++ [Allocation.mk "u1" "2" "1" "2025-01" 70].
Proof.
  assert (Hwf : Spec.wellFormed Example.allocations).
  { apply (bool_decide_unpack _). vm_compute. exact I. }
  split; [exact Hwf|].
  rewrite (proj1 (proj2 (write_twice Example.allocations "u1" "u2"
                           (Cell.mk "2" "1" "2025-01") 70 0 Hwf))).
  reflexivity.
Defined.


(** ** Costs after a member or a role is deleted *)

Section Deletions.
Context {F : Type} `{Arith F}.
Implicit Types (members : list TeamMember.t) (roles : list (Role.t F)).
Implicit Types (a : Allocation.t) (l : list Allocation.t) (d : string).

Lemma omap_filter {A B : Type} (f g : A → option B) (P : A → Prop)
    `{∀ x, Decision (P x)} (l : list A) :
  (∀ x, x ∈ l → P x → f x = g x) → (∀ x, x ∈ l → ¬ P x → f x = None) →
  omap f l = omap g (filter P l).
Proof.
  induction l as [|x l IH]; intros Hin Hout; [done|].
  assert (E : omap f l = omap g (filter P l)).
  { apply IH; intros z Hz; [apply Hin | apply Hout]; by right. }
  rewrite filter_cons. cbn [omap list_omap].
  destruct (decide (P x)) as [Hp|Hp].
  - cbn [omap list_omap]. rewrite (Hin x) by (done || left). by rewrite E.
  - rewrite (Hout x) by (done || left). exact E.
Qed.

Lemma filter_comm {A : Type} (P Q : A → Prop) `{∀ x, Decision (P x)}
    `{∀ x, Decision (Q x)} (l : list A) :
  filter P (filter Q l) = filter Q (filter P l).
Proof.
  rewrite !filter_filter_and. apply filter_ext_elem. tauto.
Qed.

Lemma contribution_deleteMember members roles d a :
  Spec.contribution (App.deleteMember d members) roles a
  = if decide (Allocation.memberId a ≠ d)
    then Spec.contribution members roles a else None.
Proof.
  unfold Spec.contribution, App.deleteMember.
  destruct (decide (Allocation.memberId a ≠ d)) as [Hne|Heq].
  - rewrite find_filter_frame; [done|]. intros m _ Hm. congruence.
  - rewrite find_filter_None; [done|]. intros m _ Hm Hn.
    apply Heq. congruence.
Qed.

Lemma contribution_deleteRole members roles d a :
  Spec.contribution members (App.deleteRole d roles) a
  = if decide (TeamMember.roleId <$>
                 Js.find (λ m, TeamMember.id m = Allocation.memberId a) members
               ≠ Some d)
    then Spec.contribution members roles a else None.
Proof.
  unfold Spec.contribution, App.deleteRole.
  destruct (Js.find _ members) as [member|]; simpl.
  2:{ done. }
  destruct (decide (Some (TeamMember.roleId member) ≠ Some d)) as [Hne|Heq].
  - rewrite find_filter_frame; [done|]. intros r _ Hr. congruence.
  - rewrite find_filter_None; [done|]. intros r _ Hr Hn.
    apply Heq. congruence.
Qed.

Lemma sum_contributions_filter members members' roles roles'
    (P Q : Allocation.t → Prop) `{∀ a, Decision (P a)}
    `{∀ a, Decision (Q a)} l :
  (∀ a, Spec.contribution members' roles' a
        = if decide (P a) then Spec.contribution members roles a else None) →
  omap (Spec.contribution members' roles') (filter Q l)
  = omap (Spec.contribution members roles) (filter Q (filter P l)).
Proof.
  intros Hc. rewrite filter_comm. apply omap_filter.
  - intros a _ HP. by rewrite Hc, decide_True.
  - intros a _ HP. by rewrite Hc, decide_False.
Qed.
End Deletions.

(** X17: deleting a member of the team leaves the member's allocations in
    the store, but they no longer count: the cost of every project and of
    every month is the cost of the store without them, and the
    over-allocation check has no finding for the member. *)
Theorem delete_member_costs {F : Type} `{Arith F}
    (context : GeminiService.AnalysisContext F) (id : string) :
  let allocations := GeminiService.allocations context in
  let members := GeminiService.members context in
  let roles := GeminiService.roles context in
  let remaining := filter (λ a, Allocation.memberId a ≠ id) allocations in
  (∀ projId,
     ProjectList.calculateProjectTotal allocations
       (App.deleteMember id members) roles projId
     = ProjectList.calculateProjectTotal remaining members roles projId)
  ∧ (∀ month,
       Dashboard.monthCost allocations (App.deleteMember id members) roles
         month
       = Dashboard.monthCost remaining members roles month)
  ∧ (∀ member month total,
       (member, month, total)
       ∈ Spec.overAllocated
           (GeminiService.mkContext F (GeminiService.projects context)
              (App.deleteMember id members) roles allocations) →
       TeamMember.id member ≠ id).
Proof.
  intros allocations members roles remaining. split_and!.
  - intros projId. rewrite !calculateProjectTotal_sum. f_equal.
    apply sum_contributions_filter. apply contribution_deleteMember.
  - intros month. rewrite !monthCost_sum. f_equal.
    apply sum_contributions_filter. apply contribution_deleteMember.
  - intros member month total [Hin _]%overAllocated_elem. simpl in Hin.
    by apply list_elem_of_filter in Hin as [? _].
Qed.

(** X18: deleting a role leaves its members in the team, but their
    allocations no longer count: the cost of every project and of every
    month is the cost of the store without the allocations of the members of
    the role. *)
Theorem delete_role_costs {F : Type} `{Arith F}
    (allocations : list Allocation.t) (members : list TeamMember.t)
    (roles : list (Role.t F)) (id : string) :
  let remaining :=
    filter (λ a, TeamMember.roleId <$>
                   Js.find (λ m, TeamMember.id m = Allocation.memberId a)
                     members
                 ≠ Some id) allocations in
  (∀ projId,
     ProjectList.calculateProjectTotal allocations members
       (App.deleteRole id roles) projId
     = ProjectList.calculateProjectTotal remaining members roles projId)
  ∧ (∀ month,
       Dashboard.monthCost allocations members (App.deleteRole id roles) month
       = Dashboard.monthCost remaining members roles month).
Proof.
  intros remaining. split.
  - intros projId. rewrite !calculateProjectTotal_sum. f_equal.
    apply sum_contributions_filter. apply contribution_deleteRole.
  - intros month. rewrite !monthCost_sum. f_equal.
    apply sum_contributions_filter. apply contribution_deleteRole.
Qed.


(** ** The months of the forecast *)

Section Sorting.
Implicit Types (a b c : string) (l : list string).

Lemma str_le_trans a b c : Js.str_le a b → Js.str_le b c → Js.str_le a c.
Proof.
  unfold Js.str_le. revert b c.
  induction a as [|x a IH]; intros [|y b] [|z c]; simpl; try done.
  unfold Ascii.compare.
  destruct (N.compare_spec (N_of_ascii x) (N_of_ascii y)) as [Exy|Hxy|Hxy],
    (N.compare_spec (N_of_ascii y) (N_of_ascii z)) as [Eyz|Hyz|Hyz],
    (N.compare_spec (N_of_ascii x) (N_of_ascii z)) as [Exz|Hxz|Hxz];
    try done; try lia.
  apply IH.
Qed.

Lemma str_le_total a b : Js.str_le a b ∨ Js.str_le b a.
Proof.
  unfold Js.str_le. rewrite (String.compare_antisym b a).
  destruct (String.compare a b); simpl; auto.
Qed.

Lemma str_le_antisym a b : Js.str_le a b → Js.str_le b a → a = b.
Proof.
  unfold Js.str_le. rewrite (String.compare_antisym b a).
  destruct (String.compare a b) eqn:E; simpl; try done.
  intros _ _. by apply String.compare_eq_iff.
Qed.

#[local] Instance str_le_Transitive : Transitive Js.str_le.
Proof. intros a b c. apply str_le_trans. Qed.

#[local] Instance str_le_Total : Total Js.str_le.
Proof. intros a b. apply str_le_total. Qed.

Lemma sortedDistinct_sorted l : StronglySorted Js.str_le (Js.sortedDistinct l).
Proof. unfold Js.sortedDistinct. apply StronglySorted_merge_sort; apply _. Qed.

Lemma StronglySorted_lookup {A : Type} (R : relation A) (l : list A)
    (i j : nat) (x y : A) :
  StronglySorted R l → l !! i = Some x → l !! j = Some y → (i < j)%nat →
  R x y.
Proof.
  intros Hs. revert i j.
  induction Hs as [|z l Hs IH Hall]; intros i j Hi Hj Hij; [done|].
  destruct i as [|i], j as [|j]; try lia; simpl in *.
  - injection Hi as ->. rewrite Forall_forall in Hall.
    apply Hall. by eapply list_elem_of_lookup_2.
  - apply (IH i j); [done..|lia].
Qed.
End Sorting.

(** X19: the forecast has one row for every month of the store, and no
    other; the rows are in the ascending order of the month identifiers,
    each month once, with the business hours of the month; the months are
    those that the over-allocation check scans, in the same order. *)
Theorem financial_months {F : Type} `{Arith F}
    (getMonthName : string → string)
    (context : GeminiService.AnalysisContext F) :
  let allocations := GeminiService.allocations context in
  let months := Js.sortedDistinct (Allocation.month <$> allocations) in
  let data :=
    Dashboard.financialData getMonthName allocations
      (GeminiService.members context) (GeminiService.roles context) in
  Dashboard.month <$> data = getMonthName <$> months
  ∧ Dashboard.hours <$> data = Utils.getBusinessHoursInMonth <$> months
  ∧ GeminiService.uniqueMonths context = months
  ∧ (∀ m, m ∈ months ↔ ∃ a, a ∈ allocations ∧ Allocation.month a = m)
  ∧ NoDup months
  ∧ ∀ i j a b, months !! i = Some a → months !! j = Some b → (i < j)%nat →
      Js.str_le a b ∧ a ≠ b.
Proof.
  intros allocations months data. split_and!.
  - unfold data, Dashboard.financialData. by rewrite <- list_fmap_compose.
  - unfold data, Dashboard.financialData. by rewrite <- list_fmap_compose.
  - done.
  - intros m. apply (uniqueMonths_elem context).
  - apply sortedDistinct_NoDup.
  - intros i j a b Hi Hj Hij. split.
    + pose proof (sortedDistinct_sorted (Allocation.month <$> allocations))
        as Hsorted.
      by apply (StronglySorted_lookup _ _ i j a b Hsorted).
    + intros ->.
      pose proof (sortedDistinct_NoDup (Allocation.month <$> allocations))
        as Hnd.
      pose proof (NoDup_lookup _ i j b Hnd Hi Hj). lia.
Qed.


(** ** Rows that share out the store *)

Section Partition.
Context {A K : Type} `{EqDecision K}.
Implicit Types (f : A → K) (ks : list K) (l : list A).

Lemma filter_none (P : A → Prop) `{∀ x, Decision (P x)} l :
  (∀ x, x ∈ l → ¬ P x) → filter P l = [].
Proof.
  induction l as [|x l IH]; intros Hall; [done|].
  rewrite filter_cons, decide_False by (apply Hall; left).
  apply IH. intros z Hz. apply Hall. by right.
Qed.

Lemma filter_key_cons f k ks l :
  k ∉ ks →
  filter (λ a, f a ∈ k :: ks) l
  ≡ₚ filter (λ a, f a = k) l ++ filter (λ a, f a ∈ ks) l.
Proof.
  intros Hk. induction l as [|x l IH]; [done|].
  rewrite !filter_cons.
  destruct (decide (f x = k)) as [E|E].
  - rewrite decide_True by (rewrite E; left).
    rewrite decide_False by (by rewrite E).
    simpl. by rewrite IH.
  - destruct (decide (f x ∈ ks)) as [Hin|Hin].
    + rewrite decide_True by by right.
      rewrite IH. apply Permutation_middle.
    + rewrite decide_False; [done|].
      intros [?|?]%elem_of_cons; done.
Qed.

(** The groups of the keys [ks] hold the elements whose key is in [ks],
    each once. *)
Lemma groups_by_key f ks l :
  NoDup ks →
  ks ≫= (λ k, filter (λ a, f a = k) l) ≡ₚ filter (λ a, f a ∈ ks) l.
Proof.
  induction 1 as [|k ks Hk Hnd IH]; simpl.
  - symmetry. rewrite filter_none; [done|].
    intros x _. apply not_elem_of_nil.
  - rewrite IH. symmetry. by apply filter_key_cons.
Qed.

Lemma groups_cover f ks l :
  NoDup ks → (∀ a, a ∈ l → f a ∈ ks) →
  ks ≫= (λ k, filter (λ a, f a = k) l) ≡ₚ l.
Proof.
  intros Hnd Hall. rewrite groups_by_key by done. by rewrite filter_all.
Qed.
End Partition.

Section Sums.
Implicit Types (l : list Z).

Lemma sum_app l l' :
  foldr Z.add 0 (l ++ l') = foldr Z.add 0 l + foldr Z.add 0 l'.
Proof. induction l as [|x l IH]; simpl; lia. Qed.

Lemma sum_Permutation l l' : l ≡ₚ l' → foldr Z.add 0 l = foldr Z.add 0 l'.
Proof. induction 1; simpl; lia. Qed.

Lemma sum_bind {A B : Type} (f : B → Z) (g : A → list B) (ks : list A) :
  foldr Z.add 0 (f <$> (ks ≫= g))
  = foldr Z.add 0 ((λ k, foldr Z.add 0 (f <$> g k)) <$> ks).
Proof.
  induction ks as [|k ks IH]; [done|].
  cbn [mbind list_bind]. rewrite fmap_app, fmap_cons, sum_app, IH. done.
Qed.
End Sums.


(** ** The capacity plan *)

Section Capacity.
Implicit Types (s : list Allocation.t) (member : TeamMember.t).
Implicit Types (members fm : list TeamMember.t) (months : list string).
Implicit Types (m p : string).

Local Abbreviation pct l := (foldr Z.add 0 (Allocation.percentage <$> l)).

Lemma memberMonthlyTotals_lookup s member months (i : nat) m :
  months !! i = Some m →
  TeamManager.memberMonthlyTotals s member months !! i
  = Some (Spec.personMonthTotal s (TeamMember.id member) m).
Proof.
  intros Hi. unfold TeamManager.memberMonthlyTotals, Spec.personMonthTotal.
  rewrite list_lookup_fmap, Hi. simpl. by rewrite foldl_sum.
Qed.

Lemma totalPct_sum s fm m :
  TeamManager.totalPct s fm m
  = pct (filter (λ a, Allocation.memberId a ∈ TeamMember.id <$> fm)
           (filter (λ a, Allocation.month a = m) s)).
Proof.
  unfold TeamManager.totalPct. rewrite foldl_sum, Z.add_0_l.
  rewrite filter_filter_and. do 2 f_equal. apply filter_ext_elem.
  intros a _. rewrite Exists_exists, list_elem_of_fmap.
  split.
  - intros [Hm (x & Hx & E)]. split; [done|]. by exists x.
  - intros [Hm (x & E & Hx)]. split; [done|]. by exists x.
Qed.

Lemma pct_filter_bounds s (P : Allocation.t → Prop)
    `{∀ a, Decision (P a)} :
  Forall (λ a, 0 ≤ Allocation.percentage a) s →
  0 ≤ pct (filter P s) ≤ pct s.
Proof.
  induction 1 as [|a s Ha Hs IH]; [simpl; lia|].
  rewrite filter_cons.
  destruct (decide (P a)); rewrite ?fmap_cons; cbn [foldr]; lia.
Qed.

(** In a safe store every total over a part of the store is a safe
    integer. *)
Lemma pct_filter_safe s (P : Allocation.t → Prop) `{∀ a, Decision (P a)} :
  Inv.safe s → Number.isSafeInteger (pct (filter P s)).
Proof.
  intros [Hnn [_ Hmax]].
  pose proof (pct_filter_bounds s P Hnn) as Hb.
  unfold Number.isSafeInteger, Number.MAX_SAFE_INTEGER in *. lia.
Qed.

Lemma totalPct_safe s fm m :
  Inv.safe s → Number.isSafeInteger (TeamManager.totalPct s fm m).
Proof.
  intros Hs. rewrite totalPct_sum, filter_filter_and.
  by apply pct_filter_safe.
Qed.

Lemma personMonthTotal_safe s (memberId : string) m :
  Inv.safe s → Number.isSafeInteger (Spec.personMonthTotal s memberId m).
Proof. intros Hs. unfold Spec.personMonthTotal. by apply pct_filter_safe. Qed.

Lemma single_of_NoDup {A : Type} (l : list A) :
  NoDup l → (∀ x y, x ∈ l → y ∈ l → x = y) → l = [] ∨ ∃ a, l = [a].
Proof.
  intros Hnd Hall. destruct l as [|a [|b l]]; [by left | right; by eexists|].
  apply NoDup_cons in Hnd as [Hab _]. destruct Hab.
  rewrite (Hall a b); [left | left | right; left].
Qed.

(** With distinct keys a cell has at most one record. *)
Lemma cell_records s member p m :
  Spec.uniqueKeys s →
  let g := filter (λ a, Allocation.memberId a = TeamMember.id member
                        ∧ Allocation.projectId a = p
                        ∧ Allocation.month a = m) s in
  g = [] ∨ ∃ a, g = [a].
Proof.
  intros Hk g. apply single_of_NoDup.
  - apply NoDup_filter. by apply (NoDup_fmap_1 Spec.keyOf).
  - intros x y [(Hxm & Hxp & Hxmo) Hx]%list_elem_of_filter
      [(Hym & Hyp & Hymo) Hy]%list_elem_of_filter.
    apply (NoDup_fmap_eq Spec.keyOf s); [done..|].
    unfold Spec.keyOf. congruence.
Qed.

Lemma breakdownCell_sum s member p m :
  Spec.uniqueKeys s → Forall (λ a, 0 ≤ Allocation.percentage a) s →
  default 0 (TeamManager.breakdownCell s member p m)
  = pct (filter (λ a, Allocation.projectId a = p)
           (filter (λ a, Allocation.memberId a = TeamMember.id member
                         ∧ Allocation.month a = m) s)).
Proof.
  intros Hk Hnn. unfold TeamManager.breakdownCell.
  rewrite find_head_filter.
  replace (filter (λ a, Allocation.projectId a = p)
             (filter (λ a, Allocation.memberId a = TeamMember.id member
                           ∧ Allocation.month a = m) s))
    with (filter (λ a, Allocation.memberId a = TeamMember.id member
                       ∧ Allocation.projectId a = p
                       ∧ Allocation.month a = m) s).
  2:{ rewrite filter_filter_and. apply filter_ext_elem. tauto. }
  destruct (cell_records s member p m Hk) as [E|[a E]].
  - by rewrite E.
  - assert (Ha : a ∈ s).
    { assert (Hin : a ∈ filter
                            (λ a, Allocation.memberId a = TeamMember.id member
                                  ∧ Allocation.projectId a = p
                                  ∧ Allocation.month a = m) s)
        by (rewrite E; left).
      by apply list_elem_of_filter in Hin as [_ ?]. }
    rewrite Forall_forall in Hnn. specialize (Hnn a Ha).
    rewrite E. simpl.
    destruct (Z.ltb_spec 0 (Allocation.percentage a)); simpl; lia.
Qed.
End Capacity.

(** X20: in the capacity plan the total of a month in the footer is the sum
    of the totals of the month in the rows of the members shown, if the
    members have distinct identifiers and the store is safe: its
    percentages are not negative and add up to a safe integer, so that the
    footer and every row hold a safe integer, computed exactly. *)
Theorem footer_adds_up_rows (allocations : list Allocation.t)
    (members : list TeamMember.t) (memberTypeFilter : option MemberType.t)
    (months : list string) (i : nat) (m : string) :
  let shown := TeamManager.filteredMembers memberTypeFilter members in
  Inv.safe allocations →
  NoDup (TeamMember.id <$> members) →
  months !! i = Some m →
  TeamManager.totalPct allocations shown m
  = foldr Z.add 0
      ((λ member,
          default 0
            (TeamManager.memberMonthlyTotals allocations member months !! i))
         <$> shown)
  ∧ Number.isSafeInteger (TeamManager.totalPct allocations shown m)
  ∧ ∀ member,
      Number.isSafeInteger
        (default 0
           (TeamManager.memberMonthlyTotals allocations member months !! i)).
Proof.
  intros shown Hsafe Hnd Hi.
  split; [|split; [by apply totalPct_safe|]].
  2:{ intros member. rewrite (memberMonthlyTotals_lookup _ _ _ _ _ Hi).
      by apply personMonthTotal_safe. }
  assert (Hshown : NoDup (TeamMember.id <$> shown))
    by by apply NoDup_filter_fmap.
  rewrite totalPct_sum.
  rewrite (sum_Permutation _
             (Allocation.percentage <$>
                ((TeamMember.id <$> shown) ≫=
                   (λ k, filter (λ a, Allocation.memberId a = k)
                           (filter (λ a, Allocation.month a = m)
                              allocations))))).
  2:{ apply fmap_Permutation. symmetry. by apply groups_by_key. }
  rewrite sum_bind, <- list_fmap_compose.
  f_equal. apply list_fmap_ext. intros j member _. simpl.
  rewrite (memberMonthlyTotals_lookup _ _ _ _ _ Hi). simpl.
  unfold Spec.personMonthTotal. do 2 f_equal.
  rewrite filter_filter_and. apply filter_ext_elem. tauto.
Qed.

Lemma footer_adds_up_rows_witness :
  Inv.safe (ProjectList.allocations Demo.state)
  ∧ NoDup (TeamMember.id <$> AppData.INITIAL_MEMBERS)
  ∧ TeamManager.totalPct (ProjectList.allocations Demo.state)
      (TeamManager.filteredMembers (Some MemberType.FULL_TIME)
         AppData.INITIAL_MEMBERS) "2024-12"
    = 200.
Proof.
  assert (Hsafe : Inv.safe (ProjectList.allocations Demo.state)).
  { split; [apply (bool_decide_unpack _); vm_compute; exact I|].
    unfold Number.isSafeInteger, Number.MAX_SAFE_INTEGER. by vm_compute. }
  assert (Hnd : NoDup (TeamMember.id <$> AppData.INITIAL_MEMBERS)).
  { apply (bool_decide_unpack _). vm_compute. exact I. }
  split; [exact Hsafe|]. split; [exact Hnd|].
  rewrite (proj1 (footer_adds_up_rows (ProjectList.allocations Demo.state)
                    AppData.INITIAL_MEMBERS (Some MemberType.FULL_TIME)
                    ["2024-11"; "2024-12"] 1 "2024-12" Hsafe Hnd eq_refl)).
  by vm_compute.
Defined.

(** X21: in the breakdown of a member the percentages of the project rows
    (a dash counts 0) add up to the total of the member, month by month,
    and with the bench row to 100 if the total is not above 100; this needs
    a store with distinct keys that is safe: its percentages are not
    negative and add up to a safe integer, so that the total is a safe
    integer, computed exactly. *)
Theorem breakdown_adds_up (allocations : list Allocation.t)
    (member : TeamMember.t) (months : list string) (i : nat) (m : string) :
  let total :=
    default 0
      (TeamManager.memberMonthlyTotals allocations member months !! i) in
  let cells :=
    (λ projectId,
       default 0 (TeamManager.breakdownCell allocations member projectId m))
      <$> TeamManager.memberProjectIds allocations member months in
  Spec.uniqueKeys allocations →
  Inv.safe allocations →
  months !! i = Some m →
  foldr Z.add 0 cells = total
  ∧ Number.isSafeInteger total
  ∧ (total ≤ 100 →
     foldr Z.add 0 cells + default 0 (TeamManager.benchCell total) = 100).
Proof.
  intros total cells Hk Hsafe Hi.
  pose proof (proj1 Hsafe) as Hnn.
  assert (Hm : m ∈ months) by by eapply list_elem_of_lookup_2.
  assert (Etotal : total
                   = Spec.personMonthTotal allocations (TeamMember.id member)
                       m).
  { unfold total. by rewrite (memberMonthlyTotals_lookup _ _ _ _ _ Hi). }
  assert (E : foldr Z.add 0 cells = total).
  { rewrite Etotal. unfold cells, Spec.personMonthTotal.
    set (l := filter (λ a, Allocation.memberId a = TeamMember.id member
                           ∧ Allocation.month a = m) allocations).
    rewrite (sum_Permutation (Allocation.percentage <$> l)
               (Allocation.percentage <$>
                  (TeamManager.memberProjectIds allocations member months ≫=
                     (λ k, filter (λ a, Allocation.projectId a = k) l)))).
    2:{ apply fmap_Permutation. symmetry. apply groups_cover.
        - apply distinct_NoDup.
        - intros a [[Hmem Hmo] Ha]%list_elem_of_filter.
          unfold TeamManager.memberProjectIds. apply distinct_elem.
          split; [|apply not_elem_of_empty].
          apply list_elem_of_fmap_2, list_elem_of_filter.
          split; [|done]. split; [done|]. by rewrite Hmo. }
    rewrite sum_bind. f_equal. apply list_fmap_ext. intros j p _.
    by apply breakdownCell_sum. }
  split; [done|]. split.
  { rewrite Etotal. by apply personMonthTotal_safe. }
  intros Hle. rewrite E. unfold TeamManager.benchCell.
  cbv zeta. destruct (Z.ltb_spec 0 (100 - total)); simpl; lia.
Qed.

Lemma breakdown_adds_up_witness :
  Spec.uniqueKeys Example.staffing
  ∧ Inv.safe Example.staffing
  ∧ foldr Z.add 0
      ((λ projectId,
          default 0
            (TeamManager.breakdownCell Example.staffing
               (TeamMember.mk "2" "Mike Ross" "3" None MemberType.CONTRACTOR)
               projectId "2024-04"))
         <$> TeamManager.memberProjectIds Example.staffing
               (TeamMember.mk "2" "Mike Ross" "3" None MemberType.CONTRACTOR)
               ["2024-02"; "2024-04"])
    = 150.
Proof.
  assert (Hk : Spec.uniqueKeys Example.staffing).
  { apply (bool_decide_unpack _). vm_compute. exact I. }
  assert (Hnn : Inv.safe Example.staffing).
  { split; [apply (bool_decide_unpack _); vm_compute; exact I|].
    unfold Number.isSafeInteger, Number.MAX_SAFE_INTEGER. by vm_compute. }
  split; [exact Hk|]. split; [exact Hnn|].
  rewrite (proj1 (breakdown_adds_up Example.staffing
                    (TeamMember.mk "2" "Mike Ross" "3" None
                       MemberType.CONTRACTOR)
                    ["2024-02"; "2024-04"] 1 "2024-04" Hk Hnn eq_refl)).
  by vm_compute.
Defined.

(** X22: the badge of a total in the capacity plan is red exactly when the
    over-allocation check has a finding for the member and the month, with
    the same total; it is green at 100, amber between 0 and 100, and grey at
    0 or below. *)
Theorem capacity_badges {F : Type} (context : GeminiService.AnalysisContext F)
    (member : TeamMember.t) (months : list string) (i : nat) (m : string) :
  let total :=
    default 0
      (TeamManager.memberMonthlyTotals (GeminiService.allocations context)
         member months !! i) in
  member ∈ GeminiService.members context →
  months !! i = Some m →
  total = GeminiService.totalAlloc context member m
  ∧ (TeamManager.badgeClass total = TeamManager.Red
     ↔ (member, m, total) ∈ Spec.overAllocated context)
  ∧ (TeamManager.badgeClass total = TeamManager.Emerald ↔ total = 100)
  ∧ (TeamManager.badgeClass total = TeamManager.Amber ↔ 0 < total < 100)
  ∧ (TeamManager.badgeClass total = TeamManager.Slate ↔ total ≤ 0).
Proof.
  intros total Hmember Hi.
  assert (Etotal : total
                   = Spec.personMonthTotal (GeminiService.allocations context)
                       (TeamMember.id member) m).
  { unfold total. by rewrite (memberMonthlyTotals_lookup _ _ _ _ _ Hi). }
  split; [by rewrite totalAlloc_sum|].
  rewrite overAllocated_elem. unfold TeamManager.badgeClass.
  destruct (decide (total = 100)) as [E|E];
    destruct (Z.ltb_spec 100 total), (Z.ltb_spec 0 total);
    repeat split; try done; try lia; try (intros (_ & _ & ?); lia).
Qed.

Lemma capacity_badges_witness :
  TeamMember.mk "2" "Mike Ross" "3" None MemberType.CONTRACTOR
  ∈ GeminiService.members Example.context
  ∧ (TeamMember.mk "2" "Mike Ross" "3" None MemberType.CONTRACTOR,
     "2024-04", 150)
    ∈ Spec.overAllocated Example.context.
Proof.
  assert (Hin : TeamMember.mk "2" "Mike Ross" "3" None MemberType.CONTRACTOR
                ∈ GeminiService.members Example.context)
    by (right; left).
  split; [exact Hin|].
  apply (proj1 (proj1 (proj2 (capacity_badges Example.context
                                (TeamMember.mk "2" "Mike Ross" "3" None
                                   MemberType.CONTRACTOR)
                                ["2024-02"; "2024-04"] 1 "2024-04"
                                Hin eq_refl)))).
  by vm_compute.
Defined.

(** X23: expanding and collapsing the breakdown of a member: a toggle
    changes the state of that member only, and two toggles restore the set.
    *)
Theorem toggle_member_expand (memberId : string)
    (expandedMembers : gset string) :
  (memberId ∈ TeamManager.toggleMemberExpand memberId expandedMembers
   ↔ memberId ∉ expandedMembers)
  ∧ (∀ other, other ≠ memberId →
       other ∈ TeamManager.toggleMemberExpand memberId expandedMembers
       ↔ other ∈ expandedMembers)
  ∧ TeamManager.toggleMemberExpand memberId
      (TeamManager.toggleMemberExpand memberId expandedMembers)
    = expandedMembers.
Proof.
  assert (H1 : memberId
               ∈ TeamManager.toggleMemberExpand memberId expandedMembers
               ↔ memberId ∉ expandedMembers).
  { unfold TeamManager.toggleMemberExpand.
    destruct (decide (memberId ∈ expandedMembers)) as [Hin|Hin].
    - rewrite elem_of_difference, elem_of_singleton. tauto.
    - rewrite elem_of_union, elem_of_singleton. tauto. }
  assert (H2 : ∀ s other, other ≠ memberId →
               other ∈ TeamManager.toggleMemberExpand memberId s ↔ other ∈ s).
  { intros s other Hne. unfold TeamManager.toggleMemberExpand.
    destruct (decide (memberId ∈ s)) as [Hin|Hin].
    - rewrite elem_of_difference, elem_of_singleton. tauto.
    - rewrite elem_of_union, elem_of_singleton. tauto. }
  split; [done|]. split; [apply H2|].
  apply set_eq. intros x. destruct (decide (x = memberId)) as [->|Hne].
  - unfold TeamManager.toggleMemberExpand at 1.
    destruct (decide (memberId ∈ _)) as [Hin|Hin].
    + rewrite elem_of_difference, elem_of_singleton. apply H1 in Hin. tauto.
    + rewrite elem_of_union, elem_of_singleton.
      destruct (decide (memberId ∈ expandedMembers)); [tauto|].
      destruct Hin. by apply H1.
  - by rewrite !H2.
Qed.


(** ** Totals in exact arithmetic *)

Section ExactTotals.
Context {F : Type} `{Arith F}.
Hypothesis add_comm : ∀ x y : F, add x y = add y x.
Hypothesis add_assoc : ∀ x y z : F, add x (add y z) = add (add x y) z.
Hypothesis add_zero : ∀ x : F, add (of_Z 0) x = x.
Implicit Types (l : list F) (z : F).

Lemma foldl_add_zero l z : foldl add z l = add z (foldl add (of_Z 0) l).
Proof.
  revert z. induction l as [|x l IH]; intros z.
  - simpl. by rewrite add_comm, add_zero.
  - simpl. rewrite (IH (add z x)), (IH (add (of_Z 0) x)).
    by rewrite add_zero, add_assoc.
Qed.

Lemma foldl_add_Permutation l l' z :
  l ≡ₚ l' → foldl add z l = foldl add z l'.
Proof.
  intros Hp. revert z.
  induction Hp as [|x l l' Hp IH|x y l|l l' l'' Hp IH Hp' IH']; intros z.
  - done.
  - simpl. apply IH.
  - simpl. f_equal. by rewrite <- !add_assoc, (add_comm y x).
  - by rewrite IH.
Qed.

Lemma foldl_add_groups {A : Type} (g : A → list F) (ks : list A) z :
  foldl add z ((λ k, foldl add (of_Z 0) (g k)) <$> ks)
  = foldl add z (ks ≫= g).
Proof.
  revert z. induction ks as [|k ks IH]; intros z; [done|].
  rewrite fmap_cons. cbn [mbind list_bind foldl]. rewrite foldl_app, IH.
  by rewrite <- foldl_add_zero.
Qed.

Lemma omap_bind_groups {A B C : Type} (f : B → option C) (g : A → list B)
    (ks : list A) :
  omap f (ks ≫= g) = ks ≫= (λ k, omap f (g k)).
Proof.
  induction ks as [|k ks IH]; [done|].
  cbn [mbind list_bind]. by rewrite omap_app, IH.
Qed.

Lemma foldl_add_fmap {A : Type} (f : A → F) (l : list A) z :
  foldl (λ acc x, add acc (f x)) z l = foldl add z (f <$> l).
Proof. revert z. induction l as [|x l IH]; intros z; [done|]. apply IH. Qed.

Lemma totalForecastCost_sum (getMonthName : string → string)
    (allocations : list Allocation.t) (members : list TeamMember.t)
    (roles : list (Role.t F)) :
  Forecast.totalForecastCost
    (Dashboard.financialData getMonthName allocations members roles)
  = foldl add (of_Z 0) (omap (Spec.contribution members roles) allocations).
Proof.
  unfold Forecast.totalForecastCost, Dashboard.financialData.
  rewrite foldl_add_fmap, <- list_fmap_compose.
  transitivity
    (foldl add (of_Z 0)
       ((λ m, foldl add (of_Z 0)
                (omap (Spec.contribution members roles)
                   (filter (λ a, Allocation.month a = m) allocations)))
          <$> Js.sortedDistinct (Allocation.month <$> allocations))).
  { f_equal. apply list_fmap_ext. intros i m _. simpl. apply monthCost_sum. }
  rewrite foldl_add_groups, <- omap_bind_groups.
  apply foldl_add_Permutation, omap_Permutation.
  apply groups_cover; [apply sortedDistinct_NoDup|].
  intros a Ha. apply sortedDistinct_elem. by apply list_elem_of_fmap_2.
Qed.

Lemma projectTotals_sum (projects : list Project.t)
    (allocations : list Allocation.t) (members : list TeamMember.t)
    (roles : list (Role.t F)) :
  NoDup (Project.id <$> projects) →
  (∀ a, a ∈ allocations → Allocation.projectId a ∈ Project.id <$> projects) →
  foldl add (of_Z 0)
    ((λ project,
        ProjectList.calculateProjectTotal allocations members roles
          (Project.id project)) <$> projects)
  = foldl add (of_Z 0) (omap (Spec.contribution members roles) allocations).
Proof.
  intros Hnd Hall.
  transitivity
    (foldl add (of_Z 0)
       ((λ project,
           foldl add (of_Z 0)
             (omap (Spec.contribution members roles)
                (filter (λ a, Allocation.projectId a = Project.id project)
                   allocations))) <$> projects)).
  { f_equal. apply list_fmap_ext. intros i p _.
    apply calculateProjectTotal_sum. }
  rewrite foldl_add_groups, <- omap_bind_groups.
  apply foldl_add_Permutation, omap_Permutation.
  assert (E : projects ≫=
                (λ project,
                   filter (λ a, Allocation.projectId a = Project.id project)
                     allocations)
              = (Project.id <$> projects) ≫=
                  (λ k, filter (λ a, Allocation.projectId a = k) allocations))
    by by rewrite list_fmap_bind.
  rewrite E. by apply groups_cover.
Qed.
End ExactTotals.

(** X24: the rows of the forecast share out the store: the cost of a month
    is computed from the allocations of the month alone, and the allocations
    of the months of the rows, taken together, are the allocations of the
    store, each once. *)
Theorem forecast_groups {F : Type} `{Arith F}
    (allocations : list Allocation.t) (members : list TeamMember.t)
    (roles : list (Role.t F)) :
  let months := Js.sortedDistinct (Allocation.month <$> allocations) in
  let group := λ m, filter (λ a, Allocation.month a = m) allocations in
  (∀ m, Dashboard.monthCost allocations members roles m
        = Dashboard.monthCost (group m) members roles m)
  ∧ months ≫= group ≡ₚ allocations
  ∧ (∀ m m' a, a ∈ group m → a ∈ group m' → m = m').
Proof.
  intros months group. split_and!.
  - intros m. unfold Dashboard.monthCost, group. f_equal.
    rewrite filter_filter_and. apply filter_ext_elem. tauto.
  - apply groups_cover; [apply sortedDistinct_NoDup|].
    intros a Ha. apply sortedDistinct_elem. by apply list_elem_of_fmap_2.
  - intros m m' a [Hm _]%list_elem_of_filter [Hm' _]%list_elem_of_filter.
    congruence.
Qed.

(** X25: in exact arithmetic, where addition is associative and commutative
    and 0 is neutral, the total of the forecast is the sum of the
    contributions of all the allocations of the store, and the totals of the
    projects add up to it if the projects have distinct identifiers and
    every allocation is on one of them. *)
Theorem totals_agree {F : Type} `{Arith F}
    (getMonthName : string → string) (projects : list Project.t)
    (allocations : list Allocation.t) (members : list TeamMember.t)
    (roles : list (Role.t F)) :
  (∀ x y : F, add x y = add y x) →
  (∀ x y z : F, add x (add y z) = add (add x y) z) →
  (∀ x : F, add (of_Z 0) x = x) →
  let total :=
    Forecast.totalForecastCost
      (Dashboard.financialData getMonthName allocations members roles) in
  total
  = foldl add (of_Z 0) (omap (Spec.contribution members roles) allocations)
  ∧ (NoDup (Project.id <$> projects) →
     (∀ a, a ∈ allocations →
           Allocation.projectId a ∈ Project.id <$> projects) →
     foldl add (of_Z 0)
       ((λ project,
           ProjectList.calculateProjectTotal allocations members roles
             (Project.id project)) <$> projects)
     = total).
Proof.
  intros Hcomm Hassoc Hzero total. split.
  - by apply totalForecastCost_sum.
  - intros Hnd Hall. unfold total.
    rewrite totalForecastCost_sum by done. by apply projectTotals_sum.
Qed.

Lemma totals_agree_witness :
  (∀ x y : Q, add x y = add y x)
  ∧ (∀ x y z : Q, add x (add y z) = add (add x y) z)
  ∧ (∀ x : Q, add (of_Z 0) x = x)
  ∧ Forecast.totalForecastCost
      (Dashboard.financialData (λ month, month) Example.staffing
         Example.members Example.roles)
    = foldl add (of_Z 0)
        (omap (Spec.contribution Example.members Example.roles)
           Example.staffing).
Proof.
  assert (Hcomm : ∀ x y : Q, add x y = add y x).
  { intros [a b] [c d]. simpl. unfold Qplus. simpl. f_equal; lia. }
  assert (Hassoc : ∀ x y z : Q, add x (add y z) = add (add x y) z).
  { intros [a b] [c d] [e f]. simpl. unfold Qplus. simpl. f_equal; lia. }
  assert (Hzero : ∀ x : Q, add (of_Z 0) x = x).
  { intros [a b]. simpl. unfold Qplus. simpl. f_equal. lia. }
  split; [exact Hcomm|]. split; [exact Hassoc|]. split; [exact Hzero|].
  apply (totals_agree (λ month, month) [] Example.staffing Example.members
           Example.roles Hcomm Hassoc Hzero).
Defined.

(** The totals of the demonstration data. *)
Example totals_example :
  Qred (Forecast.totalForecastCost
          (Dashboard.financialData (λ month, month) Example.staffing
             Example.members Example.roles)) = inject_Z 76704
  ∧ Qred (ProjectList.calculateProjectTotal Example.staffing Example.members
            Example.roles "1") = inject_Z 40480
  ∧ Qred (ProjectList.calculateProjectTotal Example.staffing Example.members
            Example.roles "2") = inject_Z 36224.
Proof. by vm_compute. Qed.


(** ** Three clicks *)

Section ThreeClicks.
Implicit Types (s : list Allocation.t) (c : Cell.t) (u : string).

Local Abbreviation ids s := (Allocation.id <$> s).

Lemma upsert_add s u c v :
  ProjectList.findAllocation s (Cell.projectId c) (Cell.memberId c)
    (Cell.month c) = None →
  0 < v →
  Spec.upsert s u c v
  = s ++ [Allocation.mk u (Cell.projectId c) (Cell.memberId c)
            (Cell.month c) v].
Proof.
  intros Hnone Hv. unfold Spec.upsert. rewrite write_cases, Hnone.
  by replace (0 <? v) with true by (symmetry; by apply Z.ltb_lt).
Qed.

Lemma find_added s u c v :
  ProjectList.findAllocation s (Cell.projectId c) (Cell.memberId c)
    (Cell.month c) = None →
  ProjectList.findAllocation
    (s ++ [Allocation.mk u (Cell.projectId c) (Cell.memberId c)
             (Cell.month c) v])
    (Cell.projectId c) (Cell.memberId c) (Cell.month c)
  = Some (Allocation.mk u (Cell.projectId c) (Cell.memberId c)
            (Cell.month c) v).
Proof. intros Hnone. by apply find_app_None. Qed.

Lemma upsert_update_added s u u' c v v' :
  ProjectList.findAllocation s (Cell.projectId c) (Cell.memberId c)
    (Cell.month c) = None →
  u ∉ ids s → 0 < v' → v ≠ v' →
  Spec.upsert
    (s ++ [Allocation.mk u (Cell.projectId c) (Cell.memberId c)
             (Cell.month c) v]) u' c v'
  = s ++ [Allocation.mk u (Cell.projectId c) (Cell.memberId c)
            (Cell.month c) v'].
Proof.
  intros Hnone Hu Hv Hne. unfold Spec.upsert.
  rewrite write_cases, find_added by done.
  replace (0 <? v') with true by (symmetry; by apply Z.ltb_lt).
  rewrite decide_False by done.
  unfold App.updateAllocation. rewrite fmap_app. simpl.
  rewrite decide_True by done. f_equal.
  rewrite <- (list_fmap_id s) at 2. apply list_fmap_ext.
  intros i a Ha%list_elem_of_lookup_2. simpl.
  rewrite decide_False; [done|]. intros E. apply Hu. rewrite <- E.
  by apply list_elem_of_fmap_2.
Qed.

Lemma upsert_delete_added s u u' c v v' :
  ProjectList.findAllocation s (Cell.projectId c) (Cell.memberId c)
    (Cell.month c) = None →
  u ∉ ids s → v' ≤ 0 →
  Spec.upsert
    (s ++ [Allocation.mk u (Cell.projectId c) (Cell.memberId c)
             (Cell.month c) v]) u' c v'
  = s.
Proof.
  intros Hnone Hu Hv. unfold Spec.upsert.
  rewrite write_cases, find_added by done.
  replace (0 <? v') with false by (symmetry; by apply Z.ltb_ge).
  unfold App.deleteAllocation. rewrite filter_app, filter_cons. simpl.
  rewrite decide_False by (intros Hn; by apply Hn).
  rewrite filter_nil, app_nil_r. apply filter_all.
  intros a Ha E. apply Hu. rewrite <- E. by apply list_elem_of_fmap_2.
Qed.

Lemma shown_added s u c v :
  ProjectList.findAllocation s (Cell.projectId c) (Cell.memberId c)
    (Cell.month c) = None →
  ProjectList.cellPercentage
    (s ++ [Allocation.mk u (Cell.projectId c) (Cell.memberId c)
             (Cell.month c) v])
    (Cell.projectId c) (Cell.memberId c) (Cell.month c) = v.
Proof.
  intros Hnone. unfold ProjectList.cellPercentage.
  by rewrite find_added.
Qed.
End ThreeClicks.

(** X26: three clicks on an empty cell restore the store: the first adds a
    record of 100 under a new identifier, the second sets it to 50, the
    third deletes it, and the records that were there are as they were, in
    their order. *)
Theorem three_clicks_restore (st : ProjectList.State) (c : Cell.t)
    (u1 u2 u3 : string) :
  let s := ProjectList.allocations st in
  let record := λ v,
    Allocation.mk u1 (Cell.projectId c) (Cell.memberId c) (Cell.month c) v in
  ProjectList.findAllocation s (Cell.projectId c) (Cell.memberId c)
    (Cell.month c) = None →
  u1 ∉ Allocation.id <$> s →
  ProjectList.allocations (ProjectList.run (Spec.clicks c [u1]) st)
  = s ++ [record 100]
  ∧ ProjectList.allocations (ProjectList.run (Spec.clicks c [u1; u2]) st)
    = s ++ [record 50]
  ∧ ProjectList.allocations (ProjectList.run (Spec.clicks c [u1; u2; u3]) st)
    = s.
Proof.
  intros s record Hnone Hu.
  assert (H0 : ProjectList.cellPercentage s (Cell.projectId c)
                 (Cell.memberId c) (Cell.month c) = 0).
  { unfold ProjectList.cellPercentage. by rewrite Hnone. }
  assert (E1 : ProjectList.allocations (ProjectList.run (Spec.clicks c [u1]) st)
               = s ++ [record 100]).
  { change (Spec.clicks c [u1]) with (Spec.click c u1 ++ []).
    rewrite app_nil_r, click_allocations. fold s. rewrite H0.
    by apply upsert_add. }
  assert (E2 : ProjectList.allocations
                 (ProjectList.run (Spec.clicks c [u1; u2]) st)
               = s ++ [record 50]).
  { change (Spec.clicks c [u1; u2])
      with (Spec.clicks c [u1] ++ Spec.click c u2).
    rewrite run_app, click_allocations, E1.
    unfold record. rewrite shown_added by done.
    by apply upsert_update_added. }
  split; [done|]. split; [done|].
  change (Spec.clicks c [u1; u2; u3])
    with (Spec.clicks c [u1; u2] ++ Spec.click c u3).
  rewrite run_app, click_allocations, E2.
  unfold record. rewrite shown_added by done.
  by apply upsert_delete_added.
Qed.

Lemma three_clicks_restore_witness :
  ProjectList.findAllocation (ProjectList.allocations Example.state)
    "2" "1" "2025-01" = None
  ∧ ProjectList.allocations
      (ProjectList.run
         (Spec.clicks (Cell.mk "2" "1" "2025-01") ["u1"; "u2"; "u3"])
         Example.state)
    = Example.allocations.
Proof.
  split; [reflexivity|].
  apply (three_clicks_restore Example.state (Cell.mk "2" "1" "2025-01")
           "u1" "u2" "u3" eq_refl).
  apply (bool_decide_unpack _). vm_compute. exact I.
Defined.


(** ** The team and the projects that [App] can hold *)

Section Directory.
Implicit Types (members : list TeamMember.t) (projects : list Project.t).

Lemma teamStep_ids members e :
  TeamMember.id <$> Forms.teamStep members e
  ⊆ (TeamMember.id <$> members) ++ Forms.uuidOf e.
Proof.
  destruct e as [form uuid|id]; simpl.
  - unfold Forms.handleAddMember. destruct (decide _); simpl.
    + intros x Hx. apply elem_of_app. by left.
    + unfold AppData.addMember. by rewrite fmap_app.
  - intros x (m & -> & [_ Hm]%list_elem_of_filter)%list_elem_of_fmap.
    rewrite app_nil_r. by apply list_elem_of_fmap_2.
Qed.

Lemma teamStep_NoDup members e :
  NoDup ((TeamMember.id <$> members) ++ Forms.uuidOf e) →
  NoDup (TeamMember.id <$> Forms.teamStep members e).
Proof.
  destruct e as [form uuid|id]; simpl.
  - unfold Forms.handleAddMember. destruct (decide _); simpl.
    + by intros [? _]%NoDup_app.
    + unfold AppData.addMember. by rewrite fmap_app.
  - rewrite app_nil_r. apply NoDup_filter_fmap.
Qed.

Lemma teamStep_named members e :
  Forall (λ m, TeamMember.name m ≠ "" ∧ TeamMember.roleId m ≠ "") members →
  Forall (λ m, TeamMember.name m ≠ "" ∧ TeamMember.roleId m ≠ "")
    (Forms.teamStep members e).
Proof.
  intros Hall. destruct e as [form uuid|id]; simpl.
  - unfold Forms.handleAddMember. destruct (decide _) as [|Hn]; simpl; [done|].
    apply Forall_app. split; [done|]. apply Forall_singleton. simpl. tauto.
  - by apply Forall_filter_keep.
Qed.

Lemma team_run_ids members (events : list Forms.TeamEvent) :
  NoDup ((TeamMember.id <$> members) ++ (events ≫= Forms.uuidOf)) →
  NoDup (TeamMember.id <$> foldl Forms.teamStep members events)
  ∧ TeamMember.id <$> foldl Forms.teamStep members events
    ⊆ (TeamMember.id <$> members) ++ (events ≫= Forms.uuidOf).
Proof.
  induction events as [|e events IH] using rev_ind; intros Hnd.
  - change ([] ≫= Forms.uuidOf) with (@nil string) in *.
    rewrite app_nil_r in *. done.
  - rewrite bind_app in *.
    change ([e] ≫= Forms.uuidOf) with (Forms.uuidOf e ++ []) in *.
    rewrite app_nil_r, app_assoc in *.
    destruct (IH (proj1 (proj1 (NoDup_app _ _) Hnd))) as [Hm Hsub].
    rewrite foldl_app. cbn [foldl]. split.
    + apply teamStep_NoDup.
      by eapply NoDup_app_shrink; [exact Hm | exact Hsub |].
    + intros x [Hx|Hx]%teamStep_ids%elem_of_app; apply elem_of_app;
        [left; by apply Hsub | by right].
Qed.

Lemma team_run_named members (events : list Forms.TeamEvent) :
  Forall (λ m, TeamMember.name m ≠ "" ∧ TeamMember.roleId m ≠ "") members →
  Forall (λ m, TeamMember.name m ≠ "" ∧ TeamMember.roleId m ≠ "")
    (foldl Forms.teamStep members events).
Proof.
  intros Hall. induction events as [|e events IH] using rev_ind; [done|].
  rewrite foldl_app. cbn [foldl]. by apply teamStep_named.
Qed.

Lemma project_run projects (submissions : list (Forms.ProjectForm * string)) :
  let projects' :=
    foldl (λ projects x, (Forms.handleCreateProject x.2 x.1 projects).2)
      projects submissions in
  NoDup ((Project.id <$> projects) ++ submissions.*2) →
  (NoDup (Project.id <$> projects')
   ∧ Project.id <$> projects' ⊆ (Project.id <$> projects) ++ submissions.*2)
  ∧ projects `prefix_of` projects'
  ∧ (Forall (λ p, Project.name p ≠ "" ∧ Project.client p ≠ "") projects →
     Forall (λ p, Project.name p ≠ "" ∧ Project.client p ≠ "") projects')
  ∧ length projects'
    = (length projects
       + length (filter (λ x, Forms.newProjectName x.1 ≠ "") submissions))%nat.
Proof.
  induction submissions as [|[form uuid] submissions IH] using rev_ind;
    intros projects' Hnd; subst projects'.
  - cbn [foldl]. rewrite fmap_nil, app_nil_r in *.
    split_and!; done.
  - rewrite fmap_app in *. cbn [fmap list_fmap snd] in Hnd |- *.
    rewrite app_assoc in *.
    pose proof Hnd as (Hnd' & Hdisj & _)%NoDup_app.
    destruct (IH Hnd') as ((Hids & Hsub) & Hpre & Hnamed & Hlen). clear IH.
    rewrite foldl_app, filter_app, length_app. cbn [foldl fst snd].
    set (ps := foldl _ projects submissions) in *. clearbody ps.
    unfold Forms.handleCreateProject. rewrite filter_cons, filter_nil.
    cbn [fst]. destruct (decide (Forms.newProjectName form = "")) as [E|E].
    + rewrite decide_False by (intros Hn; by apply Hn). cbn [snd length].
      split_and!; try done.
      * intros x Hx%Hsub. apply elem_of_app. by left.
      * lia.
    + rewrite (decide_True (P := Forms.newProjectName form ≠ "")) by done.
      unfold AppData.addProject. cbn [snd length].
      split_and!.
      * rewrite fmap_app. apply NoDup_app.
        split_and!; [done| |apply NoDup_singleton].
        intros x Hx%Hsub Hu. by apply (Hdisj x).
      * rewrite fmap_app.
        intros x [Hx%Hsub|Hx]%elem_of_app; apply elem_of_app; auto.
      * by apply prefix_app_r.
      * intros Hall. apply Forall_app. split; [auto|].
        apply Forall_singleton. simpl. split; [done|]. by destruct (decide _).
      * rewrite length_app. simpl. lia.
Qed.
End Directory.

(** X27: whatever members are added through the form and deleted, the
    members of the team have distinct identifiers, if the identifiers drawn
    are new, and every member has a name and a role identifier that are not
    empty. *)
Theorem team_invariants (events : list Forms.TeamEvent) :
  let members := foldl Forms.teamStep AppData.INITIAL_MEMBERS events in
  NoDup ((TeamMember.id <$> AppData.INITIAL_MEMBERS)
         ++ (events ≫= Forms.uuidOf)) →
  NoDup (TeamMember.id <$> members)
  ∧ Forall (λ m, TeamMember.name m ≠ "" ∧ TeamMember.roleId m ≠ "") members.
Proof.
  intros members Hnd. split.
  - by apply team_run_ids.
  - apply team_run_named. repeat constructor; done.
Qed.

Lemma team_invariants_witness :
  NoDup (TeamMember.id <$>
           foldl Forms.teamStep AppData.INITIAL_MEMBERS
             [ Forms.SubmitMember
                 (Forms.mkMemberForm "Ann Lee" "2" MemberType.CONSULTANT)
                 "id5";
               Forms.DeleteMember "2";
               Forms.SubmitMember
                 (Forms.mkMemberForm "" "1" MemberType.FULL_TIME) "id6" ]).
Proof.
  apply (team_invariants
           [ Forms.SubmitMember
               (Forms.mkMemberForm "Ann Lee" "2" MemberType.CONSULTANT) "id5";
             Forms.DeleteMember "2";
             Forms.SubmitMember
               (Forms.mkMemberForm "" "1" MemberType.FULL_TIME) "id6" ]).
  apply (bool_decide_unpack _). vm_compute. exact I.
Defined.

(** X28: whatever forms for a new project are submitted, the projects have
    distinct identifiers, if the identifiers drawn are new; the projects
    that were there stay, first and unchanged; every project has a name and
    a client that are not empty, and a form without a name adds no project.
    *)
Theorem project_invariants (submissions : list (Forms.ProjectForm * string)) :
  let projects :=
    foldl (λ projects x, (Forms.handleCreateProject x.2 x.1 projects).2)
      AppData.INITIAL_PROJECTS submissions in
  NoDup ((Project.id <$> AppData.INITIAL_PROJECTS) ++ submissions.*2) →
  NoDup (Project.id <$> projects)
  ∧ AppData.INITIAL_PROJECTS `prefix_of` projects
  ∧ Forall (λ p, Project.name p ≠ "" ∧ Project.client p ≠ "") projects
  ∧ length projects
    = (2 + length (filter (λ x, Forms.newProjectName x.1 ≠ "")
                     submissions))%nat.
Proof.
  intros projects Hnd.
  destruct (project_run AppData.INITIAL_PROJECTS submissions Hnd)
    as ((Hids & _) & Hpre & Hnamed & Hlen).
  split_and!; [done | done | | done].
  apply Hnamed. repeat constructor; done.
Qed.

Lemma project_invariants_witness :
  NoDup (Project.id <$>
           foldl (λ projects x,
                    (Forms.handleCreateProject x.2 x.1 projects).2)
             AppData.INITIAL_PROJECTS
             [ (Forms.mkProjectForm true "Data Platform" "", "id3");
               (Forms.mkProjectForm true "" "Acme Corp", "id4") ]).
Proof.
  apply (project_invariants
           [ (Forms.mkProjectForm true "Data Platform" "", "id3");
             (Forms.mkProjectForm true "" "Acme Corp", "id4") ]).
  apply (bool_decide_unpack _). vm_compute. exact I.
Defined.
